(** * WHYDIDITMOVE: the model-fallback request layer of [src/services/geminiService.ts]

    A shallow embedding of the request layer of the dashboard: the linear
    fallback loop over the model list ([generateWithFallback]), the response
    shape selection ([getSmartConfig]), the JSON extractor ([cleanJson]), the
    session-scoped market-status cache ([checkMarketStatus]) and the JSON use
    cases, of which [fetchYesterdayPulse] comes first.

    Conventions of the embedding.
    - A JavaScript string is the list of its UTF-16 code units, each an [N].
      String literals of the source are ASCII and are written [lit "..."].
    - An [async] function is a state transformer: it takes the state of the
      page and of the outside world and gives back a completion (a returned
      value or a thrown error) with the new state.  The source awaits every
      promise at once and runs one request at a time, so the order of effects
      is the program order.
    - A thrown value is an [Error] object; [err.message] is its message.
    - The platform functions the source calls ([String.prototype.match],
      [replace], [trim], [includes], [parseInt], [JSON.parse],
      [JSON.stringify], [Number.prototype.toString]) are modelled after the
      ECMAScript specification, on the inputs the source gives them: patterns
      without capture inside a star, integers for the clock.  A JSON number
      keeps the characters it was written with.
    - The remote service is a parameter: any function from a request, the
      state of the service and the time to an answer, a new state and a new
      time.  So are the messages of the errors that the engine throws.
    - The identifier [schema] that [fetchYesterdayPulse] reads is bound
      nowhere in its scope: reading it throws a [ReferenceError].
    - [sessionStorage.setItem] is taken to succeed. *)

From Stdlib Require Import ZArith NArith List String Ascii Bool Lia.
From stdpp Require Import base option list gmap.

Import ListNotations.

Set Default Proof Using "Type".

(** ** JavaScript strings *)

Abbreviation jsstring := (list N).

(** The code units of an ASCII literal of the source. *)
Definition lit (s : string) : jsstring :=
  List.map N_of_ascii (list_ascii_of_string s).
Arguments lit s%_string.

(** Line feed, the [\n] of the source's string and template literals. *)
Definition LF : N := 10.

(** [Array.prototype.join]: the elements separated by [sep], the empty
    string for the empty array. *)
Fixpoint join (sep : jsstring) (parts : list jsstring) : jsstring :=
  match parts with
  | [] => []
  | [p] => p
  | p :: rest => p ++ sep ++ join sep rest
  end.

(** ** Errors and completions *)

Inductive ErrorName : Type :=
  | NameError
  | NameSyntaxError
  | NameTypeError
  | NameReferenceError.

(** An [Error] object: the constructor that made it and its [message]. *)
Record JsError : Type := mkJsError {
  name : ErrorName;
  message : jsstring
}.

(** [new Error(msg)]. *)
Definition newError (msg : jsstring) : JsError := mkJsError NameError msg.

(** How a call ends: [return v] or [throw e]. *)
Inductive Completion (A : Type) : Type :=
  | Returned (v : A)
  | Thrown (e : JsError).
Arguments Returned {A} v.
Arguments Thrown {A} e.

(** ** The console and the state a call runs in *)

Inductive ConsoleEntry : Type :=
  | ConsoleLog (line : jsstring)
  | ConsoleWarn (line : jsstring)
  | ConsoleError (line : jsstring) (e : JsError).

(** The state seen by the functions of the module: the lines this module
    wrote on the console, oldest first, and everything else ([ext]: the
    clock, the session storage, the remote service, ...), which the
    request-building functions act on. *)
Record World (E : Type) : Type := mkWorld {
  console : list ConsoleEntry;
  ext : E
}.
Arguments mkWorld {E} console ext.
Arguments console {E} w.
Arguments ext {E} w.

Definition console_write {E} (entry : ConsoleEntry) (w : World E) : World E :=
  mkWorld (console w ++ [entry]) (ext w).

Definition set_ext {E} (e : E) (w : World E) : World E :=
  mkWorld (console w) e.

(** ** The model list and the fallback loop *)

Definition MODELS : list jsstring := [
  lit "gemini-flash-lite-latest";
  lit "gemini-2.5-flash-lite-preview-09-2025";
  lit "gemini-2.0-flash-lite-preview-02-05";
  lit "gemini-2.0-flash";
  lit "gemini-flash-latest";
  lit "gemini-pro-latest";
  lit "gemini-exp-1206";
  lit "gemini-3-flash-preview";
  lit "gemini-3-pro-preview";
  lit "gemini-1.5-flash";
  lit "gemini-1.5-pro"
].

(** The line pushed on [errors] and warned on the console when [model]
    fails with [err]: [`Model ${model} failed: ${err.message}`]. *)
Definition failureLine (model : jsstring) (err : JsError) : jsstring :=
  lit "Model " ++ model ++ lit " failed: " ++ message err.

(** The error thrown after the loop:
    [new Error(`All models failed. Details:\n${errors.join('\n')}`)]. *)
Definition exhaustedError (errors : list jsstring) : JsError :=
  newError (lit "All models failed. Details:" ++ [LF] ++ join [LF] errors).

Section Fallback.

Context {E A : Type}.

(** [generateFn]: given a model identifier, the request; awaiting it
    changes the outside state and either returns or throws. *)
Variable generateFn : jsstring -> E -> Completion A * E.

(** The [for (const model of ...)] loop of [generateWithFallback], from
    the candidates still to try and the [errors] array so far. *)
Fixpoint tryModels (models : list jsstring) (errors : list jsstring)
    (w : World E) : Completion A * World E :=
  match models with
  | [] => (Thrown (exhaustedError errors), w)
  | model :: rest =>
      let w1 := console_write (ConsoleLog (lit "Trying model: " ++ model)) w in
      match generateFn model (ext w1) with
      | (Returned v, e') => (Returned v, set_ext e' w1)
      | (Thrown err, e') =>
          let msg := failureLine model err in
          let w2 := console_write (ConsoleWarn msg) (set_ext e' w1) in
          tryModels rest (errors ++ [msg]) w2
      end
  end.

Definition generateWithFallback (w : World E) : Completion A * World E :=
  tryModels MODELS [] w.

End Fallback.

(** ** Response shape selection *)

(** [String.prototype.startsWith] and [String.prototype.includes]. *)
Fixpoint startsWith (s prefix : jsstring) : bool :=
  match prefix, s with
  | [], _ => true
  | p :: prefix', c :: s' => (c =? p)%N && startsWith s' prefix'
  | _ :: _, [] => false
  end.

Fixpoint includes (s search : jsstring) : bool :=
  startsWith s search ||
  match s with
  | [] => false
  | _ :: s' => includes s' search
  end.

(** The entries of [tools]; the source only uses [{ googleSearch: {} }]. *)
Inductive Tool : Type := GoogleSearch.

(** The [config] object of a request.  A property the source leaves out is
    [None]. *)
Record GenerateConfig (Schema : Type) : Type := mkConfig {
  systemInstruction : jsstring;
  tools : option (list Tool);
  responseMimeType : option jsstring;
  responseSchema : option Schema
}.
Arguments mkConfig {Schema} systemInstruction tools responseMimeType responseSchema.
Arguments systemInstruction {Schema} g.
Arguments tools {Schema} g.
Arguments responseMimeType {Schema} g.
Arguments responseSchema {Schema} g.

(** The text appended to the system instruction for a lite model. *)
Definition LITE_DIRECTIVE : jsstring :=
  [LF; LF] ++ lit "CRITICAL: Output strictly valid JSON only. Do not wrap in markdown. Do not include any text before or after.".

Definition getSmartConfig {Schema : Type} (model : jsstring) (schema : Schema)
    (instruction : jsstring) : GenerateConfig Schema :=
  let isLite := includes model (lit "lite") in
  let baseConfig :=
    mkConfig (if isLite then instruction ++ LITE_DIRECTIVE else instruction)
             (Some [GoogleSearch]) None None in
  if negb isLite
  then mkConfig (systemInstruction baseConfig) (tools baseConfig)
                (Some (lit "application/json")) (Some schema)
  else baseConfig.

(** ** Regular expressions

    The fragment of ECMAScript regular expressions the source uses, with
    the backtracking semantics of the language: alternatives are tried left
    to right, [*] is greedy, and the first start index that matches wins. *)

(** White space and line terminators: what [\s] matches and what
    [String.prototype.trim] strips. *)
Definition is_space (c : N) : bool :=
  ((9 <=? c) && (c <=? 13) || (c =? 32) || (c =? 160) || (c =? 5760)
   || (8192 <=? c) && (c <=? 8202) || (c =? 8232) || (c =? 8233)
   || (c =? 8239) || (c =? 8287) || (c =? 12288) || (c =? 65279))%N.

(** Line terminators, which [.] does not match. *)
Definition is_line_terminator (c : N) : bool :=
  ((c =? 10) || (c =? 13) || (c =? 8232) || (c =? 8233))%N.

(** Case folding of the [i] flag.  Without the [u] flag a code unit above
    127 never folds to an ASCII one, so against the ASCII literals of the
    source's patterns the folding is that of the ASCII letters. *)
Definition canonicalize (c : N) : N :=
  if ((97 <=? c) && (c <=? 122))%N then (c - 32)%N else c.

Inductive CharClass : Type :=
  | CcChar (c : N)                     (* a literal character *)
  | CcSpace                            (* \s *)
  | CcNonSpace                         (* \S *)
  | CcDot                              (* . *)
  | CcUnion (a b : CharClass).         (* [ab] *)

Fixpoint in_class (ignoreCase : bool) (cc : CharClass) (c : N) : bool :=
  match cc with
  | CcChar p => if ignoreCase then (canonicalize c =? canonicalize p)%N
                else (c =? p)%N
  | CcSpace => is_space c
  | CcNonSpace => negb (is_space c)
  | CcDot => negb (is_line_terminator c)
  | CcUnion a b => in_class ignoreCase a c || in_class ignoreCase b c
  end.

Inductive Regex : Type :=
  | REmpty
  | RSet (cc : CharClass)
  | RSeq (r1 r2 : Regex)
  | RAlt (r1 r2 : Regex)
  | RStar (r : Regex)                  (* greedy r* *)
  | RGroup (n : nat) (r : Regex)       (* the n-th capturing group *)
  | RBol                               (* ^ *)
  | REol.                              (* $ *)

(** The sequence of the characters of a literal. *)
Fixpoint RLit (s : jsstring) : Regex :=
  match s with
  | [] => REmpty
  | [c] => RSet (CcChar c)
  | c :: s' => RSeq (RSet (CcChar c)) (RLit s')
  end.

(** The captures so far: group number and captured text, latest first. *)
Definition Captures : Type := list (nat * jsstring).

(** Where a match ends: the end index, the text after it, the captures. *)
Definition MatchEnd : Type := (nat * jsstring * Captures)%type.

Definition Continuation : Type := nat -> jsstring -> Captures -> option MatchEnd.

(** The iterations of a greedy star over [body]: one more iteration
    first, which must consume something, and the rest of the pattern [k]
    when that fails.  Every iteration consumes a character, so the fuel
    [S (length s)] given by [rmatch] is never used up. *)
Fixpoint star_loop
    (body : nat -> jsstring -> Captures -> Continuation -> option MatchEnd)
    (fuel : nat) (pos : nat) (s : jsstring) (caps : Captures)
    (k : Continuation) : option MatchEnd :=
  match fuel with
  | O => k pos s caps
  | S fuel' =>
      match body pos s caps
              (fun pos' s' caps' =>
                 if (pos' =? pos)%nat then None
                 else star_loop body fuel' pos' s' caps' k) with
      | Some e => Some e
      | None => k pos s caps
      end
  end.

(** The matcher, in continuation-passing style: [rmatch r pos s caps k]
    matches [r] at index [pos], where [s] is the text from [pos] on, and
    hands the end of the match to [k], the rest of the pattern; [None] makes
    the caller backtrack. *)
Fixpoint rmatch (ignoreCase : bool) (r : Regex) (pos : nat) (s : jsstring)
    (caps : Captures) (k : Continuation) {struct r} : option MatchEnd :=
  match r with
  | REmpty => k pos s caps
  | RSet cc =>
      match s with
      | c :: s' => if in_class ignoreCase cc c then k (S pos) s' caps else None
      | [] => None
      end
  | RSeq r1 r2 =>
      rmatch ignoreCase r1 pos s caps
        (fun pos' s' caps' => rmatch ignoreCase r2 pos' s' caps' k)
  | RAlt r1 r2 =>
      match rmatch ignoreCase r1 pos s caps k with
      | Some e => Some e
      | None => rmatch ignoreCase r2 pos s caps k
      end
  | RStar r1 =>
      star_loop (rmatch ignoreCase r1) (S (length s)) pos s caps k
  | RGroup n r1 =>
      rmatch ignoreCase r1 pos s caps
        (fun pos' s' caps' => k pos' s' ((n, firstn (pos' - pos) s) :: caps'))
  | RBol => if (pos =? 0)%nat then k pos s caps else None
  | REol => match s with [] => k pos s caps | _ :: _ => None end
  end.

(** The result of [RegExp.prototype.exec]: [index], [match[0]], the
    captured groups, and the text after the match. *)
Record MatchResult : Type := mkMatch {
  index : nat;
  matched : jsstring;
  groups : Captures;
  after : jsstring
}.

(** [match[n]] for a group number [n >= 1]; [None] is [undefined]. *)
Fixpoint group (n : nat) (caps : Captures) : option jsstring :=
  match caps with
  | [] => None
  | (m, text) :: caps' => if (m =? n)%nat then Some text else group n caps'
  end.

(** The start indices in increasing order, from [pos], where [s] is the
    text from [pos] on. *)
Fixpoint exec_from (ignoreCase : bool) (r : Regex) (pos : nat) (s : jsstring)
    : option MatchResult :=
  match rmatch ignoreCase r pos s [] (fun pos' s' caps' => Some (pos', s', caps')) with
  | Some (pos', s', caps') => Some (mkMatch pos (firstn (pos' - pos) s) caps' s')
  | None =>
      match s with
      | [] => None
      | _ :: s' => exec_from ignoreCase r (S pos) s'
      end
  end.

(** [text.match(re)] for a pattern without the [g] flag. *)
Definition String_match (ignoreCase : bool) (r : Regex) (text : jsstring)
    : option MatchResult :=
  exec_from ignoreCase r 0 text.

(** [text.replace(re, '')] for a pattern without the [g] flag: the first
    match is cut out. *)
Definition replace_empty (r : Regex) (text : jsstring) : jsstring :=
  match String_match false r text with
  | Some m => firstn (index m) text ++ after m
  | None => text
  end.

(** [String.prototype.trim]. *)
Fixpoint trimStart (s : jsstring) : jsstring :=
  match s with
  | c :: s' => if is_space c then trimStart s' else s
  | [] => []
  end.

Definition trimEnd (s : jsstring) : jsstring := rev (trimStart (rev s)).

Definition trim (s : jsstring) : jsstring := trimEnd (trimStart s).

(** ** JSON extraction *)

Definition ch (c : ascii) : N := N_of_ascii c.
Arguments ch c%_char.

(** [[\s\S]]: any character. *)
Definition anyClass : CharClass := CcUnion CcSpace CcNonSpace.
Definition anyChar : Regex := RSet anyClass.

Definition space : Regex := RSet CcSpace.

(** [/(\{[\s\S]*\}|\[[\s\S]*\])/] *)
Definition JSON_LIKE : Regex :=
  RGroup 1
    (RAlt (RSeq (RSet (CcChar (ch "{"))) (RSeq (RStar anyChar) (RSet (CcChar (ch "}")))))
          (RSeq (RSet (CcChar (ch "["))) (RSeq (RStar anyChar) (RSet (CcChar (ch "]")))))).

(** [/^```json\s*/], [/^```\s*/] and [/\s*```$/] *)
Definition FENCE_JSON_OPEN : Regex :=
  RSeq RBol (RSeq (RLit (lit "```json")) (RStar space)).

Definition FENCE_OPEN : Regex :=
  RSeq RBol (RSeq (RLit (lit "```")) (RStar space)).

Definition FENCE_CLOSE : Regex :=
  RSeq (RStar space) (RSeq (RLit (lit "```")) REol).

Definition cleanJson (text : jsstring) : jsstring :=
  match String_match false JSON_LIKE text with
  | Some m => matched m
  | None =>
      replace_empty FENCE_CLOSE
        (replace_empty FENCE_OPEN
           (replace_empty FENCE_JSON_OPEN (trim text)))
  end.

(** ** JSON values, [JSON.parse] and [JSON.stringify]

    The values the module reads and writes as JSON.  A number keeps the
    characters it was written with (the source never computes with one); an
    object keeps its members in the order of their first occurrence, a
    repeated key overwriting the earlier value in place, as property creation
    does. *)

#[local] Unset Elimination Schemes.
Inductive Json : Type :=
  | JNull
  | JBool (b : bool)
  | JNumber (lexeme : jsstring)
  | JString (s : jsstring)
  | JArray (elements : list Json)
  | JObject (members : list (jsstring * Json)).
#[local] Set Elimination Schemes.

Definition jsstring_eqb (a b : jsstring) : bool :=
  bool_decide (a = b).

(** Defining the property [key] of the object built so far. *)
Fixpoint set_member (key : jsstring) (v : Json) (members : list (jsstring * Json))
    : list (jsstring * Json) :=
  match members with
  | [] => [(key, v)]
  | (k, old) :: rest =>
      if jsstring_eqb k key then (k, v) :: rest
      else (k, old) :: set_member key v rest
  end.

(** The outcome of a parsing step: a value and the text after it, a syntax
    error, or no fuel left (which [JSON_parse] never meets, see
    [parse_value_fuel]). *)
Inductive Parsed (A : Type) : Type :=
  | POk (v : A) (rest : jsstring)
  | PSyntaxError
  | PNoFuel.
Arguments POk {A} v rest.
Arguments PSyntaxError {A}.
Arguments PNoFuel {A}.

(** JSON white space: tab, line feed, carriage return, space. *)
Definition is_json_ws (c : N) : bool :=
  ((c =? 9) || (c =? 10) || (c =? 13) || (c =? 32))%N.

Fixpoint skip_ws (s : jsstring) : jsstring :=
  match s with
  | c :: s' => if is_json_ws c then skip_ws s' else s
  | [] => []
  end.

Definition is_digit (c : N) : bool := ((48 <=? c) && (c <=? 57))%N.

Definition hex_value (c : N) : option N :=
  if is_digit c then Some (c - 48)%N
  else if ((97 <=? c) && (c <=? 102))%N then Some (c - 87)%N
  else if ((65 <=? c) && (c <=? 70))%N then Some (c - 55)%N
  else None.

(** The code unit written [\uh1h2h3h4]. *)
Definition hex4 (h1 h2 h3 h4 : N) : option N :=
  match hex_value h1, hex_value h2, hex_value h3, hex_value h4 with
  | Some a, Some b, Some c, Some d => Some (((a * 16 + b) * 16 + c) * 16 + d)%N
  | _, _, _, _ => None
  end.

(** The character a one-letter escape stands for. *)
Definition unescape (e : N) : option N :=
  if (e =? 34)%N then Some 34%N            (* a double quote *)
  else if (e =? 92)%N then Some 92%N       (* a backslash *)
  else if (e =? 47)%N then Some 47%N       (* a slash *)
  else if (e =? 98)%N then Some 8%N        (* b: backspace *)
  else if (e =? 102)%N then Some 12%N      (* f: form feed *)
  else if (e =? 110)%N then Some 10%N      (* n: line feed *)
  else if (e =? 114)%N then Some 13%N      (* r: carriage return *)
  else if (e =? 116)%N then Some 9%N       (* t: tab *)
  else None.

Definition cons_fst (c : N) (r : option (jsstring * jsstring))
    : option (jsstring * jsstring) :=
  match r with
  | Some (str, rest) => Some (c :: str, rest)
  | None => None
  end.

(** The characters of a string literal after its opening quote, up to the
    closing quote: the string and the text after the quote. *)
Fixpoint parse_chars (s : jsstring) : option (jsstring * jsstring) :=
  match s with
  | [] => None
  | c :: s' =>
      if (c =? 34)%N then Some ([], s')
      else if (c =? 92)%N then
        match s' with
        | [] => None
        | e :: s'' =>
            if (e =? 117)%N then
              match s'' with
              | h1 :: h2 :: h3 :: h4 :: s''' =>
                  match hex4 h1 h2 h3 h4 with
                  | Some u => cons_fst u (parse_chars s''')
                  | None => None
                  end
              | _ => None
              end
            else
              match unescape e with
              | Some d => cons_fst d (parse_chars s'')
              | None => None
              end
        end
      else if (c <? 32)%N then None
      else cons_fst c (parse_chars s')
  end.

(** The longest prefix of decimal digits and the text after it. *)
Fixpoint take_digits (s : jsstring) : jsstring * jsstring :=
  match s with
  | c :: s' =>
      if is_digit c then let (ds, rest) := take_digits s' in (c :: ds, rest)
      else ([], s)
  | [] => ([], [])
  end.

(** A JSON number: an optional minus sign; a zero, or a digit from 1 to 9
    and then any digits; optionally a point and one digit or more;
    optionally [e] or [E], an optional sign and one digit or more.  Each
    part gives its characters and the text after them. *)
Definition lex_sign (s : jsstring) : jsstring * jsstring :=
  match s with
  | c :: s' => if (c =? 45)%N then ([c], s') else ([], s)
  | [] => ([], s)
  end.

Definition lex_int (s : jsstring) : option (jsstring * jsstring) :=
  match s with
  | c :: s' =>
      if (c =? 48)%N then Some ([c], s')
      else if is_digit c then Some (take_digits s)
      else None
  | [] => None
  end.

Definition lex_frac (s : jsstring) : option (jsstring * jsstring) :=
  match s with
  | c :: s' =>
      if (c =? 46)%N then
        match take_digits s' with
        | ([], _) => None
        | (ds, rest) => Some (c :: ds, rest)
        end
      else Some ([], s)
  | [] => Some ([], s)
  end.

Definition lex_exp (s : jsstring) : option (jsstring * jsstring) :=
  match s with
  | c :: s' =>
      if ((c =? 101) || (c =? 69))%N then
        let (esign, s1) :=
          match s' with
          | d :: s'' => if ((d =? 43) || (d =? 45))%N then ([d], s'') else ([], s')
          | [] => ([], s')
          end in
        match take_digits s1 with
        | ([], _) => None
        | (ds, rest) => Some (c :: esign ++ ds, rest)
        end
      else Some ([], s)
  | [] => Some ([], s)
  end.

Definition lex_number (s : jsstring) : option (jsstring * jsstring) :=
  let (sign, s1) := lex_sign s in
  match lex_int s1 with
  | None => None
  | Some (int_part, s2) =>
      match lex_frac s2 with
      | None => None
      | Some (frac_part, s3) =>
          match lex_exp s3 with
          | None => None
          | Some (exp_part, s4) => Some (sign ++ int_part ++ frac_part ++ exp_part, s4)
          end
      end
  end.

(** A value at the head of [s]; then the elements of an array after its
    opening bracket, the earlier ones in [acc]; then the members of an
    object after its opening brace. *)
Fixpoint parse_value (fuel : nat) (s : jsstring) : Parsed Json :=
  match fuel with
  | O => PNoFuel
  | S fuel' =>
      match s with
      | [] => PSyntaxError
      | c :: s' =>
          if (c =? 123)%N then
            match skip_ws s' with
            | d :: rest =>
                if (d =? 125)%N then POk (JObject []) rest
                else parse_members fuel' (d :: rest) []
            | [] => PSyntaxError
            end
          else if (c =? 91)%N then
            match skip_ws s' with
            | d :: rest =>
                if (d =? 93)%N then POk (JArray []) rest
                else parse_elements fuel' (d :: rest) []
            | [] => PSyntaxError
            end
          else if (c =? 34)%N then
            match parse_chars s' with
            | Some (str, rest) => POk (JString str) rest
            | None => PSyntaxError
            end
          else if startsWith s (lit "true") then POk (JBool true) (skipn 4 s)
          else if startsWith s (lit "false") then POk (JBool false) (skipn 5 s)
          else if startsWith s (lit "null") then POk JNull (skipn 4 s)
          else
            match lex_number s with
            | Some (lexeme, rest) => POk (JNumber lexeme) rest
            | None => PSyntaxError
            end
      end
  end
with parse_elements (fuel : nat) (s : jsstring) (acc : list Json) : Parsed Json :=
  match fuel with
  | O => PNoFuel
  | S fuel' =>
      match parse_value fuel' s with
      | POk v rest =>
          match skip_ws rest with
          | d :: rest' =>
              if (d =? 44)%N then parse_elements fuel' (skip_ws rest') (acc ++ [v])
              else if (d =? 93)%N then POk (JArray (acc ++ [v])) rest'
              else PSyntaxError
          | [] => PSyntaxError
          end
      | PSyntaxError => PSyntaxError
      | PNoFuel => PNoFuel
      end
  end
with parse_members (fuel : nat) (s : jsstring) (acc : list (jsstring * Json))
    : Parsed Json :=
  match fuel with
  | O => PNoFuel
  | S fuel' =>
      match s with
      | q :: s1 =>
          if (q =? 34)%N then
            match parse_chars s1 with
            | Some (key, s2) =>
                match skip_ws s2 with
                | colon :: s3 =>
                    if (colon =? 58)%N then
                      match parse_value fuel' (skip_ws s3) with
                      | POk v rest =>
                          match skip_ws rest with
                          | d :: rest' =>
                              if (d =? 44)%N
                              then parse_members fuel' (skip_ws rest') (set_member key v acc)
                              else if (d =? 125)%N
                              then POk (JObject (set_member key v acc)) rest'
                              else PSyntaxError
                          | [] => PSyntaxError
                          end
                      | PSyntaxError => PSyntaxError
                      | PNoFuel => PNoFuel
                      end
                    else PSyntaxError
                | [] => PSyntaxError
                end
            | None => PSyntaxError
            end
          else PSyntaxError
      | [] => PSyntaxError
      end
  end.

(** [JSON.parse(text)]: one value with white space around it; [None] is
    the thrown [SyntaxError]. *)
Definition JSON_parse (text : jsstring) : option Json :=
  match parse_value (2 * length text + 2) (skip_ws text) with
  | POk v rest =>
      match skip_ws rest with
      | [] => Some v
      | _ :: _ => None
      end
  | PSyntaxError => None
  | PNoFuel => None
  end.

(** The hexadecimal digit, in lower case, of a value below 16. *)
Definition hex_digit (n : N) : N :=
  if (n <? 10)%N then (48 + n)%N else (87 + n)%N.

(** [\uXXXX] for a code unit. *)
Definition unicode_escape (c : N) : jsstring :=
  [92; 117; hex_digit ((c / 4096) mod 16); hex_digit ((c / 256) mod 16);
   hex_digit ((c / 16) mod 16); hex_digit (c mod 16)]%N.

Definition is_high_surrogate (c : N) : bool := ((55296 <=? c) && (c <=? 56319))%N.
Definition is_low_surrogate (c : N) : bool := ((56320 <=? c) && (c <=? 57343))%N.

(** A code unit that is not a surrogate, inside a string literal. *)
Definition quote_unit (c : N) : jsstring :=
  if (c =? 8)%N then [92; 98]%N
  else if (c =? 9)%N then [92; 116]%N
  else if (c =? 10)%N then [92; 110]%N
  else if (c =? 12)%N then [92; 102]%N
  else if (c =? 13)%N then [92; 114]%N
  else if (c =? 34)%N then [92; 34]%N
  else if (c =? 92)%N then [92; 92]%N
  else if (c <? 32)%N then unicode_escape c
  else [c].

(** The characters of the string literal for [s]: a surrogate pair is
    written as it is, a lone surrogate is escaped. *)
Fixpoint quote_chars (s : jsstring) : jsstring :=
  match s with
  | [] => []
  | c :: s' =>
      if is_high_surrogate c then
        match s' with
        | d :: s'' =>
            if is_low_surrogate d then c :: d :: quote_chars s''
            else unicode_escape c ++ quote_chars s'
        | [] => unicode_escape c
        end
      else if is_low_surrogate c then unicode_escape c ++ quote_chars s'
      else quote_unit c ++ quote_chars s'
  end.

Definition quote (s : jsstring) : jsstring := [34%N] ++ quote_chars s ++ [34%N].

(** [JSON.stringify(v)], without indentation. *)
Fixpoint JSON_stringify (v : Json) : jsstring :=
  match v with
  | JNull => lit "null"
  | JBool true => lit "true"
  | JBool false => lit "false"
  | JNumber lexeme => lexeme
  | JString s => quote s
  | JArray elements =>
      [91%N] ++ join [44%N] (List.map JSON_stringify elements) ++ [93%N]
  | JObject members =>
      [123%N]
      ++ join [44%N]
           (List.map (fun kv => quote (fst kv) ++ [58%N] ++ JSON_stringify (snd kv))
              members)
      ++ [125%N]
  end.

(** ** Numbers as text: [parseInt] and [Number.prototype.toString]

    The clock counts milliseconds: an integer, far below the 2^53 up to
    which a JavaScript number is exact, so the numbers of the cache are
    modelled by [Z] and [NaN] by [None]. *)

Definition digit_value (radix : N) (c : N) : option N :=
  match hex_value c with
  | Some d => if (d <? radix)%N then Some d else None
  | None => None
  end.

(** The value of the longest prefix of digits; [acc] is the value so far,
    [None] while no digit was read. *)
Fixpoint parse_digits (radix : N) (s : jsstring) (acc : option N) : option N :=
  match s with
  | c :: s' =>
      match digit_value radix c with
      | Some d =>
          parse_digits radix s'
            (Some (match acc with Some a => a * radix + d | None => d end)%N)
      | None => acc
      end
  | [] => acc
  end.

(** [parseInt(s)] without a radix: leading white space, a sign, [0x] or
    [0X] for base 16, then the digits; what follows them is ignored. *)
Definition parseInt (s : jsstring) : option Z :=
  let s1 := trimStart s in
  let (negative, s2) :=
    match s1 with
    | c :: s' =>
        if (c =? 45)%N then (true, s')
        else if (c =? 43)%N then (false, s')
        else (false, s1)
    | [] => (false, s1)
    end in
  let (radix, s3) :=
    if startsWith s2 (lit "0x") || startsWith s2 (lit "0X")
    then (16%N, skipn 2 s2) else (10%N, s2) in
  match parse_digits radix s3 None with
  | Some n => Some (if negative then (- Z.of_N n)%Z else Z.of_N n)
  | None => None
  end.

(** The decimal digits of [n] in front of [acc]; [fuel] bounds the number
    of digits. *)
Fixpoint digits_of (fuel : nat) (n : N) (acc : jsstring) : jsstring :=
  match fuel with
  | O => acc
  | S fuel' =>
      let acc' := (48 + n mod 10)%N :: acc in
      if (n <? 10)%N then acc' else digits_of fuel' (n / 10)%N acc'
  end.

Definition N_toString (n : N) : jsstring :=
  digits_of (S (N.size_nat n)) n [].

(** [n.toString()] for an integer [n]. *)
Definition Z_toString (z : Z) : jsstring :=
  if (z <? 0)%Z then 45%N :: N_toString (Z.abs_N z) else N_toString (Z.to_N z).

(** ** The use cases *)

Definition lines (ls : list jsstring) : jsstring := join [LF] ls.

Definition EXPLAINER_SYSTEM_INSTRUCTION : jsstring := lines [
  lit "You are a premium Indian stock market explanation engine.";
  lit "Your role is to explain WHY a stock or index moved on a given trading day.";
  lit "- India only (NSE/BSE).";
  lit "- NO predictions, NO advice, NO target prices.";
  lit "- Be factual, neutral, and unemotional. No hype, no fear.";
  lit "- HOLIDAY & SESSION RULES:";
  lit "  1. Determine if the market is closed (Weekend or NSE/BSE Holiday).";
  lit "  2. If closed, clearly state it and STOP analysis.";
  lit "- ANALYSIS LOGIC:";
  lit "  - Consider NIFTY 50/Sector context, News, Volume, and Sentiment.";
  lit "  - If no strong reason exists, state it is sentiment-driven or index-linked. Do NOT speculate.";
  lit "- IMPACT CLASSIFICATION: No Impact, Low Impact, Medium Impact, High Impact.";
  lit "- SENTIMENT CLASSIFICATION: Positive, Negative, Neutral.";
  lit "- PREMIUM INSIGHT: Provide a 'premiumInsight' string that gives a deeper look into FII/DII flow or order book data if available."
].

Definition CACHE_KEY : jsstring := lit "wdim_market_status_cache".
Definition CACHE_TIME_KEY : jsstring := lit "wdim_market_status_time".
Definition CACHE_DURATION : Z := 30 * 60 * 1000.

(** The two patterns matched, with the [i] flag, against the text of a
    response: [STATUS:], white space, and one of the three words in a
    group; [REASON:], white space, and the rest of the line in a group. *)
Definition STATUS_PATTERN : Regex :=
  RSeq (RLit (lit "STATUS:"))
    (RSeq (RStar space)
       (RGroup 1 (RAlt (RLit (lit "OPEN"))
                    (RAlt (RLit (lit "CLOSED")) (RLit (lit "UNKNOWN")))))).

Definition REASON_PATTERN : Regex :=
  RSeq (RLit (lit "REASON:"))
    (RSeq (RStar space) (RGroup 1 (RStar (RSet CcDot)))).

(** [String.prototype.toUpperCase] on ASCII text, which is all the source
    applies it to: the captured group of [STATUS_PATTERN]. *)
Definition toUpperCase (s : jsstring) : jsstring := List.map canonicalize s.

(** The object literal [{ status: ..., reason: ... }]. *)
Definition marketStatus (status reason : jsstring) : Json :=
  JObject [(lit "status", JString status); (lit "reason", JString reason)].

(** The object built from the text of a response. *)
Definition statusOfText (text : jsstring) : Json :=
  let statusMatch := String_match true STATUS_PATTERN text in
  let reasonMatch := String_match true REASON_PATTERN text in
  marketStatus
    match statusMatch with
    | Some m => toUpperCase (default [] (group 1 (groups m)))
    | None => lit "UNKNOWN"
    end
    match reasonMatch with
    | Some m => trim (default [] (group 1 (groups m)))
    | None => lit "Requires verification"
    end.

(** What a response gives the module: its [text], [None] when the
    property is [undefined]. *)
Record Response : Type := mkResponse {
  text : option jsstring
}.

(** The argument of [ai.models.generateContent]. *)
Record Request (Schema : Type) : Type := mkRequest {
  model : jsstring;
  contents : jsstring;
  config : GenerateConfig Schema
}.
Arguments mkRequest {Schema} model contents config.
Arguments model {Schema} r.
Arguments contents {Schema} r.
Arguments config {Schema} r.

(** The state outside the module: the clock read by [Date.now()], the
    session storage of the tab, the state of the remote service, and the
    requests sent to it so far, oldest first. *)
Record Page (Net Schema : Type) : Type := mkPage {
  clock : Z;
  sessionStorage : gmap (list N) (list N);
  remote : Net;
  sent : list (Request Schema)
}.
Arguments mkPage {Net Schema} clock sessionStorage remote sent.
Arguments clock {Net Schema} p.
Arguments sessionStorage {Net Schema} p.
Arguments remote {Net Schema} p.
Arguments sent {Net Schema} p.

(** [value && ...] on what [getItem] gave: [null] and the empty string are
    falsy. *)
Definition truthy (value : option jsstring) : bool :=
  match value with
  | Some (_ :: _) => true
  | _ => false
  end.

(** The condition of the [if] of [checkMarketStatus]:
    [cachedStatus && cachedTime && (now - parseInt(cachedTime)) < CACHE_DURATION];
    a comparison with [NaN] is false. *)
Definition cacheIsFresh (cachedStatus cachedTime : option jsstring) (now : Z) : bool :=
  truthy cachedStatus && truthy cachedTime &&
  match parseInt (default [] cachedTime) with
  | Some t => (now - t <? CACHE_DURATION)%Z
  | None => false
  end.

Section Service.

Context {Net Schema : Type}.

(** The remote service: from a request, its own state and the time the
    request is sent at, the response or the error, its new state and the
    time the answer arrives at. *)
Variable service :
  Request Schema -> Net -> Z -> Completion Response * Net * Z.

(** The message of the [SyntaxError] of [JSON.parse] for a text, of the
    [TypeError] of calling [match] on [undefined], and of the
    [ReferenceError] of reading an identifier that nothing binds: they
    depend on the engine. *)
Variable syntaxErrorMessage : jsstring -> jsstring.
Variable typeErrorMessage : jsstring.
Variable referenceErrorMessage : jsstring -> jsstring.

(** [await ai.models.generateContent(request)]. *)
Definition generateContent (request : Request Schema) (p : Page Net Schema)
    : Completion Response * Page Net Schema :=
  let '(answer, remote', clock') := service request (remote p) (clock p) in
  (answer, mkPage clock' (sessionStorage p) remote' (sent p ++ [request])).

(** [JSON.parse(text)] as a completion. *)
Definition JSON_parse_completion (text : jsstring) : Completion Json :=
  match JSON_parse text with
  | Some v => Returned v
  | None => Thrown (mkJsError NameSyntaxError (syntaxErrorMessage text))
  end.

(** The request-building function of [checkMarketStatus]. *)
Definition marketStatusRequest (dateStr : jsstring) (model : jsstring)
    (p : Page Net Schema) : Completion Json * Page Net Schema :=
  match generateContent
          (mkRequest model
             (lit "Analyze Indian stock market status for " ++ dateStr
              ++ lit ". Is it a trading holiday or weekend? Return STATUS: [OPEN/CLOSED/UNKNOWN] and REASON: [Reason].")
             (mkConfig EXPLAINER_SYSTEM_INSTRUCTION None None None)) p with
  | (Returned response, p') =>
      let text := default [] (text response) in
      (Returned (statusOfText text), p')
  | (Thrown err, p') => (Thrown err, p')
  end.

(** [sessionStorage.setItem(key, value)]. *)
Definition setItem (key value : jsstring) (p : Page Net Schema) : Page Net Schema :=
  mkPage (clock p) (<[key := value]> (sessionStorage p)) (remote p) (sent p).

Definition checkMarketStatus (dateStr : jsstring) (w : World (Page Net Schema))
    : Completion Json * World (Page Net Schema) :=
  let cachedStatus := sessionStorage (ext w) !! CACHE_KEY in
  let cachedTime := sessionStorage (ext w) !! CACHE_TIME_KEY in
  let now := clock (ext w) in
  let fetch (w0 : World (Page Net Schema)) :=
    match generateWithFallback (marketStatusRequest dateStr) w0 with
    | (Returned result, w1) =>
        let p1 := setItem CACHE_KEY (JSON_stringify result) (ext w1) in
        let p2 := setItem CACHE_TIME_KEY (Z_toString now) p1 in
        (Returned result, set_ext p2 w1)
    | (Thrown err, w1) => (Thrown err, w1)
    end in
  if cacheIsFresh cachedStatus cachedTime now then
    match JSON_parse_completion (default [] cachedStatus) with
    | Returned v => (Returned v, w)
    | Thrown e =>
        fetch (console_write
                 (ConsoleError (lit "Failed to parse cached market status") e) w)
    end
  else fetch w.

Definition YESTERDAY_PROMPT : jsstring := lines [
  lit "Provide a very brief summary of the LAST trading session of the Indian Stock Market (Nifty 50 and Sensex). ";
  lit "  Include: ";
  lit "  - Nifty 50 percentage change and direction.";
  lit "  - Sensex percentage change and direction.";
  lit "  - Top sector that moved.";
  lit "  - One major market story from that session.";
  lit "  Return as JSON."
].

(** The identifier [schema] where [fetchYesterdayPulse] reads it.  Nothing
    binds it there: the module declares a [schema] only as the parameter of
    [getSmartConfig] and as a constant local to each of [fetchComparison],
    [fetchDiscoverySuggestions] and [fetchRebalancingSuggestions], and the
    platform has no global of that name.  Reading it throws a
    [ReferenceError]. *)
Definition schemaInScope : Completion Schema :=
  Thrown (mkJsError NameReferenceError (referenceErrorMessage (lit "schema"))).

(** The request-building function of [fetchYesterdayPulse].  The argument
    of [generateContent] is evaluated before the call: [schema] is read
    while the configuration is built, so the throw comes before any request
    is sent, and [JSON.parse(cleanJson(response.text))], which follows the
    request, is not reached. *)
Definition yesterdayPulseRequest (model : jsstring) (p : Page Net Schema)
    : Completion Json * Page Net Schema :=
  match schemaInScope with
  | Returned schema =>
      match generateContent
              (mkRequest model YESTERDAY_PROMPT
                 (getSmartConfig model schema EXPLAINER_SYSTEM_INSTRUCTION)) p with
      | (Returned response, p') =>
          match text response with
          | Some t => (JSON_parse_completion (cleanJson t), p')
          | None => (Thrown (mkJsError NameTypeError typeErrorMessage), p')
          end
      | (Thrown err, p') => (Thrown err, p')
      end
  | Thrown err => (Thrown err, p)
  end.

Definition fetchYesterdayPulse (w : World (Page Net Schema))
    : Completion Json * World (Page Net Schema) :=
  generateWithFallback yesterdayPulseRequest w.

End Service.

(** ** Vocabulary of the statements *)

Section FallbackVocabulary.

Context {E A : Type}.
Variable generateFn : jsstring -> E -> Completion A * E.

(** The requests for [models], one after the other from the state [e],
    when every one of them throws: the errors in order and the state
    after the last; [None] as soon as one returns. *)
Fixpoint failAll (models : list jsstring) (e : E) : option (list JsError * E) :=
  match models with
  | [] => Some ([], e)
  | model :: rest =>
      match generateFn model e with
      | (Thrown err, e') =>
          match failAll rest e' with
          | Some (errs, e'') => Some (err :: errs, e'')
          | None => None
          end
      | (Returned _, _) => None
      end
  end.

(** [generateFn] keeping, next to the state, the list of the models it
    was invoked on. *)
Definition counted (model : jsstring) (st : E * list jsstring)
    : Completion A * (E * list jsstring) :=
  let (completion, e') := generateFn model (fst st) in
  (completion, (e', snd st ++ [model])).

End FallbackVocabulary.

(** What the loop writes on the console for candidates that fail. *)
Definition failureEntries (models : list jsstring) (errs : list JsError)
    : list ConsoleEntry :=
  concat (zip_with
            (fun model err =>
               [ConsoleLog (lit "Trying model: " ++ model);
                ConsoleWarn (failureLine model err)])
            models errs).

(** ** Scenarios

    Concrete requests and services, on which the statements below are
    evaluated. *)

(** The scenario of the three candidates [A], [B] and [C]: [A] is rate
    limited, [B] rejects the request, [C] answers with the object whose
    member [x] is 1.  The state counts the requests made. *)
Definition payloadX1 : Json := JObject [(lit "x", JNumber (lit "1"))].

Definition scenarioABC (model : jsstring) (requests : nat) : Completion Json * nat :=
  if jsstring_eqb model (lit "A")
  then (Thrown (newError (lit "rate limited")), S requests)
  else if jsstring_eqb model (lit "B")
  then (Thrown (newError (lit "invalid arg")), S requests)
  else (Returned payloadX1, S requests).

(** Every request is rate limited, whatever the model. *)
Definition alwaysRateLimited (model : jsstring) (requests : nat)
    : Completion Json * nat :=
  (Thrown (newError (lit "rate limited")), S requests).

(** [search] occurs in [s]. *)
Definition occurs_in (search s : jsstring) : Prop :=
  exists before rest, s = before ++ search ++ rest.

(** The text of the object of the scenario above. *)
Definition textX1 : jsstring := JSON_stringify payloadX1.

(** A message for the [SyntaxError] of [JSON.parse] and for the [TypeError]
    of a method call on [undefined]. *)
Definition someSyntaxErrorMessage (text : jsstring) : jsstring :=
  lit "Unexpected token in JSON".

Definition someTypeErrorMessage : jsstring :=
  lit "Cannot read properties of undefined".

(** A page at time 1000 with an empty session storage. *)
Definition emptyPage : Page nat unit := mkPage 1000 ∅ 0%nat [].

(** ** Vocabulary of the statements on patterns *)

(** The continuation that ends a pattern: the match is found. *)
Definition found : Continuation := fun pos s caps => Some (pos, s, caps).

(** What a greedy star over one character class does before the rest [k]
    of the pattern: it tries [k] after the longest run of characters of the
    class first, then after shorter and shorter runs. *)
Fixpoint greedy (ignoreCase : bool) (cc : CharClass) (pos : nat) (s : jsstring)
    (caps : Captures) (k : Continuation) : option MatchEnd :=
  match s with
  | c :: s' =>
      if in_class ignoreCase cc c then
        match greedy ignoreCase cc (S pos) s' caps k with
        | Some e => Some e
        | None => k pos s caps
        end
      else k pos s caps
  | [] => k pos [] caps
  end.

(** Every character of [s] is white space. *)
Definition all_space (s : jsstring) : Prop := Forall (fun c => is_space c = true) s.

(** [s] neither begins nor ends with a character for which [p] holds. *)
Definition edges_avoid (p : N -> bool) (s : jsstring) : Prop :=
  (forall c, head s = Some c -> p c = false) /\
  (forall c, last s = Some c -> p c = false).

(** The two alternatives of [JSON_LIKE]: an opening character, anything,
    a closing character. *)
Definition delimited (opening closing : N) : Regex :=
  RSeq (RSet (CcChar opening)) (RSeq (RStar anyChar) (RSet (CcChar closing))).

(** A text with prose around an object. *)
Definition proseWithBraces : jsstring :=
  lit "Result: " ++ textX1 ++ lit " (see note {a})".

(** [String.prototype.endsWith]. *)
Definition endsWith (s suffix : jsstring) : bool :=
  startsWith (rev s) (rev suffix).

(** A fenced answer, with white space around the fences and around the
    text inside (which has no brace and no bracket). *)
Definition fencedAnswer : jsstring :=
  lit "  " ++ lit "```json" ++ ([LF] ++ lit "  market closed " ++ [LF]) ++ lit "```"
  ++ [LF].

(** ** Vocabulary of the statements on the cache *)

(** The cache answers the call: the entry is fresh and its payload
    parses. *)
Definition cacheHit {Net Schema : Type} (p : Page Net Schema) : bool :=
  cacheIsFresh (sessionStorage p !! CACHE_KEY) (sessionStorage p !! CACHE_TIME_KEY)
    (clock p)
  && match JSON_parse (default [] (sessionStorage p !! CACHE_KEY)) with
     | Some _ => true
     | None => false
     end.

(** A service that answers every request, after 250 ms, that the market
    is closed for the weekend. *)
Definition weekendService (request : Request unit) (served : nat) (time : Z)
    : Completion Response * nat * Z :=
  (Returned (mkResponse (Some (lit "STATUS: CLOSED" ++ [LF] ++ lit "REASON: Weekend"))),
   S served, (time + 250)%Z).

(** A service that fails every request after 100 ms. *)
Definition downService (request : Request unit) (served : nat) (time : Z)
    : Completion Response * nat * Z :=
  (Thrown (newError (lit "503 Service Unavailable")), S served, (time + 100)%Z).

(** The session storage after a status was cached at time 1000, and a page
    with it at the time [now]. *)
Definition cachedStorage : gmap (list N) (list N) :=
  <[CACHE_TIME_KEY := lit "1000"]>
    (<[CACHE_KEY := JSON_stringify (marketStatus (lit "CLOSED") (lit "Weekend"))]> ∅).

Definition cachedPage (now : Z) : Page nat unit := mkPage now cachedStorage 0%nat [].

(** The date asked about in the scenarios. *)
Definition someDate : jsstring := lit "2026-11-03".

(** The worlds of the scenarios: an empty console and, in turn, no cache
    at time 1000; the cache written at time 1000 read 29 minutes later; the
    same cache read 31 minutes later. *)
Definition worldWithoutCache : World (Page nat unit) := mkWorld [] emptyPage.
Definition worldAfter29Minutes : World (Page nat unit) :=
  mkWorld [] (cachedPage (1000 + 29 * 60 * 1000)).
Definition worldAfter31Minutes : World (Page nat unit) :=
  mkWorld [] (cachedPage (1000 + 31 * 60 * 1000)).

(** Requests that are rate limited for the lite models and answered, with
    the name of the model, for the others. *)
Definition liteModelsLimited (model : jsstring) (requests : nat)
    : Completion jsstring * nat :=
  if includes model (lit "lite")
  then (Thrown (newError (lit "rate limited")), S requests)
  else (Returned model, S requests).

(** An answer of the service of [checkMarketStatus], on three lines. *)
Definition holidayAnswer : jsstring :=
  lines [lit "Here is the analysis."; lit "status:   Closed";
         lit "Reason:  Diwali holiday  "].

(** * The other use cases

    The four use cases that ask for JSON with a schema of their own:
    [fetchStockExplanation], [fetchComparison], [fetchDiscoverySuggestions]
    and [fetchRebalancingSuggestions]. *)

(** ** Errors in sequence *)

(** The statements of a body one after the other: the first that throws
    ends it. *)
Definition bind {A B : Type} (c : Completion A) (f : A -> Completion B)
    : Completion B :=
  match c with
  | Returned v => f v
  | Thrown e => Thrown e
  end.

Notation "'let*' x ':=' c 'in' f" := (bind c (fun x => f))
  (at level 10, x name, c at level 100, f at level 200).

(** ** Schema literals *)

(** The members of [Type], the enumeration of the SDK, that the module
    names. *)
Inductive SchemaType : Type := OBJECT | STRING | NUMBER | ARRAY.

(** A schema literal: its [type] and, where the literal has them, its
    [properties], [items], [enum], [description] and [required]. *)
#[local] Unset Elimination Schemes.
Inductive ResponseSchema : Type :=
  mkSchema (type : SchemaType)
    (properties : option (list (jsstring * ResponseSchema)))
    (items : option ResponseSchema)
    (enum : option (list jsstring))
    (description : option jsstring)
    (required : option (list jsstring)).
#[local] Set Elimination Schemes.

(** [{ type: Type.STRING }], [{ type: Type.NUMBER }] and the literals with
    one or two more members. *)
Definition ofType (type : SchemaType) : ResponseSchema :=
  mkSchema type None None None None None.

Definition stringOf (enum : list jsstring) : ResponseSchema :=
  mkSchema STRING None None (Some enum) None None.

Definition stringDescribed (description : jsstring) : ResponseSchema :=
  mkSchema STRING None None None (Some description) None.

Definition objectOf (properties : list (jsstring * ResponseSchema))
    (required : list jsstring) : ResponseSchema :=
  mkSchema OBJECT (Some properties) None None None (Some required).

Definition arrayOf (items : ResponseSchema) : ResponseSchema :=
  mkSchema ARRAY None (Some items) None None None.

Definition stockExplanationSchema : ResponseSchema :=
  objectOf
    [ (lit "stockName", ofType STRING);
      (lit "priceChange", ofType STRING);
      (lit "direction", stringOf [lit "up"; lit "down"; lit "neutral"]);
      (lit "oneLineSummary", ofType STRING);
      (lit "historicalPrices",
       mkSchema ARRAY None (Some (ofType NUMBER)) None
         (Some (lit "Approximate closing prices for the last 7 trading sessions."))
         None);
      (lit "cards",
       objectOf
         [ (lit "marketContext", ofType STRING);
           (lit "sectorPerformance", ofType STRING);
           (lit "newsImpact",
            objectOf
              [ (lit "text", ofType STRING);
                (lit "impact", stringOf [lit "High"; lit "Medium"; lit "Low"; lit "None"]);
                (lit "sentiment", stringOf [lit "Positive"; lit "Negative"; lit "Neutral"]);
                (lit "url",
                 stringDescribed
                   (lit "Direct URL to the most relevant news source used for this analysis.")) ]
              [lit "text"; lit "impact"; lit "sentiment"]);
           (lit "tradingActivity", ofType STRING);
           (lit "historicalPattern", ofType STRING) ]
         [lit "marketContext"; lit "sectorPerformance"; lit "newsImpact";
          lit "tradingActivity"; lit "historicalPattern"]);
      (lit "premiumInsight",
       stringDescribed
         (lit "A deeper dive into FII flow, order book dynamics, or hidden corporate triggers."));
      (lit "finalTakeaway", ofType STRING) ]
    [lit "stockName"; lit "priceChange"; lit "direction"; lit "oneLineSummary";
     lit "cards"; lit "finalTakeaway"; lit "historicalPrices"; lit "premiumInsight"].

(** The [schema] of [fetchComparison]. *)
Definition comparisonSchema : ResponseSchema :=
  objectOf
    [ (lit "stockA", stockExplanationSchema);
      (lit "stockB", stockExplanationSchema);
      (lit "comparisonSummary",
       stringDescribed
         (lit "A summary of how these two stocks differ in their recent movement drivers.")) ]
    [lit "stockA"; lit "stockB"; lit "comparisonSummary"].

(** The [schema] of [fetchDiscoverySuggestions]. *)
Definition discoverySchema : ResponseSchema :=
  objectOf
    [ (lit "profileAnalysis", ofType STRING);
      (lit "suggestedStocks",
       arrayOf
         (objectOf
            [ (lit "name", ofType STRING);
              (lit "ticker", ofType STRING);
              (lit "reasoning", ofType STRING);
              (lit "fundamentals", ofType STRING);
              (lit "newsImpact", ofType STRING);
              (lit "risks", ofType STRING);
              (lit "learningFocus", ofType STRING) ]
            [lit "name"; lit "ticker"; lit "reasoning"; lit "fundamentals";
             lit "newsImpact"; lit "risks"; lit "learningFocus"])) ]
    [lit "profileAnalysis"; lit "suggestedStocks"].

(** The [schema] of [fetchRebalancingSuggestions]. *)
Definition rebalancingSchema : ResponseSchema :=
  objectOf
    [ (lit "analysis", ofType STRING);
      (lit "diversificationScore", ofType NUMBER);
      (lit "suggestions",
       arrayOf
         (objectOf
            [ (lit "title", ofType STRING);
              (lit "description", ofType STRING);
              (lit "type", stringOf [lit "Risk"; lit "Opportunity"; lit "Balance"]) ]
            [lit "title"; lit "description"; lit "type"])) ]
    [lit "analysis"; lit "diversificationScore"; lit "suggestions"].

(** ** Instructions and prompts *)

Definition REBALANCER_SYSTEM_INSTRUCTION : jsstring := lines [
  lit "You are an educational portfolio rebalancing assistant for Indian stock market investors only.";
  lit "STRICT RULES:";
  lit "- NO price predictions or market direction forecasts.";
  lit "- NO guaranteed returns.";
  lit "- NO aggressive buy/sell instructions.";
  lit "- Provide logical, risk-based rebalancing suggestions only.";
  lit "- Prioritize capital protection and diversification principles.";
  lit "- Conservative, factual, and unemotional tone.";
  lit "- Context: Indian market (NSE/BSE)."
].

(** The two members of a [UserProfile] that the module reads, both
    strings. *)
Record UserProfile : Type := mkProfile {
  riskTolerance : jsstring;
  horizon : jsstring
}.

(** The double quote of the prompts. *)
Definition DQUOTE : jsstring := [34%N].

(** The [prompt] of [fetchStockExplanation]. *)
Definition stockExplanationPrompt (stockName : jsstring) : jsstring := lines [
  lit "Explain why Indian stock " ++ DQUOTE ++ stockName ++ DQUOTE ++ lit " moved recently. ";
  lit "  Rules: Factual analysis only. No predictions. Quantify moves with percentages.";
  lit "  Include an array 'historicalPrices' of 7 approximate closing price points for the last 7 sessions.";
  lit "  For the 'newsImpact' card, please include the URL of the primary news article used for the analysis in the 'url' field.";
  lit "  Output in JSON format matching the response schema."
].

(** The [prompt] of [fetchComparison]. *)
Definition comparisonPrompt (stockA stockB : jsstring) : jsstring := lines [
  lit "Perform a side-by-side technical and fundamental audit of two Indian stocks: "
    ++ DQUOTE ++ stockA ++ DQUOTE ++ lit " and " ++ DQUOTE ++ stockB ++ DQUOTE ++ lit ". ";
  lit "  Explain why each moved recently and how their performance compares.";
  lit "  Return JSON matching the comparison schema."
].

(** The [prompt] of [fetchDiscoverySuggestions]. *)
Definition discoveryPrompt (profile : UserProfile) : jsstring := lines [
  lit "Educational study for: Risk=" ++ riskTolerance profile
    ++ lit ", Horizon=" ++ horizon profile ++ lit ".";
  lit "  Suggest 2-3 NSE/BSE stocks for learning/study. Focus on capital protection and diversification principles. NO ADVICE."
].

(** The [prompt] of [fetchRebalancingSuggestions]; [holdings] is the value
    that [JSON.stringify] writes. *)
Definition rebalancingPrompt (profile : UserProfile) (holdings : Json) : jsstring := lines [
  lit "Audit this asset allocation for an Indian investor: Risk=" ++ riskTolerance profile
    ++ lit ", Horizon=" ++ horizon profile ++ lit ".";
  lit "  Holdings: " ++ JSON_stringify holdings ++ lit ".";
  lit "  Provide logical diversification study. NO ADVICE."
].

(** ** Values that are not JSON

    What [fetchStockExplanation] and [fetchComparison] return is built from
    a parsed value by a spread and by assignments: a member can be
    [undefined], and an array can have a property next to its elements. *)

#[local] Unset Elimination Schemes.
Inductive JsValue : Type :=
  | VUndefined
  | VNull
  | VBool (b : bool)
  | VNumber (lexeme : jsstring)
  | VString (s : jsstring)
  | VArray (elements : list JsValue) (props : list (jsstring * JsValue))
  | VObject (members : list (jsstring * JsValue)).
#[local] Set Elimination Schemes.

(** The value [JSON.parse] returned, as a value of the language. *)
Fixpoint fromJson (v : Json) : JsValue :=
  match v with
  | JNull => VNull
  | JBool b => VBool b
  | JNumber lexeme => VNumber lexeme
  | JString s => VString s
  | JArray elements => VArray (List.map fromJson elements) []
  | JObject members =>
      VObject (List.map (fun kv => (fst kv, fromJson (snd kv))) members)
  end.

(** The own property [key], [None] when there is none. *)
Fixpoint lookup_member {V : Type} (key : jsstring) (members : list (jsstring * V))
    : option V :=
  match members with
  | [] => None
  | (k, v) :: rest => if jsstring_eqb k key then Some v else lookup_member key rest
  end.

(** Defining or assigning the own property [key]: an existing property
    keeps its place. *)
Fixpoint set_property {V : Type} (key : jsstring) (v : V) (members : list (jsstring * V))
    : list (jsstring * V) :=
  match members with
  | [] => [(key, v)]
  | (k, old) :: rest =>
      if jsstring_eqb k key then (k, v) :: rest
      else (k, old) :: set_property key v rest
  end.

(** The elements of an array as properties: the index, in decimal, and the
    element. *)
Definition indexed (elements : list JsValue) : list (jsstring * JsValue) :=
  imap (fun i v => (N_toString (N.of_nat i), v)) elements.

(** The own enumerable properties that [{ ...v }] copies: the members of
    an object; the elements of an array, then its other properties; the
    code units of a string; nothing for the other values. *)
Definition spread (v : JsValue) : list (jsstring * JsValue) :=
  match v with
  | VObject members => members
  | VArray elements props => indexed elements ++ props
  | VString s => indexed (List.map (fun c => VString [c]) s)
  | VUndefined | VNull | VBool _ | VNumber _ => []
  end.

Section Properties.

(** The message of the [TypeError] of reading or writing the property
    [key] of a value that cannot have it: it depends on the engine. *)
Variable propertyErrorMessage : jsstring -> JsValue -> jsstring.

(** [target.key], for the keys the module reads, [stockA] and [stockB]:
    no prototype defines them and they are no index.  [undefined] and
    [null] have no property; a primitive has no own property of that
    name. *)
Definition getProperty (key : jsstring) (target : JsValue) : Completion JsValue :=
  match target with
  | VUndefined | VNull =>
      Thrown (mkJsError NameTypeError (propertyErrorMessage key target))
  | VObject members => Returned (default VUndefined (lookup_member key members))
  | VArray _ props => Returned (default VUndefined (lookup_member key props))
  | VBool _ | VNumber _ | VString _ => Returned VUndefined
  end.

(** [target.key = v] in the strict mode of a module, for the key the
    module writes, [sources]: the changed target.  Only an object or an
    array takes a new property. *)
Definition setProperty (key : jsstring) (v : JsValue) (target : JsValue)
    : Completion JsValue :=
  match target with
  | VObject members => Returned (VObject (set_property key v members))
  | VArray elements props => Returned (VArray elements (set_property key v props))
  | VUndefined | VNull | VBool _ | VNumber _ | VString _ =>
      Thrown (mkJsError NameTypeError (propertyErrorMessage key target))
  end.

(** [data.key.sources = []]: the property [key] of [data] is read, the
    value found is given an empty [sources], and [data], which holds that
    value, is seen with the change. *)
Definition emptySources (key : jsstring) (data : JsValue) : Completion JsValue :=
  let* target := getProperty key data in
  let* target' := setProperty (lit "sources") (VArray [] []) target in
  match data with
  | VObject members => Returned (VObject (set_property key target' members))
  | VArray elements props => Returned (VArray elements (set_property key target' props))
  | _ => Returned data
  end.

End Properties.

(** ** Grounding metadata *)

(** What [fetchStockExplanation] reads of a response besides its text:
    [candidates], of the first candidate [groundingMetadata], of it
    [groundingChunks], and of a chunk [web] with its [title] and [uri];
    [None] is [undefined]. *)
Record GroundingChunkWeb : Type := mkWeb {
  title : option jsstring;
  uri : option jsstring
}.

Record GroundingChunk : Type := mkChunk {
  web : option GroundingChunkWeb
}.

Record GroundingMetadata : Type := mkGroundingMetadata {
  groundingChunks : option (list GroundingChunk)
}.

Record Candidate : Type := mkCandidate {
  groundingMetadata : option GroundingMetadata
}.

Record GroundedResponse : Type := mkGroundedResponse {
  answer : Response;
  candidates : option (list Candidate)
}.

(** [response.candidates?.[0]?.groundingMetadata?.groundingChunks || []] *)
Definition groundingChunksOf (response : GroundedResponse) : list GroundingChunk :=
  match candidates response with
  | Some (first :: _) =>
      match groundingMetadata first with
      | Some metadata => default [] (groundingChunks metadata)
      | None => []
      end
  | Some [] => []
  | None => []
  end.

(** The predicate of the [filter]: [chunk.web]. *)
Definition hasWeb (chunk : GroundingChunk) : bool :=
  match web chunk with
  | Some _ => true
  | None => false
  end.

(** Every element through [f], in order; the first throw ends it. *)
Fixpoint mapCompletion {A B : Type} (f : A -> Completion B) (l : list A)
    : Completion (list B) :=
  match l with
  | [] => Returned []
  | x :: rest =>
      let* y := f x in
      let* ys := mapCompletion f rest in
      Returned (y :: ys)
  end.

Section StockExplanation.

Variable propertyErrorMessage : jsstring -> JsValue -> jsstring.

(** The function of the [map]:
    [{ title: chunk.web.title || 'Source', uri: chunk.web.uri }]; reading
    [title] of an [undefined] [web] throws. *)
Definition sourceOf (chunk : GroundingChunk) : Completion JsValue :=
  match web chunk with
  | Some w =>
      Returned
        (VObject
           [ (lit "title",
              VString (if truthy (title w) then default [] (title w) else lit "Source"));
             (lit "uri",
              match uri w with
              | Some u => VString u
              | None => VUndefined
              end) ])
  | None => Thrown (mkJsError NameTypeError (propertyErrorMessage (lit "title") VUndefined))
  end.

(** [groundingChunks.filter(...).map(...)] *)
Definition sourcesOf (chunks : list GroundingChunk) : Completion JsValue :=
  let* sources := mapCompletion sourceOf (List.filter hasWeb chunks) in
  Returned (VArray sources []).

(** [{ ...data, sources }] *)
Definition withSources (data sources : JsValue) : JsValue :=
  VObject (set_property (lit "sources") sources (spread data)).

End StockExplanation.

Section UseCases.

Context {Net : Type}.

(** The remote service, as in [Service], with the whole response. *)
Variable groundedService :
  Request ResponseSchema -> Net -> Z -> Completion GroundedResponse * Net * Z.

Variable syntaxErrorMessage : jsstring -> jsstring.
Variable typeErrorMessage : jsstring.
Variable propertyErrorMessage : jsstring -> JsValue -> jsstring.

(** [await ai.models.generateContent(request)], with the whole
    response. *)
Definition generateGroundedContent (request : Request ResponseSchema)
    (p : Page Net ResponseSchema)
    : Completion GroundedResponse * Page Net ResponseSchema :=
  let '(outcome, remote', clock') := groundedService request (remote p) (clock p) in
  (outcome, mkPage clock' (sessionStorage p) remote' (sent p ++ [request])).

(** [JSON.parse(cleanJson(response.text))]: [match] on an [undefined] text
    throws a [TypeError], [JSON.parse] a [SyntaxError]. *)
Definition parseAnswer (response : GroundedResponse) : Completion Json :=
  match text (answer response) with
  | Some t => JSON_parse_completion syntaxErrorMessage (cleanJson t)
  | None => Thrown (mkJsError NameTypeError typeErrorMessage)
  end.

(** The request-building function of [fetchStockExplanation]. *)
Definition stockExplanationRequest (stockName : jsstring) (model : jsstring)
    (p : Page Net ResponseSchema) : Completion JsValue * Page Net ResponseSchema :=
  match generateGroundedContent
          (mkRequest model (stockExplanationPrompt stockName)
             (getSmartConfig model stockExplanationSchema EXPLAINER_SYSTEM_INSTRUCTION))
          p with
  | (Returned response, p') =>
      (let* data := parseAnswer response in
       let* sources := sourcesOf propertyErrorMessage (groundingChunksOf response) in
       Returned (withSources (fromJson data) sources),
       p')
  | (Thrown err, p') => (Thrown err, p')
  end.

Definition fetchStockExplanation (stockName : jsstring)
    (w : World (Page Net ResponseSchema))
    : Completion JsValue * World (Page Net ResponseSchema) :=
  generateWithFallback (stockExplanationRequest stockName) w.

(** The request-building function of [fetchComparison]. *)
Definition comparisonRequest (stockA stockB : jsstring) (model : jsstring)
    (p : Page Net ResponseSchema) : Completion JsValue * Page Net ResponseSchema :=
  match generateGroundedContent
          (mkRequest model (comparisonPrompt stockA stockB)
             (getSmartConfig model comparisonSchema EXPLAINER_SYSTEM_INSTRUCTION))
          p with
  | (Returned response, p') =>
      (let* data := parseAnswer response in
       let* data1 := emptySources propertyErrorMessage (lit "stockA") (fromJson data) in
       let* data2 := emptySources propertyErrorMessage (lit "stockB") data1 in
       Returned data2,
       p')
  | (Thrown err, p') => (Thrown err, p')
  end.

Definition fetchComparison (stockA stockB : jsstring)
    (w : World (Page Net ResponseSchema))
    : Completion JsValue * World (Page Net ResponseSchema) :=
  generateWithFallback (comparisonRequest stockA stockB) w.

(** The request-building function of [fetchDiscoverySuggestions]. *)
Definition discoveryRequest (profile : UserProfile) (model : jsstring)
    (p : Page Net ResponseSchema) : Completion Json * Page Net ResponseSchema :=
  match generateGroundedContent
          (mkRequest model (discoveryPrompt profile)
             (getSmartConfig model discoverySchema REBALANCER_SYSTEM_INSTRUCTION))
          p with
  | (Returned response, p') => (parseAnswer response, p')
  | (Thrown err, p') => (Thrown err, p')
  end.

Definition fetchDiscoverySuggestions (profile : UserProfile)
    (w : World (Page Net ResponseSchema))
    : Completion Json * World (Page Net ResponseSchema) :=
  generateWithFallback (discoveryRequest profile) w.

(** The request-building function of [fetchRebalancingSuggestions]. *)
Definition rebalancingRequest (profile : UserProfile) (holdings : Json)
    (model : jsstring) (p : Page Net ResponseSchema)
    : Completion Json * Page Net ResponseSchema :=
  match generateGroundedContent
          (mkRequest model (rebalancingPrompt profile holdings)
             (getSmartConfig model rebalancingSchema REBALANCER_SYSTEM_INSTRUCTION))
          p with
  | (Returned response, p') => (parseAnswer response, p')
  | (Thrown err, p') => (Thrown err, p')
  end.

Definition fetchRebalancingSuggestions (profile : UserProfile) (holdings : Json)
    (w : World (Page Net ResponseSchema))
    : Completion Json * World (Page Net ResponseSchema) :=
  generateWithFallback (rebalancingRequest profile holdings) w.

End UseCases.

(** * The script that lists the models

    [run] reads the key of the API in the file [.env] of the working
    directory, shows it masked, asks the service for its models and prints
    them; whatever is thrown on the way is caught and printed. *)

(** The pattern of the key: the name of the variable and the equals sign,
    then, in a group, the rest of the line. *)
Definition KEY_PATTERN : Regex :=
  RSeq (RLit (lit "VITE_GEMINI_API_KEY=")) (RGroup 1 (RStar (RSet CcDot))).

(** The file [.env]: missing, [readFileSync] throws, or its content. *)
Inductive EnvFile : Type :=
  | NoFile
  | ReadFails (e : JsError)
  | FileContent (content : jsstring).

(** What the script catches: an error and, when it has one, its
    [response] with the outcome of reading its text. *)
Record Caught : Type := mkCaught {
  error : JsError;
  errorResponse : option (Completion jsstring)
}.

(** The members of a model that the script prints; [None] is
    [undefined]. *)
Record ModelInfo : Type := mkModelInfo {
  modelName : option jsstring;
  displayName : option jsstring;
  supportedGenerationMethods : option (list jsstring)
}.

(** What [client.models.list()] does for a key: the call throws, or the
    iteration yields models and then ends or throws. *)
Inductive Listing : Type :=
  | ListThrows (e : Caught)
  | ListYields (models : list ModelInfo) (failure : option Caught).

(** The machine the script runs on. *)
Record Machine : Type := mkMachine {
  envFile : EnvFile;
  listModels : jsstring -> Listing
}.

(** An argument of [console.log] or [console.error]: a string, or the
    value caught. *)
Inductive Printed : Type :=
  | PString (s : jsstring)
  | PCaught (e : Caught).

Inductive ScriptEntry : Type :=
  | ScriptLog (args : list Printed)
  | ScriptError (args : list Printed).

(** What the script leaves behind: the console, and the keys the service
    was asked with. *)
Record ScriptWorld : Type := mkScriptWorld {
  screen : list ScriptEntry;
  listedWith : list jsstring
}.

Definition script_write (entry : ScriptEntry) (w : ScriptWorld) : ScriptWorld :=
  mkScriptWorld (screen w ++ [entry]) (listedWith w).

(** [key] after the [if (fs.existsSync(envPath))] block: the group of the
    first match, trimmed; the empty string without a file or without a
    match. *)
Definition readKey (file : EnvFile) : Completion jsstring :=
  match file with
  | NoFile => Returned []
  | ReadFails e => Thrown e
  | FileContent content =>
      match String_match false KEY_PATTERN content with
      | Some m => Returned (trim (default [] (group 1 (groups m))))
      | None => Returned []
      end
  end.

(** [key.substring(0, 5) + "..." + key.substring(key.length - 5)]: the
    bounds of [substring] are clamped to the string. *)
Definition maskedKey (key : jsstring) : jsstring :=
  firstn 5 key ++ lit "..." ++ skipn (length key - 5) key.

(** A value in a template literal. *)
Definition interpolate (value : option jsstring) : jsstring :=
  default (lit "undefined") value.

(** The two lines printed for a model. *)
Definition printModel (w : ScriptWorld) (m : ModelInfo) : ScriptWorld :=
  script_write
    (ScriptLog [PString (lit "  Supported: "
                         ++ interpolate (option_map (join (lit ", "))
                                           (supportedGenerationMethods m)))])
    (script_write
       (ScriptLog [PString (lit "- " ++ interpolate (modelName m)
                            ++ lit " (Display: " ++ interpolate (displayName m)
                            ++ lit ")")])
       w).

(** The [try] block: [None] when it ends, the value thrown otherwise. *)
Definition tryBlock (machine : Machine) (w : ScriptWorld) : option Caught * ScriptWorld :=
  match readKey (envFile machine) with
  | Thrown e => (Some (mkCaught e None), w)
  | Returned key =>
      if negb (truthy (Some key))
      then (Some (mkCaught (newError (lit "No VITE_GEMINI_API_KEY found in .env")) None), w)
      else
        let w1 := script_write
                    (ScriptLog [PString (lit "Using Key:"); PString (maskedKey key)]) w in
        let w2 := script_write (ScriptLog [PString (lit "Fetching models...")]) w1 in
        let w3 := mkScriptWorld (screen w2) (listedWith w2 ++ [key]) in
        match listModels machine key with
        | ListThrows e => (Some e, w3)
        | ListYields models failure =>
            let w4 := script_write
                        (ScriptLog [PString ([LF] ++ lit "--- AVAILABLE MODELS ---")]) w3 in
            (failure, fold_left printModel models w4)
        end
  end.

(** [run]: the [try] block and the [catch] clause, which prints the value
    caught and, when it has a [response], the text of it; reading that
    text is the one thing that can still throw. *)
Definition run (machine : Machine) (w : ScriptWorld) : Completion unit * ScriptWorld :=
  match tryBlock machine w with
  | (None, w') => (Returned tt, w')
  | (Some e, w') =>
      let w1 := script_write
                  (ScriptError [PString (lit "Error listing models:"); PCaught e]) w' in
      match errorResponse e with
      | Some (Returned body) =>
          (Returned tt,
           script_write (ScriptError [PString (lit "API Response:"); PString body]) w1)
      | Some (Thrown err) => (Thrown err, w1)
      | None => (Returned tt, w1)
      end
  end.

(** ** Vocabulary of the further properties *)

(** The opening and the closing character of an object or of an array. *)
Definition json_delimiters (opening closing : N) : Prop :=
  opening = ch "{" /\ closing = ch "}" \/ opening = ch "[" /\ closing = ch "]".

(** [s] has an [opening] character with a [closing] character somewhere
    after it. *)
Definition has_pair (opening closing : N) (s : jsstring) : Prop :=
  exists a b c, s = a ++ opening :: b ++ closing :: c.

(** The three values of the [status] of a market status. *)
Definition STATUS_VALUES : list jsstring :=
  [lit "OPEN"; lit "CLOSED"; lit "UNKNOWN"].

(** No opening character of [before] has its closing character after it,
    in the rest of [before] or in [tail]. *)
Definition unclosed (before tail : jsstring) : Prop :=
  forall a b opening closing,
    before = a ++ opening :: b -> json_delimiters opening closing ->
    closing ∉ b ++ tail.

(** The three replacements of [cleanJson], after the trim. *)
Definition stripFences (text : jsstring) : jsstring :=
  replace_empty FENCE_CLOSE
    (replace_empty FENCE_OPEN (replace_empty FENCE_JSON_OPEN (trim text))).

(** The request [checkMarketStatus] sends for a model. *)
Definition statusRequestOf {Schema : Type} (dateStr model : jsstring) : Request Schema :=
  mkRequest model
    (lit "Analyze Indian stock market status for " ++ dateStr
     ++ lit ". Is it a trading holiday or weekend? Return STATUS: [OPEN/CLOSED/UNKNOWN] and REASON: [Reason].")
    (mkConfig EXPLAINER_SYSTEM_INSTRUCTION None None None).

(** The entries of [console.log] and [console.warn], which the fallback
    loop writes. *)
Definition is_progress_entry (entry : ConsoleEntry) : bool :=
  match entry with
  | ConsoleLog _ | ConsoleWarn _ => true
  | ConsoleError _ _ => false
  end.

(** The entry of the cache is fresh and its payload does not parse. *)
Definition cacheCorrupted {Net Schema : Type} (p : Page Net Schema) : bool :=
  cacheIsFresh (sessionStorage p !! CACHE_KEY) (sessionStorage p !! CACHE_TIME_KEY)
    (clock p)
  && match JSON_parse (default [] (sessionStorage p !! CACHE_KEY)) with
     | Some _ => false
     | None => true
     end.

(** A page at time 2000 whose session storage holds, since time 1000, a
    payload cut short, and an entry of another part of the application. *)
Definition corruptedStorage : gmap (list N) (list N) :=
  <[lit "theme" := lit "dark"]>
    (<[CACHE_TIME_KEY := lit "1000"]> (<[CACHE_KEY := lit "{status:"]> ∅)).

Definition worldWithCorruptedCache : World (Page nat unit) :=
  mkWorld [] (mkPage 2000 corruptedStorage 0%nat []).

(** An own property of an object, or of an array besides its elements. *)
Definition ownProperty (key : jsstring) (v : JsValue) : option JsValue :=
  match v with
  | VObject members => lookup_member key members
  | VArray _ props => lookup_member key props
  | _ => None
  end.

(** A source as [fetchStockExplanation] builds it: an object with a
    [title] that is not empty and a [uri] that is a string or
    [undefined]. *)
Definition is_source (v : JsValue) : Prop :=
  exists t u,
    v = VObject [(lit "title", VString t); (lit "uri", u)]
    /\ t <> []
    /\ (u = VUndefined \/ exists s, u = VString s).

(** The member [key] of a parsed value is an object or an array: what can
    take a property. *)
Definition hasContainer (key : jsstring) (data : Json) : bool :=
  match data with
  | JObject members =>
      match lookup_member key members with
      | Some (JObject _) | Some (JArray _) => true
      | _ => false
      end
  | _ => false
  end.

(** The request of a use case for a model. *)
Definition requestOf (prompt : jsstring) (schema : ResponseSchema)
    (instruction : jsstring) (model : jsstring) : Request ResponseSchema :=
  mkRequest model prompt (getSmartConfig model schema instruction).

(** Between the states [p] and [p'] the requests of a use case were sent
    for the first [k] models of the list, and nothing else happened to the
    requests sent or to the session storage. *)
Definition sentFor {Net : Type} (prompt : jsstring) (schema : ResponseSchema)
    (instruction : jsstring) (k : nat) (p p' : Page Net ResponseSchema) : Prop :=
  sent p' = sent p ++ List.map (requestOf prompt schema instruction) (firstn k MODELS)
  /\ sessionStorage p' = sessionStorage p.

(** A message for the [TypeError] of a property access. *)
Definition somePropertyErrorMessage (key : jsstring) (v : JsValue) : jsstring :=
  lit "Cannot access property " ++ key.

(** An answer about one stock: an object that has a [sources] member of
    its own, and three grounding chunks, the second without [web], the
    third with a [web] that has neither [title] nor [uri]. *)
Definition stockAnswerData : Json :=
  JObject [(lit "stockName", JString (lit "TCS"));
           (lit "sources", JString (lit "made up"));
           (lit "finalTakeaway", JString (lit "Index-linked move."))].

Definition stockAnswer : GroundedResponse :=
  mkGroundedResponse
    (mkResponse (Some (lit "Here it is: " ++ JSON_stringify stockAnswerData)))
    (Some [mkCandidate
             (Some (mkGroundingMetadata
                      (Some [mkChunk (Some (mkWeb (Some (lit "NSE filing"))
                                              (Some (lit "https://example.org/filing"))));
                             mkChunk None;
                             mkChunk (Some (mkWeb None None))])))]).

Definition stockService (request : Request ResponseSchema) (served : nat) (time : Z)
    : Completion GroundedResponse * nat * Z :=
  (Returned stockAnswer, S served, (time + 250)%Z).

(** Answers about two stocks: the first has no [stockB], the second has
    an object [stockA] with [sources] of its own and an array [stockB].
    The service gives the first answer to the first request and the second
    answer to the later ones. *)
Definition comparisonWithoutB : Json :=
  JObject [(lit "stockA", JObject [(lit "stockName", JString (lit "TCS"))]);
           (lit "comparisonSummary", JString (lit "n/a"))].

Definition comparisonComplete : Json :=
  JObject [(lit "stockA", JObject [(lit "sources", JString (lit "made up"));
                                   (lit "stockName", JString (lit "TCS"))]);
           (lit "stockB", JArray [JNumber (lit "1")]);
           (lit "comparisonSummary", JString (lit "Both index-linked."))].

Definition comparisonService (request : Request ResponseSchema) (served : nat) (time : Z)
    : Completion GroundedResponse * nat * Z :=
  (Returned
     (mkGroundedResponse
        (mkResponse
           (Some (JSON_stringify
                    (if (served =? 0)%nat then comparisonWithoutB else comparisonComplete))))
        None),
   S served, (time + 250)%Z).

(** A page at time 1000, for the use cases with a schema. *)
Definition schemaWorld : World (Page nat ResponseSchema) :=
  mkWorld [] (mkPage 1000 ∅ 0%nat []).

(** The name of the variable of the key, with the equals sign. *)
Definition KEY_MARKER : jsstring := lit "VITE_GEMINI_API_KEY=".

(** The characters of [s] up to the first line terminator. *)
Fixpoint lineOf (s : jsstring) : jsstring :=
  match s with
  | c :: s' => if is_line_terminator c then [] else c :: lineOf s'
  | [] => []
  end.

(** What [run] prints when it has no key. *)
Definition noKeyEntry : ScriptEntry :=
  ScriptError [PString (lit "Error listing models:");
               PCaught (mkCaught (newError (lit "No VITE_GEMINI_API_KEY found in .env"))
                          None)].

(** A file [.env] whose first line is a comment that holds the name of the
    variable, and a machine with it whose service has one model. *)
Definition envWithComment : jsstring :=
  lines [lit "# old: VITE_GEMINI_API_KEY= abc123 ";
         lit "VITE_GEMINI_API_KEY=the-real-key-0123456789"].

Definition oneModel (key : jsstring) : Listing :=
  ListYields [mkModelInfo (Some (lit "models/gemini-2.0-flash")) None
                (Some [lit "generateContent"; lit "countTokens"])] None.

Definition emptyScriptWorld : ScriptWorld := mkScriptWorld [] [].

(** A file [.env] whose variable has only white space after the equals
    sign. *)
Definition envWithBlankKey : jsstring :=
  lines [lit "VITE_GEMINI_API_KEY=   "; lit "OTHER=1"].







(** [s] begins with the label [STATUS:], white space or none, and one of
    the three words, each written in any case; [word] is that word in
    capitals. *)
Definition status_at (s word : jsstring) : Prop :=
  exists label ws written rest,
    s = label ++ ws ++ written ++ rest
    /\ toUpperCase label = lit "STATUS:"
    /\ all_space ws
    /\ toUpperCase written = word
    /\ word ∈ STATUS_VALUES.

(** The same, computed: the word in capitals that [t] begins with in any
    case, and the status that [s] begins with. *)
Definition word_at (t : jsstring) : option jsstring :=
  if startsWith (toUpperCase t) (lit "OPEN") then Some (lit "OPEN")
  else if startsWith (toUpperCase t) (lit "CLOSED") then Some (lit "CLOSED")
  else if startsWith (toUpperCase t) (lit "UNKNOWN") then Some (lit "UNKNOWN")
  else None.

Definition status_word (s : jsstring) : option jsstring :=
  if startsWith (toUpperCase s) (lit "STATUS:")
  then word_at (trimStart (skipn 7 s))
  else None.

(** * Properties *)

(** ** The embedding on small inputs *)

Example generateWithFallback_skips_lite_models :
  generateWithFallback (counted liteModelsLimited) (mkWorld [] (0, []))
  = (Returned (lit "gemini-2.0-flash"),
     mkWorld
       [ConsoleLog (lit "Trying model: gemini-flash-lite-latest");
        ConsoleWarn (lit "Model gemini-flash-lite-latest failed: rate limited");
        ConsoleLog (lit "Trying model: gemini-2.5-flash-lite-preview-09-2025");
        ConsoleWarn (lit "Model gemini-2.5-flash-lite-preview-09-2025 failed: rate limited");
        ConsoleLog (lit "Trying model: gemini-2.0-flash-lite-preview-02-05");
        ConsoleWarn (lit "Model gemini-2.0-flash-lite-preview-02-05 failed: rate limited");
        ConsoleLog (lit "Trying model: gemini-2.0-flash")]
       (4, firstn 4 MODELS)).
Proof. vm_compute. reflexivity. Qed.

Example cleanJson_takes_the_object :
  cleanJson (lit "Here you go: " ++ textX1 ++ lit " Anything else?") = textX1.
Proof. vm_compute. reflexivity. Qed.

Example cleanJson_takes_the_first_bracket :
  cleanJson (lit "Note [1]: " ++ textX1) = lit "[1]".
Proof. vm_compute. reflexivity. Qed.

Example cleanJson_strips_a_bare_fence :
  cleanJson (lit "```" ++ [LF] ++ lit "closed today" ++ [LF] ++ lit "```")
  = lit "closed today".
Proof. vm_compute. reflexivity. Qed.

Example cleanJson_keeps_another_tag :
  cleanJson (lit "```text" ++ [LF] ++ lit "closed today" ++ [LF] ++ lit "```")
  = lit "text" ++ [LF] ++ lit "closed today".
Proof. vm_compute. reflexivity. Qed.

Example statusOfText_holiday :
  statusOfText holidayAnswer = marketStatus (lit "CLOSED") (lit "Diwali holiday").
Proof. vm_compute. reflexivity. Qed.

Example statusOfText_without_labels :
  statusOfText (lit "The market is open.")
  = marketStatus (lit "UNKNOWN") (lit "Requires verification").
Proof. vm_compute. reflexivity. Qed.

Example parseInt_examples :
  parseInt (lit "  -0x1Fzz") = Some (-31)%Z /\ parseInt (lit "+12.5") = Some 12%Z
  /\ parseInt (lit "abc") = None /\ parseInt (Z_toString 1730000000000) = Some 1730000000000%Z.
Proof. repeat split; vm_compute; reflexivity. Qed.

Example JSON_parse_examples :
  JSON_parse textX1 = Some payloadX1
  /\ JSON_parse (lit " [1, 2.5e+3, true, null, {}] ")
     = Some (JArray [JNumber (lit "1"); JNumber (lit "2.5e+3"); JBool true; JNull;
                     JObject []])
  /\ JSON_parse (lit "[01]") = None
  /\ JSON_parse (lit "not json") = None.
Proof. repeat split; vm_compute; reflexivity. Qed.

(** ** The fallback loop *)

Section FallbackFacts.

Context {E A : Type}.
Implicit Types (generateFn : jsstring -> E -> Completion A * E).
Implicit Types (w : World E) (models pre post errors : list jsstring).

Lemma failAll_length generateFn models e errs e' :
  failAll generateFn models e = Some (errs, e') -> length errs = length models.
Proof.
  revert e errs e'. induction models as [|m models IH]; intros e errs e' H; simpl in H.
  - by inversion H.
  - destruct (generateFn m e) as [[v|err] e1]; [discriminate|].
    destruct (failAll generateFn models e1) as [[errs1 e2]|] eqn:Hrest; [|discriminate].
    inversion H; subst. simpl. f_equal. eauto.
Qed.

(** A run of failing candidates: the loop goes on with the candidates
    after them, one line more in [errors] for each. *)
Lemma tryModels_failures generateFn pre post errors w errs e' :
  failAll generateFn pre (ext w) = Some (errs, e') ->
  tryModels generateFn (pre ++ post) errors w =
  tryModels generateFn post (errors ++ zip_with failureLine pre errs)
    (mkWorld (console w ++ failureEntries pre errs) e').
Proof.
  revert errors w errs e'.
  induction pre as [|m pre IH]; intros errors w errs e' H; simpl in H.
  - inversion H; subst. destruct w. simpl. unfold failureEntries. simpl.
    by rewrite !app_nil_r.
  - destruct (generateFn m (ext w)) as [[v|err] e1] eqn:Hm; [discriminate|].
    destruct (failAll generateFn pre e1) as [[errs1 e2]|] eqn:Hrest; [|discriminate].
    inversion H; subst. simpl. rewrite Hm.
    rewrite (IH _ _ errs1 e'); [|exact Hrest].
    simpl. unfold failureEntries. simpl.
    by rewrite <- !app_assoc.
Qed.

Lemma failAll_counted generateFn models e calls errs e' :
  failAll generateFn models e = Some (errs, e') ->
  failAll (counted generateFn) models (e, calls) = Some (errs, (e', calls ++ models)).
Proof.
  revert e calls errs e'.
  induction models as [|m models IH]; intros e calls errs e' H; simpl in H.
  - inversion H; subst. simpl. by rewrite app_nil_r.
  - destruct (generateFn m e) as [[v|err] e1] eqn:Hm; [discriminate|].
    destruct (failAll generateFn models e1) as [[errs1 e2]|] eqn:Hrest; [|discriminate].
    inversion H; subst. simpl. unfold counted at 1. simpl. rewrite Hm.
    rewrite (IH _ (calls ++ [m]) _ _ Hrest). by rewrite <- app_assoc.
Qed.

End FallbackFacts.

Section FallbackClaims.

Context {E A : Type}.
Implicit Types (generateFn : jsstring -> E -> Completion A * E).
Implicit Types (models pre post errors : list jsstring).

(** C1. For a candidate list [pre ++ m :: post]: when the candidates of
    [pre] all fail and [m], tried after them, succeeds with [v], the loop
    of [generateWithFallback] returns [v]; the request-building function
    was invoked on the candidates of [pre] and on [m], in this order, and
    on no candidate of [post]; and the console shows one attempt for each
    of them.  So does [generateWithFallback] when the list is the one of
    the source. *)
Theorem generateWithFallback_first_success
    generateFn models pre m post (w : World (E * list jsstring)) errs e1 v e2 :
  models = pre ++ m :: post ->
  failAll generateFn pre (fst (ext w)) = Some (errs, e1) ->
  generateFn m e1 = (Returned v, e2) ->
  tryModels (counted generateFn) models [] w =
    (Returned v,
     mkWorld (console w ++ failureEntries pre errs
              ++ [ConsoleLog (lit "Trying model: " ++ m)])
             (e2, snd (ext w) ++ pre ++ [m]))
  /\ (models = MODELS ->
      generateWithFallback (counted generateFn) w =
        (Returned v,
         mkWorld (console w ++ failureEntries pre errs
                  ++ [ConsoleLog (lit "Trying model: " ++ m)])
                 (e2, snd (ext w) ++ pre ++ [m]))).
Proof.
  intros Hmodels Hpre Hm.
  assert (Hrun : tryModels (counted generateFn) models [] w =
                 (Returned v,
                  mkWorld (console w ++ failureEntries pre errs
                           ++ [ConsoleLog (lit "Trying model: " ++ m)])
                          (e2, snd (ext w) ++ pre ++ [m]))).
  { subst models. destruct w as [out [e calls]]; simpl in *.
    rewrite (tryModels_failures _ pre (m :: post) [] _ errs (e1, calls ++ pre)).
    - simpl. unfold counted at 1. simpl. rewrite Hm.
      unfold set_ext, console_write. simpl. by rewrite <- !app_assoc.
    - simpl. by apply failAll_counted. }
  split; [exact Hrun|]. intros HM. unfold generateWithFallback.
  by rewrite <- HM.
Qed.

(** C2. When the request fails for every candidate, the loop of
    [generateWithFallback] throws one error; its message is the
    exhaustion text, a line feed, and the failure lines joined by line
    feeds: one line per candidate, in the order of the candidates, each
    made of the candidate and of the message of its error.  For two
    candidates [a] and [b] the message is the exhaustion text followed by
    [Model a failed: <message of a>], a line feed, and
    [Model b failed: <message of b>].  So does [generateWithFallback] when
    the list is the one of the source. *)
Theorem generateWithFallback_all_fail generateFn models (w : World E) errs e' :
  failAll generateFn models (ext w) = Some (errs, e') ->
  tryModels generateFn models [] w =
    (Thrown (newError (lit "All models failed. Details:" ++ [LF]
                       ++ join [LF] (zip_with failureLine models errs))),
     mkWorld (console w ++ failureEntries models errs) e')
  /\ length (zip_with failureLine models errs) = length models
  /\ (forall a b ea eb, models = [a; b] -> errs = [ea; eb] ->
      join [LF] (zip_with failureLine models errs) =
      (lit "Model " ++ a ++ lit " failed: " ++ message ea) ++ [LF]
      ++ (lit "Model " ++ b ++ lit " failed: " ++ message eb))
  /\ (models = MODELS ->
      generateWithFallback generateFn w =
        (Thrown (newError (lit "All models failed. Details:" ++ [LF]
                           ++ join [LF] (zip_with failureLine MODELS errs))),
         mkWorld (console w ++ failureEntries MODELS errs) e')).
Proof.
  intros H.
  assert (Hrun : tryModels generateFn models [] w =
                 (Thrown (exhaustedError (zip_with failureLine models errs)),
                  mkWorld (console w ++ failureEntries models errs) e')).
  { rewrite <- (app_nil_r models) at 1.
    by rewrite (tryModels_failures _ models [] [] w errs e' H). }
  split; [exact Hrun|]. split; [|split].
  - rewrite length_zip_with. apply failAll_length in H. lia.
  - intros a b ea eb -> ->. reflexivity.
  - intros HM. unfold generateWithFallback. rewrite <- HM. exact Hrun.
Qed.

(** C7, as the code has it. For every candidate [m] whose request fails,
    after candidates [pre] that failed too, the loop records the line
    [Model <m> failed: <error message>], pushed on [errors] and warned on
    the console, and goes on with the candidates after [m]. *)
Theorem tryModels_records_failure
    generateFn pre m post errors (w : World E) errs e1 err e2 :
  failAll generateFn pre (ext w) = Some (errs, e1) ->
  generateFn m e1 = (Thrown err, e2) ->
  tryModels generateFn (pre ++ m :: post) errors w =
  tryModels generateFn post
    (errors ++ zip_with failureLine pre errs
     ++ [lit "Model " ++ m ++ lit " failed: " ++ message err])
    (mkWorld (console w ++ failureEntries pre errs
              ++ [ConsoleLog (lit "Trying model: " ++ m);
                  ConsoleWarn (lit "Model " ++ m ++ lit " failed: " ++ message err)])
             e2).
Proof.
  intros Hpre Hm.
  rewrite (tryModels_failures _ pre (m :: post) errors w errs e1 Hpre).
  simpl. rewrite Hm. unfold set_ext, console_write, failureLine. simpl.
  by rewrite <- !app_assoc.
Qed.

End FallbackClaims.

(** The scenario of the candidates [A], [B], [C]: the result is the
    payload of [C], and the aggregate error is never built. *)
Lemma generateWithFallback_first_success_witness :
  failAll scenarioABC [lit "A"; lit "B"] 0
    = Some ([newError (lit "rate limited"); newError (lit "invalid arg")], 2)
  /\ scenarioABC (lit "C") 2 = (Returned payloadX1, 3)
  /\ tryModels (counted scenarioABC) [lit "A"; lit "B"; lit "C"] []
       (mkWorld [] (0, []))
     = (Returned payloadX1,
        mkWorld [ConsoleLog (lit "Trying model: A");
                 ConsoleWarn (lit "Model A failed: rate limited");
                 ConsoleLog (lit "Trying model: B");
                 ConsoleWarn (lit "Model B failed: invalid arg");
                 ConsoleLog (lit "Trying model: C")]
                (3, [lit "A"; lit "B"; lit "C"])).
Proof.
  split; [reflexivity|]. split; [reflexivity|].
  apply (proj1 (generateWithFallback_first_success scenarioABC
                  [lit "A"; lit "B"; lit "C"] [lit "A"; lit "B"] (lit "C") []
                  (mkWorld [] (0, []))
                  [newError (lit "rate limited"); newError (lit "invalid arg")] 2
                  payloadX1 3 eq_refl eq_refl eq_refl)).
Defined.

Lemma generateWithFallback_all_fail_witness :
  failAll scenarioABC [lit "A"; lit "B"] 0
    = Some ([newError (lit "rate limited"); newError (lit "invalid arg")], 2)
  /\ fst (tryModels scenarioABC [lit "A"; lit "B"] [] (mkWorld [] 0))
     = Thrown (newError (lit "All models failed. Details:" ++ [LF]
                         ++ lit "Model A failed: rate limited" ++ [LF]
                         ++ lit "Model B failed: invalid arg")).
Proof.
  split; [reflexivity|].
  destruct (generateWithFallback_all_fail scenarioABC [lit "A"; lit "B"]
              (mkWorld [] 0)
              [newError (lit "rate limited"); newError (lit "invalid arg")] 2
              eq_refl) as [Hrun _].
  rewrite Hrun. reflexivity.
Defined.

Lemma tryModels_records_failure_witness :
  failAll scenarioABC [lit "A"] 0 = Some ([newError (lit "rate limited")], 1)
  /\ scenarioABC (lit "B") 1 = (Thrown (newError (lit "invalid arg")), 2)
  /\ tryModels scenarioABC [lit "A"; lit "B"; lit "C"] [] (mkWorld [] 0)
     = tryModels scenarioABC [lit "C"]
         [lit "Model A failed: rate limited"; lit "Model B failed: invalid arg"]
         (mkWorld [ConsoleLog (lit "Trying model: A");
                   ConsoleWarn (lit "Model A failed: rate limited");
                   ConsoleLog (lit "Trying model: B");
                   ConsoleWarn (lit "Model B failed: invalid arg")] 2).
Proof.
  split; [reflexivity|]. split; [reflexivity|].
  apply (tryModels_records_failure scenarioABC [lit "A"] (lit "B") [lit "C"] []
           (mkWorld [] 0) [newError (lit "rate limited")] 1
           (newError (lit "invalid arg")) 2); reflexivity.
Defined.

(** C7, as the specification words it, fails: the line recorded for the
    candidate [A] failing with [rate limited] is not [A: rate limited]. *)
Lemma failure_line_format_counterexample :
  tryModels alwaysRateLimited [lit "A"] [] (mkWorld [] 0)
  = (Thrown (exhaustedError [lit "Model A failed: rate limited"]),
     mkWorld [ConsoleLog (lit "Trying model: A");
              ConsoleWarn (lit "Model A failed: rate limited")] 1)
  /\ lit "Model A failed: rate limited" <> lit "A" ++ lit ": " ++ lit "rate limited".
Proof.
  split; [reflexivity|]. discriminate.
Qed.

(** ** Response shape selection *)

Lemma startsWith_spec (s prefix : jsstring) :
  startsWith s prefix = true <-> exists rest, s = prefix ++ rest.
Proof.
  revert s. induction prefix as [|p prefix IH]; intros s; simpl.
  - split; [intros _; by exists s | intros _; by destruct s].
  - destruct s as [|c s].
    + split; [done | intros [rest H]; discriminate].
    + simpl. rewrite andb_true_iff, N.eqb_eq, IH. split.
      * intros [-> [rest ->]]. by exists rest.
      * intros [rest H]. inversion H; subst. split; [done | by exists rest].
Qed.

Lemma includes_spec (s search : jsstring) :
  includes s search = true <-> occurs_in search s.
Proof.
  unfold occurs_in. induction s as [|c s IH].
  - cbn [includes]. rewrite orb_false_r, startsWith_spec. split.
    + intros [rest H]. by exists [], rest.
    + intros [before [rest H]]. destruct before; [by exists rest|discriminate].
  - cbn [includes]. rewrite orb_true_iff, startsWith_spec, IH. split.
    + intros [[rest H] | [before [rest H]]].
      * by exists [], rest.
      * exists (c :: before), rest. by rewrite H.
    + intros [[|b before] [rest H]].
      * left. by exists rest.
      * right. inversion H; subst. by exists before, rest.
Qed.

(** C6. For every model identifier in which [lite] occurs, [getSmartConfig]
    gives the system instruction followed by the directive to output raw
    JSON without markdown, and neither [responseMimeType] nor
    [responseSchema]; for every other identifier it gives the system
    instruction as it is, with the schema and the mime type
    [application/json]. *)
Theorem getSmartConfig_by_lite_marker
    {Schema : Type} (model : jsstring) (schema : Schema) (instruction : jsstring) :
  (occurs_in (lit "lite") model ->
   getSmartConfig model schema instruction =
   mkConfig
     (instruction ++ [LF; LF]
      ++ lit "CRITICAL: Output strictly valid JSON only. Do not wrap in markdown. Do not include any text before or after.")
     (Some [GoogleSearch]) None None)
  /\
  (~ occurs_in (lit "lite") model ->
   getSmartConfig model schema instruction =
   mkConfig instruction (Some [GoogleSearch])
     (Some (lit "application/json")) (Some schema)).
Proof.
  unfold getSmartConfig. rewrite <- includes_spec.
  destruct (includes model (lit "lite")); simpl; split; intros H; done.
Qed.

Lemma getSmartConfig_by_lite_marker_witness :
  (occurs_in (lit "lite") (lit "gemini-flash-lite-latest")
   /\ getSmartConfig (lit "gemini-flash-lite-latest") tt (lit "Be brief.") =
      mkConfig
        (lit "Be brief." ++ [LF; LF]
         ++ lit "CRITICAL: Output strictly valid JSON only. Do not wrap in markdown. Do not include any text before or after.")
        (Some [GoogleSearch]) None None)
  /\
  (~ occurs_in (lit "lite") (lit "gemini-2.0-flash")
   /\ getSmartConfig (lit "gemini-2.0-flash") tt (lit "Be brief.") =
      mkConfig (lit "Be brief.") (Some [GoogleSearch])
        (Some (lit "application/json")) (Some tt)).
Proof.
  assert (Hyes : occurs_in (lit "lite") (lit "gemini-flash-lite-latest")).
  { apply includes_spec. reflexivity. }
  assert (Hno : ~ occurs_in (lit "lite") (lit "gemini-2.0-flash")).
  { rewrite <- includes_spec. discriminate. }
  split; (split; [assumption|]).
  - apply (getSmartConfig_by_lite_marker (lit "gemini-flash-lite-latest") tt
             (lit "Be brief.")). exact Hyes.
  - apply (getSmartConfig_by_lite_marker (lit "gemini-2.0-flash") tt
             (lit "Be brief.")). exact Hno.
Defined.

(** ** What the loop can throw *)

Lemma tryModels_thrown {E A : Type} (generateFn : jsstring -> E -> Completion A * E)
    (models errors : list jsstring) (w w' : World E) (e : JsError) :
  tryModels generateFn models errors w = (Thrown e, w') ->
  exists lines, e = exhaustedError lines.
Proof.
  revert errors w. induction models as [|m models IH]; intros errors w H; simpl in H.
  - inversion H. by exists errors.
  - destruct (generateFn m _) as [[v|err] e1]; [discriminate|]. eauto.
Qed.

(** ** Parse failures in a use case *)


Section ParseFailure.

Context {Net Schema : Type}.
Variable service : Request Schema -> Net -> Z -> Completion Response * Net * Z.
Variable groundedService :
  Request ResponseSchema -> Net -> Z -> Completion GroundedResponse * Net * Z.
Variable syntaxErrorMessage : jsstring -> jsstring.
Variable typeErrorMessage : jsstring.
Variable referenceErrorMessage : jsstring -> jsstring.
Variable propertyErrorMessage : jsstring -> JsValue -> jsstring.

Local Abbreviation generate := (generateGroundedContent groundedService).



End ParseFailure.



(** ** The matcher on the shapes of pattern the source uses *)

Lemma rmatch_lit (l s : jsstring) (pos : nat) (caps : Captures) (k : Continuation) :
  rmatch false (RLit l) pos s caps k =
  if startsWith s l then k (pos + length l) (skipn (length l) s) caps else None.
Proof.
  revert s pos. induction l as [|c l IH]; intros s pos.
  - cbn. destruct s; cbn; by rewrite Nat.add_0_r.
  - destruct l as [|c' l].
    + destruct s as [|d s]; cbn; [done|].
      destruct (d =? c)%N; cbn; [|done].
      destruct s; by rewrite Nat.add_1_r.
    + change (RLit (c :: c' :: l)) with (RSeq (RSet (CcChar c)) (RLit (c' :: l))).
      cbn [rmatch]. destruct s as [|d s]; [done|].
      cbn [in_class startsWith]. destruct (d =? c)%N; cbn [andb]; [|reflexivity].
      rewrite IH. cbn [length drop]. by rewrite (Nat.add_succ_r pos).
Qed.

Lemma star_loop_class (ic : bool) (cc : CharClass) (fuel pos : nat) (s : jsstring)
    (caps : Captures) (k : Continuation) :
  length s < fuel ->
  star_loop (rmatch ic (RSet cc)) fuel pos s caps k = greedy ic cc pos s caps k.
Proof.
  revert pos s. induction fuel as [|fuel IH]; intros pos s Hlen; [lia|].
  destruct s as [|c s]; cbn [star_loop rmatch greedy]; [reflexivity|].
  destruct (in_class ic cc c); [|reflexivity].
  assert (Hpos : (S pos =? pos)%nat = false) by (apply Nat.eqb_neq; lia).
  rewrite Hpos, IH; [done | simpl in Hlen; lia].
Qed.

Lemma rmatch_star_class (ic : bool) (cc : CharClass) (pos : nat) (s : jsstring)
    (caps : Captures) (k : Continuation) :
  rmatch ic (RStar (RSet cc)) pos s caps k = greedy ic cc pos s caps k.
Proof. cbn [rmatch]. apply star_loop_class. lia. Qed.

(** ** The scan of [cleanJson] for an object or an array *)

Lemma in_anyClass (c : N) : in_class false anyClass c = true.
Proof. cbn. apply orb_negb_r. Qed.

Lemma greedy_any_no_closing (closing : N) (k : Continuation) (s : jsstring)
    (pos : nat) (caps : Captures) :
  closing ∉ s ->
  greedy false anyClass pos s caps
    (fun p t cs => rmatch false (RSet (CcChar closing)) p t cs k) = None.
Proof.
  revert pos. induction s as [|d s IH]; intros pos Hnot; [reflexivity|].
  cbn [greedy]. rewrite in_anyClass, IH by set_solver.
  cbn. destruct (N.eqb_spec d closing) as [->|Hne]; [set_solver | done].
Qed.

Lemma greedy_any_last_closing (closing : N) (k : Continuation) (body rest : jsstring)
    (pos : nat) (caps : Captures) (e : MatchEnd) :
  closing ∉ rest ->
  k (S (pos + length body)) rest caps = Some e ->
  greedy false anyClass pos (body ++ closing :: rest) caps
    (fun p t cs => rmatch false (RSet (CcChar closing)) p t cs k) = Some e.
Proof.
  intros Hnot. revert pos. induction body as [|d body IH]; intros pos Hk.
  - cbn [app greedy]. rewrite in_anyClass, greedy_any_no_closing by done.
    cbn. rewrite N.eqb_refl. by rewrite Nat.add_0_r in Hk.
  - cbn [app greedy]. rewrite in_anyClass.
    rewrite (IH (S pos)); [done|].
    cbn [length] in Hk. by rewrite Nat.add_succ_r in Hk.
Qed.

Lemma rmatch_delimited_other (opening closing d : N) (s : jsstring) (pos : nat)
    (caps : Captures) (k : Continuation) :
  d <> opening ->
  rmatch false (delimited opening closing) pos (d :: s) caps k = None.
Proof.
  intros Hne. cbn. by destruct (N.eqb_spec d opening).
Qed.

Lemma rmatch_delimited (opening closing : N) (body rest : jsstring) (pos : nat)
    (caps : Captures) (k : Continuation) (e : MatchEnd) :
  closing ∉ rest ->
  k (S (S (pos + length body))) rest caps = Some e ->
  rmatch false (delimited opening closing) pos (opening :: body ++ closing :: rest)
    caps k = Some e.
Proof.
  intros Hnot Hk. unfold delimited, anyChar. cbn [rmatch in_class].
  rewrite N.eqb_refl.
  fold (rmatch false (RStar (RSet anyClass))). 
  change (star_loop _ _ _ _ _ _) with
    (rmatch false (RStar (RSet anyClass)) (S pos) (body ++ closing :: rest) caps
       (fun p t cs => rmatch false (RSet (CcChar closing)) p t cs k)).
  rewrite rmatch_star_class.
  by apply greedy_any_last_closing.
Qed.

Lemma JSON_LIKE_alternatives :
  JSON_LIKE = RGroup 1 (RAlt (delimited (ch "{") (ch "}")) (delimited (ch "[") (ch "]"))).
Proof. reflexivity. Qed.

(** The scan goes over the characters that open neither an object nor an
    array. *)
Lemma exec_from_JSON_LIKE_skip (before s : jsstring) (pos : nat) :
  ch "{" ∉ before -> ch "[" ∉ before ->
  exec_from false JSON_LIKE pos (before ++ s) =
  exec_from false JSON_LIKE (pos + length before) s.
Proof.
  revert pos. induction before as [|d before IH]; intros pos Hbrace Hbracket.
  - cbn [app length]. by rewrite Nat.add_0_r.
  - cbn [app exec_from]. rewrite JSON_LIKE_alternatives. cbn [rmatch].
    rewrite !rmatch_delimited_other by set_solver.
    rewrite <- JSON_LIKE_alternatives, IH by set_solver.
    cbn [length]. by rewrite Nat.add_succ_r.
Qed.

(** At an opening character whose closing character is the last of its
    kind, the match is the text between them, both included. *)
Lemma exec_from_JSON_LIKE_here (opening closing : N) (body rest : jsstring) (pos : nat) :
  opening = ch "{" /\ closing = ch "}" \/ opening = ch "[" /\ closing = ch "]" ->
  closing ∉ rest ->
  exists caps,
    exec_from false JSON_LIKE pos (opening :: body ++ closing :: rest) =
    Some (mkMatch pos (opening :: body ++ [closing]) caps rest).
Proof.
  intros Hkind Hnot.
  assert (Hcut : firstn (S (S (pos + length body)) - pos)
                   (opening :: body ++ closing :: rest) = opening :: body ++ [closing]).
  { replace (S (S (pos + length body)) - pos) with (S (length body + 1)) by lia.
    cbn [firstn]. f_equal.
    change (closing :: rest) with ([closing] ++ rest). rewrite app_assoc.
    replace (length body + 1) with (length (body ++ [closing]))
      by (rewrite length_app; reflexivity).
    apply take_app_length. }
  cbn [exec_from]. rewrite JSON_LIKE_alternatives. cbn [rmatch].
  destruct Hkind as [[-> ->] | [-> ->]]; eexists.
  - erewrite rmatch_delimited; [|done|reflexivity].
    cbn [found]. by rewrite Hcut.
  - rewrite rmatch_delimited_other
      by (intros Heq; vm_compute in Heq; discriminate Heq).
    erewrite rmatch_delimited; [|done|reflexivity].
    cbn [found]. by rewrite Hcut.
Qed.

(** C4, as the code has it. For every text made of prose, then an object
    from its opening brace to its closing brace (or an array from its
    opening bracket to its closing bracket), then prose: when the prose
    before has no opening brace and no opening bracket, and the prose after
    has no closing character of the kind of the embedded text, [cleanJson]
    returns the embedded text as it is, which parses to the same
    structure. *)
Theorem cleanJson_embedded_json
    (before body after : jsstring) (opening closing : N) :
  opening = ch "{" /\ closing = ch "}" \/ opening = ch "[" /\ closing = ch "]" ->
  ch "{" ∉ before -> ch "[" ∉ before -> closing ∉ after ->
  cleanJson (before ++ (opening :: body ++ [closing]) ++ after)
    = opening :: body ++ [closing]
  /\ JSON_parse (cleanJson (before ++ (opening :: body ++ [closing]) ++ after))
     = JSON_parse (opening :: body ++ [closing]).
Proof.
  intros Hkind Hbrace Hbracket Hafter.
  assert (Hclean : cleanJson (before ++ (opening :: body ++ [closing]) ++ after)
                   = opening :: body ++ [closing]).
  { unfold cleanJson, String_match.
    rewrite exec_from_JSON_LIKE_skip by done.
    replace ((opening :: body ++ [closing]) ++ after)
      with (opening :: body ++ closing :: after)
      by (cbn [app]; by rewrite <- app_assoc).
    destruct (exec_from_JSON_LIKE_here opening closing body after
                (0 + length before) Hkind Hafter) as [caps ->].
    reflexivity. }
  split; [exact Hclean | by rewrite Hclean].
Qed.

Lemma cleanJson_embedded_json_witness :
((ch "{" ∉ lit "Here you go: ") /\ (ch "[" ∉ lit "Here you go: ")
   /\ (ch "}" ∉ lit " Bye."))
  /\ cleanJson (lit "Here you go: " ++ textX1 ++ lit " Bye.") = textX1
  /\ JSON_parse (cleanJson (lit "Here you go: " ++ textX1 ++ lit " Bye."))
     = Some payloadX1.
Proof.
  assert (H1 : ch "{" ∉ lit "Here you go: ")
    by (apply (bool_decide_unpack _); vm_compute; reflexivity).
  assert (H2 : ch "[" ∉ lit "Here you go: ")
    by (apply (bool_decide_unpack _); vm_compute; reflexivity).
  assert (H3 : ch "}" ∉ lit " Bye.")
    by (apply (bool_decide_unpack _); vm_compute; reflexivity).
  split; [done|].
  destruct (cleanJson_embedded_json (lit "Here you go: ")
              (34%N :: lit "x" ++ 34%N :: lit ":1") (lit " Bye.")
              (ch "{") (ch "}") (or_introl (conj eq_refl eq_refl)) H1 H2 H3)
    as [Hclean Hparse].
  split; [exact Hclean|].
  refine (eq_trans Hparse _). vm_compute. reflexivity.
Defined.

(** C4, as the specification words it, fails: [proseWithBraces] has the
    object [textX1] inside prose, and a closing brace in the prose after it;
    the scan runs to that brace, and what [cleanJson] returns does not
    parse. *)
Lemma cleanJson_embedded_json_counterexample :
  proseWithBraces = lit "Result: " ++ textX1 ++ lit " (see note {a})"
  /\ JSON_parse textX1 = Some payloadX1
  /\ cleanJson proseWithBraces = textX1 ++ lit " (see note {a}"
  /\ JSON_parse (cleanJson proseWithBraces) = None.
Proof.
  repeat split; vm_compute; reflexivity.
Qed.

(** ** White space at the ends of a text *)

Lemma trimStart_all_space (ws s : jsstring) :
  all_space ws -> trimStart (ws ++ s) = trimStart s.
Proof.
  induction 1 as [|c ws Hc _ IH]; [reflexivity|].
  cbn [app trimStart]. by rewrite Hc.
Qed.

Lemma trimStart_head (c : N) (s : jsstring) :
  is_space c = false -> trimStart (c :: s) = c :: s.
Proof. intros H. cbn [trimStart]. by rewrite H. Qed.

(** A text is white space followed by what [trimStart] keeps of it. *)
Lemma trimStart_split (s : jsstring) :
  exists ws, all_space ws /\ s = ws ++ trimStart s.
Proof.
  induction s as [|c s [ws [Hws Hs]]].
  - exists []. split; [constructor | reflexivity].
  - cbn [trimStart]. destruct (is_space c) eqn:Hc.
    + exists (c :: ws). split; [by constructor | cbn [app]; by f_equal].
    + exists []. split; [constructor | reflexivity].
Qed.

Lemma all_space_app (a b : jsstring) :
  all_space a -> all_space b -> all_space (a ++ b).
Proof. unfold all_space. intros Ha Hb. by apply Forall_app. Qed.

Lemma all_space_rev (a : jsstring) : all_space a -> all_space (rev a).
Proof.
  unfold all_space. intros Ha. apply List.Forall_forall. intros c Hc.
  apply List.in_rev in Hc. by eapply List.Forall_forall in Ha.
Qed.

(** [trim] removes the white space around a text that neither begins nor
    ends with white space. *)
Lemma trim_around (lead core trail : jsstring) :
  all_space lead -> all_space trail -> edges_avoid is_space core ->
  trim (lead ++ core ++ trail) = core.
Proof.
  intros Hlead Htrail [Hfirst Hlast]. unfold trim, trimEnd.
  rewrite trimStart_all_space by done.
  destruct core as [|c core].
  - cbn [app]. rewrite <- (app_nil_r trail), trimStart_all_space by done.
    reflexivity.
  - cbn [app]. rewrite trimStart_head by (by apply Hfirst).
    change (c :: core ++ trail) with ((c :: core) ++ trail).
    rewrite rev_app_distr, trimStart_all_space by by apply all_space_rev.
    destruct (exists_last (l := c :: core)) as [front [l Hsplit]]; [done|].
    rewrite Hsplit, rev_app_distr. cbn [rev app].
    rewrite trimStart_head by (apply Hlast; rewrite Hsplit; apply last_snoc).
    change (l :: rev front) with (rev [l] ++ rev front).
    by rewrite <- rev_app_distr, rev_involutive.
Qed.

(** ** The three replacements of [cleanJson] *)

Lemma exec_from_bol_later (r : Regex) (pos : nat) (s : jsstring) :
  pos <> 0 -> exec_from false (RSeq RBol r) pos s = None.
Proof.
  revert pos. induction s as [|c s IH]; intros pos Hpos; cbn [exec_from rmatch].
  - destruct pos; [done | reflexivity].
  - destruct pos; [done|]. cbn [Nat.eqb]. apply IH. lia.
Qed.

Lemma greedy_space_found (pos : nat) (s : jsstring) (caps : Captures) :
  exists pos', greedy false CcSpace pos s caps found = Some (pos', trimStart s, caps).
Proof.
  revert pos. induction s as [|c s IH]; intros pos.
  - by exists pos.
  - cbn [greedy in_class trimStart]. destruct (is_space c).
    + destruct (IH (S pos)) as [pos' ->]. by exists pos'.
    + by exists pos.
Qed.

(** [s.replace(/^l\s*/, '')] for a literal [l]. *)
Lemma replace_fence_open (l s : jsstring) :
  replace_empty (RSeq RBol (RSeq (RLit l) (RStar space))) s =
  if startsWith s l then trimStart (skipn (length l) s) else s.
Proof.
  unfold replace_empty, String_match.
  assert (Hhead :
    rmatch false (RSeq RBol (RSeq (RLit l) (RStar space))) 0 s [] found =
    if startsWith s l
    then greedy false CcSpace (0 + length l) (skipn (length l) s) [] found
    else None).
  { cbn [rmatch Nat.eqb]. rewrite rmatch_lit.
    destruct (startsWith s l); [|reflexivity].
    unfold space. apply rmatch_star_class. }
  destruct s as [|c s].
  - cbn [exec_from]. change (fun pos' s' caps' => Some (pos', s', caps')) with found.
    rewrite Hhead. destruct (startsWith [] l); [|reflexivity].
    destruct (greedy_space_found (0 + length l) (skipn (length l) []) []) as [pos' ->].
    reflexivity.
  - cbn [exec_from]. change (fun pos' s' caps' => Some (pos', s', caps')) with found.
    rewrite Hhead. destruct (startsWith (c :: s) l).
    + destruct (greedy_space_found (0 + length l) (skipn (length l) (c :: s)) [])
        as [pos' ->]. reflexivity.
    + by rewrite exec_from_bol_later.
Qed.

(** The end of [FENCE_CLOSE]: three backticks and the end of the text. *)
Lemma rmatch_backticks_eol (pos : nat) (t : jsstring) (caps : Captures) :
  rmatch false (RSeq (RLit (lit "```")) REol) pos t caps found =
  if bool_decide (t = lit "```") then Some (pos + 3, [], caps) else None.
Proof.
  cbn [rmatch]. rewrite rmatch_lit.
  destruct (startsWith t (lit "```")) eqn:Hstart.
  - apply startsWith_spec in Hstart as [rest ->].
    change (length (lit "```")) with 3. rewrite drop_app_length'; [|reflexivity].
    destruct rest as [|c rest]; cbn [rmatch].
    + rewrite bool_decide_true; [reflexivity | by rewrite app_nil_r].
    + rewrite bool_decide_false; [reflexivity|].
      intros H. apply (f_equal length) in H. rewrite length_app in H.
      cbn in H. lia.
  - rewrite bool_decide_false; [reflexivity|].
    intros ->. by vm_compute in Hstart.
Qed.

Lemma greedy_space_backticks (pos : nat) (t : jsstring) (caps : Captures) :
  (trimStart t = lit "```" ->
   exists pos', greedy false CcSpace pos t caps
                  (fun p t' cs => rmatch false (RSeq (RLit (lit "```")) REol) p t' cs found)
                = Some (pos', [], caps))
  /\
  (trimStart t <> lit "```" ->
   greedy false CcSpace pos t caps
     (fun p t' cs => rmatch false (RSeq (RLit (lit "```")) REol) p t' cs found)
   = None).
Proof.
  revert pos. induction t as [|c t IH]; intros pos.
  - split; [by intros H|]. intros _. reflexivity.
  - cbn [greedy in_class trimStart]. destruct (is_space c) eqn:Hc.
    + destruct (IH (S pos)) as [IHfound IHnone]. split.
      * intros H. destruct (IHfound H) as [pos' ->]. by exists pos'.
      * intros H. rewrite (IHnone H), rmatch_backticks_eol.
        rewrite bool_decide_false; [reflexivity|].
        intros Heq. inversion Heq; subst. by vm_compute in Hc.
    + rewrite rmatch_backticks_eol. split.
      * intros H. rewrite bool_decide_true by done. by eexists.
      * intros H. by rewrite bool_decide_false.
Qed.

Lemma rmatch_fence_close (pos : nat) (t : jsstring) :
  (trimStart t = lit "```" ->
   exists pos', rmatch false FENCE_CLOSE pos t [] found = Some (pos', [], []))
  /\
  (trimStart t <> lit "```" -> rmatch false FENCE_CLOSE pos t [] found = None).
Proof.
  unfold FENCE_CLOSE, space.
  change (rmatch false (RSeq (RStar (RSet CcSpace)) ?r) pos t [] found)
    with (rmatch false (RStar (RSet CcSpace)) pos t []
            (fun p t' cs => rmatch false r p t' cs found)).
  rewrite rmatch_star_class. apply greedy_space_backticks.
Qed.

Lemma exec_from_unfold (ic : bool) (r : Regex) (pos : nat) (s : jsstring) :
  exec_from ic r pos s =
  match rmatch ic r pos s [] found with
  | Some (pos', s', caps') => Some (mkMatch pos (firstn (pos' - pos) s) caps' s')
  | None =>
      match s with
      | [] => None
      | _ :: s' => exec_from ic r (S pos) s'
      end
  end.
Proof. destruct s; reflexivity. Qed.

Lemma last_cons_Some (x y : N) (l : list N) :
  last l = Some y -> last (x :: l) = Some y.
Proof. intros H. by rewrite last_cons, H. Qed.

Lemma trimStart_keeps_after_nonspace (x y : jsstring) (l : N) :
  is_space l = false -> exists x', trimStart (x ++ l :: y) = x' ++ l :: y.
Proof.
  intros Hl. induction x as [|c x [x' IH]].
  - exists []. cbn [app]. by apply trimStart_head.
  - cbn [app trimStart]. destruct (is_space c).
    + by exists x'.
    + by exists (c :: x).
Qed.

(** [s.replace(/\s*```$/, '')] when [s] ends with white space [ws] and
    three backticks, after a [body] that does not end with white space. *)
Lemma replace_fence_close_found (body ws : jsstring) :
  all_space ws ->
  (forall c, last body = Some c -> is_space c = false) ->
  replace_empty FENCE_CLOSE (body ++ ws ++ lit "```") = body.
Proof.
  intros Hws Hlast. unfold replace_empty, String_match.
  assert (Hexec : forall pos, exists m,
            exec_from false FENCE_CLOSE pos (body ++ ws ++ lit "```")
            = Some (mkMatch (pos + length body) m [] [])).
  { induction body as [|c body IH]; intros pos.
    - cbn [app length]. 
      destruct (rmatch_fence_close pos (ws ++ lit "```")) as [Hfound _].
      destruct Hfound as [pos' Hpos'].
      { rewrite trimStart_all_space by done. reflexivity. }
      rewrite exec_from_unfold, Hpos', Nat.add_0_r. by eexists.
    - cbn [app]. rewrite exec_from_unfold.
      destruct (rmatch_fence_close pos (c :: body ++ ws ++ lit "```")) as [_ Hnone].
      rewrite Hnone.
      + destruct (IH (fun d H => Hlast d (last_cons_Some c d body H)) (S pos))
          as [m ->].
        exists m. cbn [length]. by rewrite Nat.add_succ_r.
      + destruct (exists_last (l := c :: body)) as [front [l Hsplit]]; [done|].
        change (c :: body ++ ws ++ lit "```") with ((c :: body) ++ ws ++ lit "```").
        rewrite Hsplit, <- app_assoc. cbn [app].
        destruct (trimStart_keeps_after_nonspace front (ws ++ lit "```") l)
          as [x' ->]; [apply Hlast; rewrite Hsplit; apply last_snoc|].
        intros H. apply (f_equal length) in H.
        rewrite !length_app in H. cbn [length] in H. rewrite length_app in H.
        cbn in H. lia. }
  destruct (Hexec 0) as [m ->]. cbn [index after].
  rewrite app_nil_r. apply take_app_length.
Qed.

(** [s.replace(/\s*```$/, '')] when [s] does not end with three
    backticks. *)
Lemma replace_fence_close_none (s : jsstring) :
  (forall s', s <> s' ++ lit "```") ->
  replace_empty FENCE_CLOSE s = s.
Proof.
  intros Hend. unfold replace_empty, String_match.
  assert (Hexec : forall pos, exec_from false FENCE_CLOSE pos s = None).
  { assert (Hhere : forall t pos, (forall s', t <> s' ++ lit "```") ->
                      rmatch false FENCE_CLOSE pos t [] found = None).
    { intros t pos Ht. apply rmatch_fence_close. intros Htrim.
      destruct (trimStart_split t) as [ws [_ Hsplit]].
      rewrite Htrim in Hsplit. by apply (Ht ws). }
    induction s as [|c s IH]; intros pos; rewrite exec_from_unfold;
      rewrite Hhere by done; [reflexivity|].
    apply IH. intros s' ->. by apply (Hend (c :: s')). }
  by rewrite Hexec.
Qed.

(** ** A text wrapped in a code fence *)

(** Both sides are the same concatenation, bracketed differently. *)
Ltac reassociate :=
  repeat (progress (cbn [app]; rewrite <- ?app_assoc)); reflexivity.

Lemma startsWith_app (l rest : jsstring) : startsWith (l ++ rest) l = true.
Proof. apply startsWith_spec. by exists rest. Qed.

(** A text that does not begin with [l] begins with nothing longer. *)
Lemma startsWith_longer_false (s l l' : jsstring) :
  startsWith s l = false -> startsWith s (l ++ l') = false.
Proof.
  intros H. destruct (startsWith s (l ++ l')) eqn:Hlonger; [|reflexivity].
  apply startsWith_spec in Hlonger as [rest ->].
  by rewrite <- app_assoc, startsWith_app in H.
Qed.

(** A text that does not begin with [l] does not either when it is
    continued by a character that [l] does not have. *)
Lemma startsWith_app_false (s tail l : jsstring) :
  startsWith s l = false ->
  (forall t, head tail = Some t -> t ∉ l) ->
  startsWith (s ++ tail) l = false.
Proof.
  revert s. induction l as [|p l IH]; intros s Hs Htail; [by destruct s|].
  destruct s as [|c s].
  - cbn [app]. destruct tail as [|t tail]; [reflexivity|].
    cbn [startsWith]. destruct (N.eqb_spec t p) as [->|]; [|reflexivity].
    exfalso. apply (Htail p eq_refl). set_solver.
  - cbn [app startsWith] in *. destruct (c =? p)%N; [|reflexivity].
    cbn [andb] in *. apply IH; [done|]. intros t Ht Hin.
    apply (Htail t Ht). set_solver.
Qed.

(** What begins with white space or a backtick does not begin with a
    letter of [json]. *)
Lemma head_fence_not_json (pad : jsstring) (t : N) :
  all_space pad -> head (pad ++ lit "```") = Some t -> t ∉ lit "json".
Proof.
  intros Hpad Ht Hin.
  assert (Ht' : is_space t = true \/ t = ch "`").
  { destruct Hpad as [|w pad Hw _]; cbn in Ht; inversion Ht; subst; auto. }
  apply list_elem_of_In in Hin. cbn in Hin.
  destruct Hin as [<- | [<- | [<- | [<- | []]]]], Ht' as [Ht' | Ht'];
    by vm_compute in Ht'.
Qed.

(** After a bare fence, white space or anything but [json]: the text does
    not begin with the fence tagged [json]. *)
Lemma startsWith_bare_fence (pad rest : jsstring) :
  all_space pad ->
  (pad = [] -> startsWith rest (lit "json") = false) ->
  startsWith (lit "```" ++ pad ++ rest) (lit "```json") = false.
Proof.
  intros Hpad Hjson. destruct Hpad as [|w pad Hw _].
  - cbn [app]. change (startsWith (lit "```" ++ rest) (lit "```json"))
      with (startsWith rest (lit "json")). by apply Hjson.
  - change (startsWith (lit "```" ++ (w :: pad) ++ rest) (lit "```json"))
      with ((w =? 106)%N && startsWith (pad ++ rest) (lit "son")).
    destruct (N.eqb_spec w 106) as [->|]; [by vm_compute in Hw | reflexivity].
Qed.

(** The two replacements of an opening fence leave what follows the fence
    and its white space: [f :: rest], which does not begin with white
    space. *)
Lemma replace_opening_fences (opening pad : jsstring) (f : N) (rest : jsstring) :
  opening = [] /\ pad = [] \/ opening = lit "```" \/ opening = lit "```json" ->
  all_space pad ->
  is_space f = false ->
  (opening <> lit "```" -> startsWith (f :: rest) (lit "```") = false) ->
  (opening = lit "```" -> pad = [] -> startsWith (f :: rest) (lit "json") = false) ->
  replace_empty FENCE_OPEN
    (replace_empty FENCE_JSON_OPEN (opening ++ pad ++ f :: rest)) = f :: rest.
Proof.
  intros Hopening Hpad Hspace Hfence Hjson.
  unfold FENCE_OPEN, FENCE_JSON_OPEN. rewrite (replace_fence_open (lit "```json")).
  destruct Hopening as [[-> ->] | [-> | ->]].
  - cbn [app]. change (lit "```json") with (lit "```" ++ lit "json").
    rewrite startsWith_longer_false by (by apply Hfence).
    rewrite replace_fence_open. by rewrite Hfence.
  - rewrite startsWith_bare_fence by auto.
    rewrite replace_fence_open, startsWith_app, drop_app_length.
    rewrite trimStart_all_space by done. by apply trimStart_head.
  - rewrite startsWith_app, drop_app_length.
    rewrite trimStart_all_space, trimStart_head by done.
    rewrite replace_fence_open. by rewrite Hfence.
Qed.

Lemma edges_avoid_nil (p : N -> bool) : edges_avoid p [].
Proof. split; intros c H; discriminate H. Qed.

(** A text that begins with [first] and ends with [final]. *)
Lemma edges_avoid_between (p : N -> bool) (first final : N) (s : jsstring) :
  p first = false -> p final = false ->
  head s = Some first -> last s = Some final -> edges_avoid p s.
Proof.
  intros Hfirst Hfinal Hhead Hlast. split; intros c H.
  - rewrite Hhead in H. by inversion H; subst.
  - rewrite Hlast in H. by inversion H; subst.
Qed.

Lemma last_backticks (s : jsstring) : last (s ++ lit "```") = Some (ch "`").
Proof.
  change (lit "```") with (lit "``" ++ [ch "`"]).
  by rewrite app_assoc, last_snoc.
Qed.

(** Fences with white space only between them: nothing is left. *)
Lemma fences_without_body (lead opening pads closing trail : jsstring) :
  opening = [] \/ opening = lit "```" \/ opening = lit "```json" ->
  closing = [] \/ closing = lit "```" ->
  all_space lead -> all_space pads -> all_space trail ->
  replace_empty FENCE_CLOSE
    (replace_empty FENCE_OPEN
       (replace_empty FENCE_JSON_OPEN
          (trim (lead ++ opening ++ pads ++ closing ++ trail)))) = [].
Proof.
  intros Hopening Hclosing Hlead Hpads Htrail.
  assert (Htick : is_space (ch "`") = false) by reflexivity.
  destruct Hopening as [-> | [-> | ->]]; destruct Hclosing as [-> | ->]; cbn [app].
  - change (lead ++ pads ++ trail) with (lead ++ [] ++ pads ++ trail).
    rewrite (trim_around lead [] (pads ++ trail));
      [reflexivity | done | by apply all_space_app | apply edges_avoid_nil].
  - rewrite (app_assoc lead pads), (trim_around (lead ++ pads) (lit "```") trail);
      [reflexivity | by apply all_space_app | done |].
    by apply (edges_avoid_between _ (ch "`") (ch "`")).
  - rewrite (trim_around lead (lit "```") (pads ++ trail));
      [reflexivity | done | by apply all_space_app |].
    by apply (edges_avoid_between _ (ch "`") (ch "`")).
  - replace (lit "```" ++ pads ++ lit "```" ++ trail)
      with ((lit "```" ++ pads ++ lit "```") ++ trail) by reassociate.
    rewrite trim_around; [|done|done|].
    2: { apply (edges_avoid_between _ (ch "`") (ch "`")); [done|done|reflexivity|].
         rewrite app_assoc. apply last_backticks. }
    unfold FENCE_OPEN, FENCE_JSON_OPEN.
    rewrite (replace_fence_open (lit "```json")).
    rewrite startsWith_bare_fence by (done || reflexivity).
    rewrite replace_fence_open, startsWith_app, drop_app_length.
    rewrite trimStart_all_space by done. reflexivity.
  - rewrite (trim_around lead (lit "```json") (pads ++ trail));
      [reflexivity | done | by apply all_space_app |].
    by apply (edges_avoid_between _ (ch "`") (ch "n")).
  - replace (lit "```json" ++ pads ++ lit "```" ++ trail)
      with ((lit "```json" ++ pads ++ lit "```") ++ trail) by reassociate.
    rewrite trim_around; [|done|done|].
    2: { apply (edges_avoid_between _ (ch "`") (ch "`")); [done|done|reflexivity|].
         rewrite app_assoc. apply last_backticks. }
    unfold FENCE_JSON_OPEN.
    rewrite (replace_fence_open (lit "```json")), startsWith_app, drop_app_length.
    rewrite trimStart_all_space by done. reflexivity.
Qed.

(** The three replacements on a trimmed text: an opening fence and its
    white space, then [f :: rest], from which the replacement of the closing
    fence leaves [body]. *)
Lemma fences_around_core (lead opening pad : jsstring) (f l : N)
    (rest trail body : jsstring) :
  opening = [] /\ pad = [] \/ opening = lit "```" \/ opening = lit "```json" ->
  all_space lead -> all_space pad -> all_space trail ->
  is_space f = false ->
  last (f :: rest) = Some l -> is_space l = false ->
  (opening <> lit "```" -> startsWith (f :: rest) (lit "```") = false) ->
  (opening = lit "```" -> pad = [] -> startsWith (f :: rest) (lit "json") = false) ->
  replace_empty FENCE_CLOSE (f :: rest) = body ->
  replace_empty FENCE_CLOSE
    (replace_empty FENCE_OPEN
       (replace_empty FENCE_JSON_OPEN
          (trim (lead ++ (opening ++ pad ++ f :: rest) ++ trail))))
  = body.
Proof.
  intros Hopening Hlead Hpad Htrail Hf_space Hl Hl_space Hfence Hjson Hclose.
  assert (Htick : is_space (ch "`") = false) by reflexivity.
  rewrite trim_around; [|done|done|].
  - by rewrite replace_opening_fences.
  - destruct Hopening as [[-> ->] | [-> | ->]].
    + by apply (edges_avoid_between _ f l).
    + apply (edges_avoid_between _ (ch "`") l); [done|done|reflexivity|].
      by rewrite app_assoc, last_app_cons.
    + apply (edges_avoid_between _ (ch "`") l); [done|done|reflexivity|].
      by rewrite app_assoc, last_app_cons.
Qed.

(** A body that does not begin with a fence, before a closing fence with
    which it does: one or two backticks, right before the fence. *)
Lemma short_backtick_body (f : N) (b pad2 : jsstring) :
  all_space pad2 ->
  startsWith (f :: b) (lit "```") = false ->
  startsWith (f :: b ++ pad2 ++ lit "```") (lit "```") = true ->
  pad2 = [] /\ (f :: b = lit "`" \/ f :: b = lit "``").
Proof.
  intros Hpad2 Hbody Hall.
  assert (Hpad : forall r, pad2 ++ lit "```" = 96%N :: r -> pad2 = []).
  { intros r Hr. destruct Hpad2 as [|w pad2 Hw _]; [reflexivity|].
    inversion Hr; subst. by vm_compute in Hw. }
  apply startsWith_spec in Hall as [r Hr].
  change (lit "```" ++ r) with (96%N :: 96%N :: 96%N :: r) in Hr.
  destruct b as [|b1 [|b2 b]]; cbn [app] in Hr; inversion Hr; subst.
  - split; [by eapply Hpad | left; reflexivity].
  - split; [by eapply Hpad | right; reflexivity].
  - destruct b; by vm_compute in Hbody.
Qed.

(** Fences around a body [f :: b] that has no white space at its ends and
    no fence of its own: the body is left. *)
Lemma fences_around_body (lead opening pad1 : jsstring) (f : N)
    (b pad2 closing trail : jsstring) :
  opening = [] \/ opening = lit "```" \/ opening = lit "```json" ->
  closing = [] \/ closing = lit "```" ->
  all_space lead -> all_space pad1 -> all_space pad2 -> all_space trail ->
  edges_avoid is_space (f :: b) ->
  (opening <> lit "```" -> startsWith (f :: b) (lit "```") = false) ->
  (opening = lit "```" -> pad1 = [] -> startsWith (f :: b) (lit "json") = false) ->
  (closing = [] -> forall s', f :: b <> s' ++ lit "```") ->
  replace_empty FENCE_CLOSE
    (replace_empty FENCE_OPEN
       (replace_empty FENCE_JSON_OPEN
          (trim (lead ++ opening ++ pad1 ++ (f :: b) ++ pad2 ++ closing ++ trail))))
  = f :: b.
Proof.
  intros Hopening Hclosing Hlead Hpad1 Hpad2 Htrail [Hs_first Hs_last]
    Hfence Hjson Hends.
  assert (Hf_space : is_space f = false) by (by apply Hs_first).
  destruct (last_is_Some (f :: b)) as [_ [l Hl]]; [done|].
  assert (Hl_space : is_space l = false) by (by apply Hs_last).
  destruct Hclosing as [-> | ->].
  - (* no closing fence: after the body, white space only *)
    assert (Hclose : replace_empty FENCE_CLOSE (f :: b) = f :: b)
      by (apply replace_fence_close_none; by apply Hends).
    destruct Hopening as [-> | Hopening].
    + replace (lead ++ [] ++ pad1 ++ (f :: b) ++ pad2 ++ [] ++ trail)
        with ((lead ++ pad1) ++ ([] ++ [] ++ f :: b) ++ (pad2 ++ trail))
        by reassociate.
      apply (fences_around_core _ [] [] f l b); auto using all_space_app;
        [constructor | intros H; by vm_compute in H].
    + replace (lead ++ opening ++ pad1 ++ (f :: b) ++ pad2 ++ [] ++ trail)
        with (lead ++ (opening ++ pad1 ++ f :: b) ++ (pad2 ++ trail))
        by reassociate.
      apply (fences_around_core _ opening pad1 f l b); auto using all_space_app.
  - (* a closing fence after the body and white space *)
    assert (Hclose : replace_empty FENCE_CLOSE (f :: b ++ pad2 ++ lit "```") = f :: b)
      by (by apply (replace_fence_close_found (f :: b) pad2)).
    assert (Hlast : last (f :: b ++ pad2 ++ lit "```") = Some (ch "`")).
    { change (f :: b ++ pad2 ++ lit "```") with ((f :: b) ++ pad2 ++ lit "```").
      rewrite app_assoc. apply last_backticks. }
    assert (Hjson' : opening = lit "```" -> pad1 = [] ->
              startsWith (f :: b ++ pad2 ++ lit "```") (lit "json") = false).
    { intros Ho Hp. apply (startsWith_app_false (f :: b)); [by apply Hjson|].
      intros t. by apply head_fence_not_json. }
    assert (Hgeneral :
      (opening <> lit "```" ->
       startsWith (f :: b ++ pad2 ++ lit "```") (lit "```") = false) ->
      replace_empty FENCE_CLOSE
        (replace_empty FENCE_OPEN
           (replace_empty FENCE_JSON_OPEN
              (trim (lead ++ opening ++ pad1 ++ (f :: b) ++ pad2
                     ++ lit "```" ++ trail)))) = f :: b).
    { intros Hfence'. destruct Hopening as [-> | Hopening].
      - replace (lead ++ [] ++ pad1 ++ (f :: b) ++ pad2 ++ lit "```" ++ trail)
          with ((lead ++ pad1) ++ ([] ++ [] ++ f :: b ++ pad2 ++ lit "```") ++ trail)
          by reassociate.
        apply (fences_around_core _ [] [] f (ch "`") (b ++ pad2 ++ lit "```"));
          auto using all_space_app; [constructor | intros H; by vm_compute in H].
      - replace (lead ++ opening ++ pad1 ++ (f :: b) ++ pad2 ++ lit "```" ++ trail)
          with (lead ++ (opening ++ pad1 ++ f :: b ++ pad2 ++ lit "```") ++ trail)
          by reassociate.
        apply (fences_around_core _ opening pad1 f (ch "`") (b ++ pad2 ++ lit "```"));
          auto. }
    destruct (startsWith (f :: b ++ pad2 ++ lit "```") (lit "```")) eqn:Hx;
      [|by apply Hgeneral].
    destruct (decide (opening = lit "```")) as [Hbare | Hbare];
      [by apply Hgeneral|].
    (* the body is one or two backticks, right before the closing fence *)
    destruct (short_backtick_body f b pad2 Hpad2 (Hfence Hbare) Hx) as [-> Hshort].
    assert (Htick : is_space (ch "`") = false) by reflexivity.
    destruct Hopening as [-> | [-> | ->]]; [|done|].
    + replace (lead ++ [] ++ pad1 ++ (f :: b) ++ [] ++ lit "```" ++ trail)
        with ((lead ++ pad1) ++ ((f :: b) ++ lit "```") ++ trail) by reassociate.
      rewrite trim_around; [|by apply all_space_app|done|].
      * destruct Hshort as [-> | ->]; reflexivity.
      * apply (edges_avoid_between _ f (ch "`")); [done|done|reflexivity|].
        apply last_backticks.
    + replace (lead ++ lit "```json" ++ pad1 ++ (f :: b) ++ [] ++ lit "```" ++ trail)
        with (lead ++ (lit "```json" ++ pad1 ++ (f :: b) ++ lit "```") ++ trail)
        by reassociate.
      rewrite trim_around; [|done|done|].
      * unfold FENCE_JSON_OPEN.
        rewrite (replace_fence_open (lit "```json")), startsWith_app, drop_app_length.
        rewrite trimStart_all_space by done.
        destruct Hshort as [-> | ->]; reflexivity.
      * apply (edges_avoid_between _ (ch "`") (ch "`")); [done|done|reflexivity|].
        rewrite !app_assoc. apply last_backticks.
Qed.

Lemma endsWith_spec (s suffix : jsstring) :
  endsWith s suffix = true <-> exists front, s = front ++ suffix.
Proof.
  unfold endsWith. rewrite startsWith_spec. split.
  - intros [rest H]. exists (rev rest).
    by rewrite <- (rev_involutive s), H, rev_app_distr, rev_involutive.
  - intros [front ->]. exists (rev front). by rewrite rev_app_distr.
Qed.

Lemma head_trimStart (s : jsstring) (c : N) :
  head (trimStart s) = Some c -> is_space c = false.
Proof.
  induction s as [|d s IH]; [discriminate|].
  cbn [trimStart]. destruct (is_space d) eqn:Hd; [done|].
  intros H. by inversion H; subst.
Qed.

(** A text is white space, what [trim] keeps of it, and white space. *)
Lemma trim_split (s : jsstring) :
  exists pad1 pad2,
    all_space pad1 /\ all_space pad2 /\ s = pad1 ++ trim s ++ pad2
    /\ edges_avoid is_space (trim s).
Proof.
  destruct (trimStart_split s) as [ws1 [Hws1 Hs]].
  destruct (trimStart_split (rev (trimStart s))) as [ws2 [Hws2 Ht]].
  assert (Ht' : trimStart s = trim s ++ rev ws2).
  { unfold trim, trimEnd.
    by rewrite <- (rev_involutive (trimStart s)), Ht at 1; rewrite rev_app_distr. }
  exists ws1, (rev ws2). split; [done|]. split; [by apply all_space_rev|].
  split; [by rewrite <- Ht'|]. split; intros c Hc.
  - apply (head_trimStart s). rewrite Ht'.
    destruct (trim s); [discriminate | exact Hc].
  - apply last_Some in Hc as [front Hfront].
    apply (head_trimStart (rev (trimStart s))).
    unfold trim, trimEnd in Hfront.
    apply (f_equal (@rev N)) in Hfront.
    rewrite rev_involutive, rev_app_distr in Hfront. by rewrite Hfront.
Qed.

(** C8. For every text made of white space, an opening fence (three
    backticks, bare or tagged [json]) or none, a text [inner], a closing
    fence (three backticks) or none, and white space, in which the scan for
    an object or an array finds nothing: [cleanJson] returns [inner]
    without the white space at its ends.  The fences are the whole of the
    wrapping: unless the opening fence is the bare one, the trimmed [inner]
    does not begin with three backticks; a bare opening fence is not
    followed at once by [json]; and without a closing fence the trimmed
    [inner] does not end with three backticks. *)
Theorem cleanJson_code_fence (lead opening inner closing trail : jsstring) :
  opening = [] \/ opening = lit "```" \/ opening = lit "```json" ->
  closing = [] \/ closing = lit "```" ->
  all_space lead -> all_space trail ->
  (opening <> lit "```" -> startsWith (trim inner) (lit "```") = false) ->
  (opening = lit "```" -> startsWith inner (lit "json") = false) ->
  (closing = [] -> endsWith (trim inner) (lit "```") = false) ->
  String_match false JSON_LIKE (lead ++ opening ++ inner ++ closing ++ trail) = None ->
  cleanJson (lead ++ opening ++ inner ++ closing ++ trail) = trim inner.
Proof.
  intros Hopening Hclosing Hlead Htrail Hfence Hjson Hends Hscan.
  unfold cleanJson. rewrite Hscan. clear Hscan.
  destruct (trim_split inner) as [pad1 [pad2 [Hpad1 [Hpad2 [Hinner Hedges]]]]].
  remember (trim inner) as body eqn:Hbody. clear Hbody.
  rewrite Hinner. destruct body as [|f b].
  - replace (lead ++ opening ++ (pad1 ++ [] ++ pad2) ++ closing ++ trail)
      with (lead ++ opening ++ (pad1 ++ pad2) ++ closing ++ trail) by reassociate.
    by apply fences_without_body; auto using all_space_app.
  - replace (lead ++ opening ++ (pad1 ++ (f :: b) ++ pad2) ++ closing ++ trail)
      with (lead ++ opening ++ pad1 ++ (f :: b) ++ pad2 ++ closing ++ trail)
      by reassociate.
    apply fences_around_body; auto.
    + intros Hbare ->. specialize (Hjson Hbare).
      destruct (startsWith (f :: b) (lit "json")) eqn:Hstart; [|reflexivity].
      apply startsWith_spec in Hstart as [rest Hrest].
      rewrite Hinner, Hrest in Hjson. cbn [app] in Hjson.
      by rewrite <- app_assoc, startsWith_app in Hjson.
    + intros Hnone s' Hs'. specialize (Hends Hnone).
      assert (Htrue : endsWith (f :: b) (lit "```") = true)
        by (apply endsWith_spec; by exists s').
      by rewrite Htrue in Hends.
Qed.

Lemma cleanJson_code_fence_witness :
  (all_space (lit "  ") /\ all_space [LF]
   /\ startsWith (trim ([LF] ++ lit "  market closed " ++ [LF])) (lit "```") = false
   /\ String_match false JSON_LIKE fencedAnswer = None)
  /\ cleanJson fencedAnswer = lit "market closed".
Proof.
  assert (H1 : all_space (lit "  ")) by (repeat constructor).
  assert (H2 : all_space [LF]) by (repeat constructor).
  assert (H3 : startsWith (trim ([LF] ++ lit "  market closed " ++ [LF])) (lit "```")
               = false) by reflexivity.
  assert (H4 : String_match false JSON_LIKE fencedAnswer = None)
    by (vm_compute; reflexivity).
  split; [done|].
  refine (eq_trans
            (cleanJson_code_fence (lit "  ") (lit "```json")
               ([LF] ++ lit "  market closed " ++ [LF]) (lit "```") [LF]
               (or_intror (or_intror eq_refl)) (or_intror eq_refl) H1 H2
               (fun _ => H3) _ _ H4) _).
  - intros H. by vm_compute in H.
  - intros H. by vm_compute in H.
  - vm_compute. reflexivity.
Defined.

(** ** Numbers written and read back *)

Lemma digit_value_decimal (d : N) : (d < 10)%N -> digit_value 10 (48 + d) = Some d.
Proof.
  intros Hd. unfold digit_value, hex_value, is_digit.
  replace (48 <=? 48 + d)%N with true by (symmetry; apply N.leb_le; lia).
  replace (48 + d <=? 57)%N with true by (symmetry; apply N.leb_le; lia).
  cbn [andb]. replace (48 + d - 48)%N with d by lia.
  by replace (d <? 10)%N with true by (symmetry; apply N.ltb_lt; lia).
Qed.

Lemma is_digit_decimal (d : N) : (d < 10)%N -> is_digit (48 + d) = true.
Proof.
  intros Hd. unfold is_digit. apply andb_true_iff. split; apply N.leb_le; lia.
Qed.

Lemma digits_of_S (fuel : nat) (n : N) (acc : jsstring) :
  digits_of (S fuel) n acc =
  if (n <? 10)%N then (48 + n mod 10)%N :: acc
  else digits_of fuel (n / 10)%N ((48 + n mod 10)%N :: acc).
Proof. reflexivity. Qed.

Lemma parse_digits_digits_of (fuel : nat) (n : N) (ds : jsstring) :
  (n < 2 ^ N.of_nat (S fuel))%N ->
  parse_digits 10 (digits_of (S fuel) n ds) None = parse_digits 10 ds (Some n).
Proof.
  revert n ds. induction fuel as [|fuel IH]; intros n ds Hn.
  - cbn [digits_of]. change (2 ^ N.of_nat 1)%N with 2%N in Hn.
    replace (n <? 10)%N with true by (symmetry; apply N.ltb_lt; lia).
    rewrite N.mod_small by lia. cbn [parse_digits].
    by rewrite digit_value_decimal by lia.
  - rewrite digits_of_S. destruct (N.ltb_spec n 10) as [Hsmall | Hbig].
    + rewrite N.mod_small by lia. cbn [parse_digits].
      by rewrite digit_value_decimal by lia.
    + rewrite IH.
      * cbn [parse_digits].
        rewrite digit_value_decimal by (apply N.mod_lt; lia).
        do 2 f_equal. rewrite (N.div_mod' n 10) at 3. lia.
      * rewrite Nat2N.inj_succ, N.pow_succ_r' in Hn.
        apply N.Div0.div_lt_upper_bound; lia.
Qed.

Lemma digits_of_digits (fuel : nat) (n : N) (ds : jsstring) :
  Forall (fun c => is_digit c = true) ds ->
  Forall (fun c => is_digit c = true) (digits_of fuel n ds).
Proof.
  revert n ds. induction fuel as [|fuel IH]; intros n ds Hds; [done|].
  rewrite digits_of_S.
  assert (Hhead : is_digit (48 + n mod 10) = true)
    by (apply is_digit_decimal, N.mod_lt; lia).
  destruct (n <? 10)%N; [by constructor | apply IH; by constructor].
Qed.

Lemma digits_of_nonempty (fuel : nat) (n : N) (ds : jsstring) :
  digits_of (S fuel) n ds <> [].
Proof.
  revert n ds. induction fuel as [|fuel IH]; intros n ds; rewrite digits_of_S.
  - by destruct (n <? 10)%N.
  - destruct (n <? 10)%N; [done | apply IH].
Qed.

Lemma size_nat_bound (n : N) : (n < 2 ^ N.of_nat (S (N.size_nat n)))%N.
Proof.
  destruct n as [|p]; [reflexivity|]. cbn [N.size_nat].
  induction p as [p IH | p IH |]; cbn [Pos.size_nat];
    rewrite ?Nat2N.inj_succ, ?N.pow_succ_r' in *; lia.
Qed.

(** The digits of a number are read back as the number. *)
Lemma parseInt_digits (s : jsstring) (n : N) :
  s <> [] -> Forall (fun c => is_digit c = true) s ->
  parse_digits 10 s None = Some n ->
  trimStart s = s
  /\ (forall c s', s = c :: s' -> (c =? 45)%N = false /\ (c =? 43)%N = false)
  /\ startsWith s (lit "0x") = false /\ startsWith s (lit "0X") = false.
Proof.
  intros Hne Hdigits _.
  assert (Hnot : forall c, is_digit c = true ->
            is_space c = false /\ (c =? 45)%N = false /\ (c =? 43)%N = false
            /\ (c =? 120)%N = false /\ (c =? 88)%N = false).
  { intros c Hc. unfold is_digit in Hc. apply andb_true_iff in Hc as [Hlo Hhi].
    apply N.leb_le in Hlo, Hhi. unfold is_space.
    repeat match goal with
           | |- context [(?a <=? ?b)%N] => destruct (N.leb_spec a b); try lia
           | |- context [(?a =? ?b)%N] => destruct (N.eqb_spec a b); try lia
           end; cbn; auto. }
  destruct Hdigits as [|c s Hc Hs]; [done|].
  destruct (Hnot c Hc) as [Hspace [Hminus [Hplus _]]].
  split; [by apply trimStart_head|].
  split; [intros c' s' Heq; by inversion Heq; subst|].
  destruct Hs as [|d s Hd _].
  - split; cbn; by rewrite andb_false_r.
  - destruct (Hnot d Hd) as [_ [_ [_ [Hx HX]]]].
    split; cbn [startsWith lit List.map list_ascii_of_string];
      change (N_of_ascii "x") with 120%N; change (N_of_ascii "X") with 88%N;
      rewrite ?Hx, ?HX; by rewrite andb_false_r.
Qed.

Lemma parseInt_N_toString (n : N) : parseInt (N_toString n) = Some (Z.of_N n).
Proof.
  assert (Hparse : parse_digits 10 (N_toString n) None = Some n).
  { unfold N_toString. rewrite parse_digits_digits_of by apply size_nat_bound.
    reflexivity. }
  destruct (parseInt_digits (N_toString n) n) as [Htrim [Hsign [Hx HX]]];
    [apply digits_of_nonempty | by apply digits_of_digits | done |].
  unfold parseInt. rewrite Htrim.
  destruct (N_toString n) as [|c s] eqn:Hs; [by apply digits_of_nonempty in Hs|].
  destruct (Hsign c s eq_refl) as [-> ->].
  rewrite Hx, HX. cbv beta iota zeta. cbn [orb]. by rewrite Hparse.
Qed.

(** [parseInt(n.toString())] is [n]. *)
Lemma parseInt_Z_toString (z : Z) : parseInt (Z_toString z) = Some z.
Proof.
  unfold Z_toString. destruct (Z.ltb_spec z 0) as [Hneg | Hpos].
  - assert (Hparse : parse_digits 10 (N_toString (Z.abs_N z)) None = Some (Z.abs_N z)).
    { unfold N_toString. rewrite parse_digits_digits_of by apply size_nat_bound.
      reflexivity. }
    destruct (parseInt_digits (N_toString (Z.abs_N z)) (Z.abs_N z))
      as [_ [_ [Hx HX]]];
      [apply digits_of_nonempty | by apply digits_of_digits | done |].
    unfold parseInt. cbn [trimStart]. change (is_space 45) with false.
    cbv beta iota zeta. change (45 =? 45)%N with true. cbv beta iota zeta.
    rewrite Hx, HX. cbn [orb]. rewrite Hparse. f_equal. lia.
  - rewrite parseInt_N_toString. f_equal. lia.
Qed.

Lemma Z_toString_nonempty (z : Z) : Z_toString z <> [].
Proof.
  unfold Z_toString. destruct (z <? 0)%Z; [done | apply digits_of_nonempty].
Qed.

(** ** The fuel of the parser of [JSON.parse] *)

Lemma skip_ws_length (s : jsstring) : length (skip_ws s) <= length s.
Proof.
  induction s as [|c s IH]; [done|]. cbn [skip_ws].
  destruct (is_json_ws c); cbn [length]; lia.
Qed.

Lemma parse_chars_length (s str rest : jsstring) :
  parse_chars s = Some (str, rest) -> length rest <= length s.
Proof.
  assert (Hall : forall n s, length s <= n -> forall str rest,
            parse_chars s = Some (str, rest) -> length rest <= length s);
    [|by apply (Hall (length s))].
  clear. induction n as [|n IH]; intros s Hlen str rest H.
  - destruct s; [discriminate | cbn in Hlen; lia].
  - destruct s as [|c s]; [discriminate|]. cbn [parse_chars length] in *.
    assert (Hcons : forall d t, length t <= n ->
              cons_fst d (parse_chars t) = Some (str, rest) -> length rest <= length t).
    { intros d t Ht Hd. destruct (parse_chars t) as [[str' rest']|] eqn:Hpt;
        [|discriminate]. inversion Hd; subst. by eapply IH. }
    destruct (c =? 34)%N; [inversion H; subst; lia|].
    destruct (c =? 92)%N.
    + destruct s as [|e s]; [discriminate|]. cbn [length] in *.
      destruct (e =? 117)%N.
      * destruct s as [|h1 [|h2 [|h3 [|h4 s]]]]; try discriminate.
        cbn [length] in *. destruct (hex4 h1 h2 h3 h4); [|discriminate].
        apply Hcons in H; lia.
      * destruct (unescape e); [|discriminate]. apply Hcons in H; lia.
    + destruct (c <? 32)%N; [discriminate|]. apply Hcons in H; lia.
Qed.

Lemma take_digits_length (s ds rest : jsstring) :
  take_digits s = (ds, rest) -> length rest <= length s.
Proof.
  revert ds rest. induction s as [|c s IH]; intros ds rest H; cbn [take_digits] in H.
  - inversion H; subst. done.
  - destruct (is_digit c).
    + destruct (take_digits s) as [ds' rest'] eqn:Hs. inversion H; subst.
      specialize (IH _ _ eq_refl). cbn [length]. lia.
    + inversion H; subst. done.
Qed.

Lemma lex_number_length (s lexeme rest : jsstring) :
  lex_number s = Some (lexeme, rest) -> length rest <= length s.
Proof.
  unfold lex_number. intros H.
  destruct (lex_sign s) as [sign s1] eqn:Hsign.
  destruct (lex_int s1) as [[int_part s2]|] eqn:Hint; [|discriminate].
  destruct (lex_frac s2) as [[frac_part s3]|] eqn:Hfrac; [|discriminate].
  destruct (lex_exp s3) as [[exp_part s4]|] eqn:Hexp; [|discriminate].
  inversion H; subst.
  assert (H1 : length s1 <= length s).
  { unfold lex_sign in Hsign. destruct s as [|c s]; [by inversion Hsign; subst|].
    destruct (c =? 45)%N; inversion Hsign; subst; cbn [length]; lia. }
  assert (H2 : length s2 <= length s1).
  { unfold lex_int in Hint. destruct s1 as [|c s1]; [discriminate|].
    destruct (c =? 48)%N; [inversion Hint; subst; cbn [length]; lia|].
    destruct (is_digit c); [|discriminate].
    destruct (take_digits (c :: s1)) as [ds r] eqn:Hd.
    apply take_digits_length in Hd. by inversion Hint; subst. }
  assert (H3 : length s3 <= length s2).
  { unfold lex_frac in Hfrac. destruct s2 as [|c s2]; [by inversion Hfrac; subst|].
    destruct (c =? 46)%N; [|by inversion Hfrac; subst].
    destruct (take_digits s2) as [[|d ds] r] eqn:Hd; [discriminate|].
    apply take_digits_length in Hd. inversion Hfrac; subst. cbn [length]. lia. }
  assert (H4 : length rest <= length s3).
  { unfold lex_exp in Hexp. destruct s3 as [|c s3]; [by inversion Hexp; subst|].
    destruct ((c =? 101) || (c =? 69))%N; [|by inversion Hexp; subst].
    destruct (match s3 with
              | [] => ([], s3)
              | d :: s'' => if ((d =? 43) || (d =? 45))%N then ([d], s'') else ([], s3)
              end) as [esign s5] eqn:Hesign.
    assert (H5 : length s5 <= length s3).
    { destruct s3 as [|d s3]; [by inversion Hesign; subst|].
      destruct ((d =? 43) || (d =? 45))%N; inversion Hesign; subst; cbn [length]; lia. }
    destruct (take_digits s5) as [[|d ds] r] eqn:Hd; [discriminate|].
    apply take_digits_length in Hd. inversion Hexp; subst. cbn [length]. lia. }
  lia.
Qed.

Lemma length_drop_le (k : nat) (s : jsstring) : length (drop k s) <= length s.
Proof. rewrite length_drop. lia. Qed.

(** What a parsing step leaves is no longer than what it was given. *)
Lemma parse_lengths (fuel : nat) :
  (forall s v rest, parse_value fuel s = POk v rest -> length rest <= length s)
  /\ (forall s acc v rest,
        parse_elements fuel s acc = POk v rest -> length rest <= length s)
  /\ (forall s acc v rest,
        parse_members fuel s acc = POk v rest -> length rest <= length s).
Proof.
  induction fuel as [|fuel [IHv [IHe IHm]]]; [by repeat split|].
  split; [|split].
  - intros s v rest H. cbn [parse_value] in H.
    destruct s as [|c s]; [discriminate|]. cbn [length].
    pose proof (skip_ws_length s) as Hws.
    destruct (c =? 123)%N.
    { destruct (skip_ws s) as [|d r] eqn:Hs; [discriminate|]. cbn [length] in Hws.
      destruct (d =? 125)%N; [inversion H; subst; lia|].
      apply IHm in H. cbn [length] in H. lia. }
    destruct (c =? 91)%N.
    { destruct (skip_ws s) as [|d r] eqn:Hs; [discriminate|]. cbn [length] in Hws.
      destruct (d =? 93)%N; [inversion H; subst; lia|].
      apply IHe in H. cbn [length] in H. lia. }
    destruct (c =? 34)%N.
    { destruct (parse_chars s) as [[str r]|] eqn:Hs; [|discriminate].
      apply parse_chars_length in Hs. inversion H; subst. lia. }
    destruct (startsWith (c :: s) (lit "true"));
      [inversion H; subst; exact (length_drop_le 4 (c :: s))|].
    destruct (startsWith (c :: s) (lit "false"));
      [inversion H; subst; exact (length_drop_le 5 (c :: s))|].
    destruct (startsWith (c :: s) (lit "null"));
      [inversion H; subst; exact (length_drop_le 4 (c :: s))|].
    destruct (lex_number (c :: s)) as [[lexeme r]|] eqn:Hs; [|discriminate].
    apply lex_number_length in Hs. inversion H; subst. cbn [length] in Hs. lia.
  - intros s acc v rest H. cbn [parse_elements] in H.
    destruct (parse_value fuel s) as [v1 r1| |] eqn:Hv; try discriminate.
    apply IHv in Hv. pose proof (skip_ws_length r1) as Hws.
    destruct (skip_ws r1) as [|d r2]; [discriminate|]. cbn [length] in Hws.
    pose proof (skip_ws_length r2) as Hws2.
    destruct (d =? 44)%N; [apply IHe in H; lia|].
    destruct (d =? 93)%N; [inversion H; subst; lia | discriminate].
  - intros s acc v rest H. cbn [parse_members] in H.
    destruct s as [|q s1]; [discriminate|]. cbn [length].
    destruct (q =? 34)%N; [|discriminate].
    destruct (parse_chars s1) as [[key s2]|] eqn:Hkey; [|discriminate].
    apply parse_chars_length in Hkey. pose proof (skip_ws_length s2) as Hws.
    destruct (skip_ws s2) as [|colon s3]; [discriminate|]. cbn [length] in Hws.
    destruct (colon =? 58)%N; [|discriminate].
    pose proof (skip_ws_length s3) as Hws3.
    destruct (parse_value fuel (skip_ws s3)) as [v1 r1| |] eqn:Hv; try discriminate.
    apply IHv in Hv. pose proof (skip_ws_length r1) as Hws1.
    destruct (skip_ws r1) as [|d r2]; [discriminate|]. cbn [length] in Hws1.
    pose proof (skip_ws_length r2) as Hws2.
    destruct (d =? 44)%N; [apply IHm in H; lia|].
    destruct (d =? 125)%N; [inversion H; subst; lia | discriminate].
Qed.

(** With two units of fuel for each character, and one or two more, a
    parsing step does not run out of fuel. *)
Lemma parse_fuel (fuel : nat) :
  (forall s, 2 * length s + 1 <= fuel -> parse_value fuel s <> PNoFuel)
  /\ (forall s acc, 2 * length s + 2 <= fuel -> parse_elements fuel s acc <> PNoFuel)
  /\ (forall s acc, 2 * length s + 2 <= fuel -> parse_members fuel s acc <> PNoFuel).
Proof.
  induction fuel as [|fuel [IHv [IHe IHm]]]; [repeat split; intros; lia|].
  destruct (parse_lengths fuel) as [Lv [Le Lm]].
  split; [|split].
  - intros s Hfuel. cbn [parse_value].
    destruct s as [|c s]; [done|]. cbn [length] in Hfuel.
    pose proof (skip_ws_length s) as Hws.
    destruct (c =? 123)%N.
    { destruct (skip_ws s) as [|d r] eqn:Hs; [done|]. cbn [length] in Hws.
      destruct (d =? 125)%N; [done|]. apply IHm. cbn [length]. lia. }
    destruct (c =? 91)%N.
    { destruct (skip_ws s) as [|d r] eqn:Hs; [done|]. cbn [length] in Hws.
      destruct (d =? 93)%N; [done|]. apply IHe. cbn [length]. lia. }
    destruct (c =? 34)%N; [by destruct (parse_chars s) as [[str r]|]|].
    destruct (startsWith (c :: s) (lit "true")); [done|].
    destruct (startsWith (c :: s) (lit "false")); [done|].
    destruct (startsWith (c :: s) (lit "null")); [done|].
    by destruct (lex_number (c :: s)) as [[lexeme r]|].
  - intros s acc Hfuel. cbn [parse_elements].
    pose proof (IHv s) as Hv.
    destruct (parse_value fuel s) as [v1 r1| |] eqn:Hpv; [|done|apply Hv; lia].
    apply Lv in Hpv. pose proof (skip_ws_length r1) as Hws.
    destruct (skip_ws r1) as [|d r2]; [done|]. cbn [length] in Hws.
    pose proof (skip_ws_length r2) as Hws2.
    destruct (d =? 44)%N; [apply IHe; lia|].
    by destruct (d =? 93)%N.
  - intros s acc Hfuel. cbn [parse_members].
    destruct s as [|q s1]; [done|]. cbn [length] in Hfuel.
    destruct (q =? 34)%N; [|done].
    destruct (parse_chars s1) as [[key s2]|] eqn:Hkey; [|done].
    apply parse_chars_length in Hkey. pose proof (skip_ws_length s2) as Hws.
    destruct (skip_ws s2) as [|colon s3]; [done|]. cbn [length] in Hws.
    destruct (colon =? 58)%N; [|done].
    pose proof (skip_ws_length s3) as Hws3.
    pose proof (IHv (skip_ws s3)) as Hv.
    destruct (parse_value fuel (skip_ws s3)) as [v1 r1| |] eqn:Hpv;
      [|done|apply Hv; lia].
    apply Lv in Hpv. pose proof (skip_ws_length r1) as Hws1.
    destruct (skip_ws r1) as [|d r2]; [done|]. cbn [length] in Hws1.
    pose proof (skip_ws_length r2) as Hws2.
    destruct (d =? 44)%N; [apply IHm; lia|].
    by destruct (d =? 125)%N.
Qed.

(** [JSON_parse] gives its parser fuel enough: when it answers [None], the
    text has a syntax error. *)
Lemma parse_value_fuel (text : jsstring) :
  parse_value (2 * length text + 2) (skip_ws text) <> PNoFuel.
Proof.
  apply parse_fuel. pose proof (skip_ws_length text). lia.
Qed.

(** ** Strings written by [JSON.stringify] and read back by [JSON.parse] *)

Lemma hex_value_hex_digit (n : N) : (n < 16)%N -> hex_value (hex_digit n) = Some n.
Proof.
  intros Hn. unfold hex_value, hex_digit, is_digit.
  destruct (N.ltb_spec n 10).
  - replace (48 <=? 48 + n)%N with true by (symmetry; apply N.leb_le; lia).
    replace (48 + n <=? 57)%N with true by (symmetry; apply N.leb_le; lia).
    cbn [andb]. f_equal. lia.
  - replace (87 + n <=? 57)%N with false by (symmetry; apply N.leb_gt; lia).
    rewrite andb_false_r.
    replace (97 <=? 87 + n)%N with true by (symmetry; apply N.leb_le; lia).
    replace (87 + n <=? 102)%N with true by (symmetry; apply N.leb_le; lia).
    cbn [andb]. f_equal. lia.
Qed.

Lemma parse_chars_unicode_escape (c : N) (t : jsstring) :
  (c < 65536)%N ->
  parse_chars (unicode_escape c ++ t) = cons_fst c (parse_chars t).
Proof.
  intros Hc.
  change (parse_chars (unicode_escape c ++ t)) with
    (match hex4 (hex_digit ((c / 4096) mod 16)) (hex_digit ((c / 256) mod 16))
             (hex_digit ((c / 16) mod 16)) (hex_digit (c mod 16)) with
     | Some u => cons_fst u (parse_chars t)
     | None => None
     end).
  unfold hex4. rewrite !hex_value_hex_digit by (apply N.mod_lt; lia).
  do 2 f_equal.
  assert (H1 := N.div_mod' c 16). assert (H2 := N.div_mod' (c / 16) 16).
  assert (H3 := N.div_mod' (c / 16 / 16) 16).
  rewrite !N.Div0.div_div in H3. rewrite N.Div0.div_div in H2.
  change (16 * 16)%N with 256%N in *. change (256 * 16)%N with 4096%N in *.
  assert (H4 : (c / 4096 < 16)%N) by (apply N.Div0.div_lt_upper_bound; lia).
  rewrite (N.mod_small (c / 4096)) by done. lia.
Qed.

Lemma parse_chars_raw (c : N) (t : jsstring) :
  c <> 34%N -> c <> 92%N -> (32 <= c)%N ->
  parse_chars (c :: t) = cons_fst c (parse_chars t).
Proof.
  intros H34 H92 H32. cbn [parse_chars].
  destruct (N.eqb_spec c 34); [done|]. destruct (N.eqb_spec c 92); [done|].
  destruct (N.ltb_spec c 32); [lia | reflexivity].
Qed.

Lemma parse_chars_quote_unit (c : N) (t : jsstring) :
  is_high_surrogate c = false -> is_low_surrogate c = false ->
  parse_chars (quote_unit c ++ t) = cons_fst c (parse_chars t).
Proof.
  intros _ _. unfold quote_unit.
  destruct (N.eqb_spec c 8) as [->|]; [reflexivity|].
  destruct (N.eqb_spec c 9) as [->|]; [reflexivity|].
  destruct (N.eqb_spec c 10) as [->|]; [reflexivity|].
  destruct (N.eqb_spec c 12) as [->|]; [reflexivity|].
  destruct (N.eqb_spec c 13) as [->|]; [reflexivity|].
  destruct (N.eqb_spec c 34) as [->|]; [reflexivity|].
  destruct (N.eqb_spec c 92) as [->|]; [reflexivity|].
  destruct (N.ltb_spec c 32).
  - apply parse_chars_unicode_escape. lia.
  - by apply parse_chars_raw.
Qed.

Lemma surrogate_bounds (c : N) :
  is_high_surrogate c = true \/ is_low_surrogate c = true ->
  (55296 <= c)%N /\ (c < 65536)%N.
Proof.
  unfold is_high_surrogate, is_low_surrogate.
  intros [H | H]; apply andb_true_iff in H as [Hlo Hhi];
    apply N.leb_le in Hlo, Hhi; lia.
Qed.

(** The characters written for a string, up to the closing quote, are
    read back as the string. *)
Lemma parse_chars_quote_chars (s rest : jsstring) :
  parse_chars (quote_chars s ++ 34%N :: rest) = Some (s, rest).
Proof.
  remember (length s) as n eqn:Hn.
  assert (Hlen : length s <= n) by lia. clear Hn.
  revert s Hlen. induction n as [|n IH]; intros s Hlen.
  - destruct s; [reflexivity | cbn in Hlen; lia].
  - destruct s as [|c s]; [reflexivity|]. cbn [length] in Hlen.
    assert (IH1 : parse_chars (quote_chars s ++ 34%N :: rest) = Some (s, rest))
      by (apply IH; lia).
    cbn [quote_chars].
    destruct (is_high_surrogate c) eqn:Hhigh.
    + destruct (surrogate_bounds c (or_introl Hhigh)) as [Hlo Hhi].
      destruct s as [|d s].
      * rewrite parse_chars_unicode_escape by done. reflexivity.
      * destruct (is_low_surrogate d) eqn:Hlow.
        -- destruct (surrogate_bounds d (or_intror Hlow)) as [Hlo' Hhi'].
           cbn [app]. rewrite !parse_chars_raw by lia.
           rewrite IH by (cbn [length] in Hlen; lia). reflexivity.
        -- rewrite <- app_assoc, parse_chars_unicode_escape by done.
           by rewrite IH1.
    + destruct (is_low_surrogate c) eqn:Hlow.
      * destruct (surrogate_bounds c (or_intror Hlow)) as [Hlo Hhi].
        rewrite <- app_assoc, parse_chars_unicode_escape by done.
        by rewrite IH1.
      * rewrite <- app_assoc, parse_chars_quote_unit by done.
        by rewrite IH1.
Qed.

(** An object of two members whose values are strings, as
    [JSON.stringify] writes it, is read back as it was. *)
Lemma parse_value_two_strings (fuel : nat) (k1 a k2 b rest : jsstring) :
  k1 <> k2 ->
  parse_value (S (S (S (S fuel))))
    (123%N :: 34%N :: quote_chars k1 ++ 34%N :: 58%N
       :: 34%N :: quote_chars a ++ 34%N :: 44%N
       :: 34%N :: quote_chars k2 ++ 34%N :: 58%N
       :: 34%N :: quote_chars b ++ 34%N :: 125%N :: rest)
  = POk (JObject [(k1, JString a); (k2, JString b)]) rest.
Proof.
  intros Hkeys.
  cbn [parse_value N.eqb Pos.eqb skip_ws is_json_ws orb].
  cbn [parse_members N.eqb Pos.eqb]. rewrite parse_chars_quote_chars.
  cbn [skip_ws is_json_ws N.eqb Pos.eqb orb].
  cbn [parse_value N.eqb Pos.eqb]. rewrite parse_chars_quote_chars.
  cbn [skip_ws is_json_ws N.eqb Pos.eqb orb].
  cbn [parse_members N.eqb Pos.eqb]. rewrite parse_chars_quote_chars.
  cbn [skip_ws is_json_ws N.eqb Pos.eqb orb].
  cbn [parse_value N.eqb Pos.eqb]. rewrite parse_chars_quote_chars.
  cbn [skip_ws is_json_ws N.eqb Pos.eqb orb set_member].
  unfold jsstring_eqb. by rewrite bool_decide_false.
Qed.

Lemma JSON_stringify_marketStatus (a b : jsstring) :
  JSON_stringify (marketStatus a b) =
  123%N :: 34%N :: quote_chars (lit "status") ++ 34%N :: 58%N
    :: 34%N :: quote_chars a ++ 34%N :: 44%N
    :: 34%N :: quote_chars (lit "reason") ++ 34%N :: 58%N
    :: 34%N :: quote_chars b ++ 34%N :: 125%N :: [].
Proof.
  unfold marketStatus. cbn [JSON_stringify List.map join fst snd]. unfold quote.
  reassociate.
Qed.

(** [JSON.parse(JSON.stringify(v))] is [v] for the object of a market
    status. *)
Lemma JSON_parse_stringify_marketStatus (a b : jsstring) :
  JSON_parse (JSON_stringify (marketStatus a b)) = Some (marketStatus a b).
Proof.
  rewrite JSON_stringify_marketStatus. unfold JSON_parse.
  cbn [skip_ws is_json_ws N.eqb Pos.eqb orb length].
  match goal with
  | |- context [parse_value (2 * S ?n + 2)] =>
      replace (2 * S n + 2) with (S (S (S (S (2 * n))))) by lia
  end.
  rewrite parse_value_two_strings by (intros H; by vm_compute in H).
  reflexivity.
Qed.

Lemma JSON_stringify_marketStatus_nonempty (a b : jsstring) :
  JSON_stringify (marketStatus a b) <> [].
Proof. by rewrite JSON_stringify_marketStatus. Qed.

(** ** The market-status cache *)

(** What every request preserves, the whole loop preserves. *)
Lemma tryModels_invariant {E A : Type} (generateFn : jsstring -> E -> Completion A * E)
    (R : E -> Prop) (models errors : list jsstring) (w : World E) :
  (forall m e, R e -> R (snd (generateFn m e))) ->
  R (ext w) -> R (ext (snd (tryModels generateFn models errors w))).
Proof.
  intros Hstep. revert errors w.
  induction models as [|m models IH]; intros errors w Hw; [done|].
  cbn [tryModels]. specialize (Hstep m (ext w) Hw).
  change (ext (console_write (ConsoleLog (lit "Trying model: " ++ m)) w))
    with (ext w).
  destruct (generateFn m (ext w)) as [[v|err] e']; cbn [snd] in *; [done|].
  by apply IH.
Qed.

(** What the loop returns, a request returned. *)
Lemma tryModels_returned {E A : Type} (generateFn : jsstring -> E -> Completion A * E)
    (models errors : list jsstring) (w w' : World E) (v : A) :
  tryModels generateFn models errors w = (Returned v, w') ->
  exists m e e', m ∈ models /\ generateFn m e = (Returned v, e').
Proof.
  revert errors w. induction models as [|m models IH]; intros errors w H;
    [discriminate|].
  cbn [tryModels] in H.
  destruct (generateFn m _) as [[v'|err] e'] eqn:Hm.
  - inversion H; subst. eexists m, _, _. split; [set_solver | exact Hm].
  - destruct (IH _ _ H) as [m' [e [e'' [Hin Hm']]]].
    exists m', e, e''. split; [set_solver | done].
Qed.

Section Cache.

Context {Net Schema : Type}.
Variable service : Request Schema -> Net -> Z -> Completion Response * Net * Z.
Variable syntaxErrorMessage : jsstring -> jsstring.

Local Abbreviation check := (checkMarketStatus service syntaxErrorMessage).
Local Abbreviation request := (marketStatusRequest service).

Lemma marketStatusRequest_storage (dateStr m : jsstring) (p : Page Net Schema) :
  sessionStorage (snd (request dateStr m p)) = sessionStorage p.
Proof.
  unfold marketStatusRequest, generateContent.
  destruct (service _ _ _) as [[[response|err] remote'] clock']; reflexivity.
Qed.

Lemma marketStatusRequest_returns (dateStr m : jsstring) (p p' : Page Net Schema)
    (result : Json) :
  request dateStr m p = (Returned result, p') ->
  exists status reason, result = marketStatus status reason.
Proof.
  unfold marketStatusRequest, generateContent.
  destruct (service _ _ _) as [[[response|err] remote'] clock']; intros H;
    inversion H; subst. unfold statusOfText. by eexists _, _.
Qed.

(** One run of the fallback loop leaves the session storage as it was. *)
Lemma generateWithFallback_storage (dateStr : jsstring) (w : World (Page Net Schema)) :
  sessionStorage (ext (snd (generateWithFallback (request dateStr) w)))
  = sessionStorage (ext w).
Proof.
  apply (tryModels_invariant (request dateStr)
           (fun p => sessionStorage p = sessionStorage (ext w))); [|done].
  intros m e He. by rewrite marketStatusRequest_storage.
Qed.

(** The two paths of [checkMarketStatus]. *)
Lemma checkMarketStatus_hit (dateStr : jsstring) (w : World (Page Net Schema)) :
  cacheHit (ext w) = true ->
  exists v, JSON_parse (default [] (sessionStorage (ext w) !! CACHE_KEY)) = Some v
            /\ check dateStr w = (Returned v, w).
Proof.
  unfold cacheHit. intros H. apply andb_true_iff in H as [Hfresh Hparse].
  unfold checkMarketStatus. cbv zeta. rewrite Hfresh.
  unfold JSON_parse_completion.
  destruct (JSON_parse _) as [v|] eqn:Hv; [|discriminate].
  by exists v.
Qed.

Lemma checkMarketStatus_miss (dateStr : jsstring) (w : World (Page Net Schema)) :
  cacheHit (ext w) = false ->
  exists out,
    (cacheIsFresh (sessionStorage (ext w) !! CACHE_KEY)
       (sessionStorage (ext w) !! CACHE_TIME_KEY) (clock (ext w)) = false ->
     out = console w) /\
    check dateStr w =
    match generateWithFallback (request dateStr) (mkWorld out (ext w)) with
    | (Returned result, w1) =>
        (Returned result,
         set_ext (setItem CACHE_TIME_KEY (Z_toString (clock (ext w)))
                    (setItem CACHE_KEY (JSON_stringify result) (ext w1))) w1)
    | (Thrown err, w1) => (Thrown err, w1)
    end.
Proof.
  unfold cacheHit, checkMarketStatus. cbv zeta. intros H.
  destruct (cacheIsFresh _ _ _) eqn:Hfresh.
  - cbn [andb] in H. unfold JSON_parse_completion.
    destruct (JSON_parse _) as [v|] eqn:Hv; [discriminate|].
    eexists. split; [discriminate|]. unfold console_write. reflexivity.
  - exists (console w). split; [done|]. by destruct w.
Qed.

Lemma truthy_nonempty (s : jsstring) : s <> [] -> truthy (Some s) = true.
Proof. by destruct s. Qed.

Lemma cache_keys_differ : CACHE_TIME_KEY <> CACHE_KEY.
Proof. intros H. by vm_compute in H. Qed.

(** An entry written by [checkMarketStatus] at time [t] answers the calls
    made less than 30 minutes after [t]. *)
Lemma cacheHit_written (p : Page Net Schema) (status reason : jsstring) (t : Z) :
  sessionStorage p !! CACHE_KEY = Some (JSON_stringify (marketStatus status reason)) ->
  sessionStorage p !! CACHE_TIME_KEY = Some (Z_toString t) ->
  (clock p - t < 1800000)%Z ->
  cacheHit p = true.
Proof.
  intros Hstatus Htime Hwindow. unfold cacheHit, cacheIsFresh.
  rewrite Hstatus, Htime. cbn [from_option id].
  rewrite !truthy_nonempty
    by (apply JSON_stringify_marketStatus_nonempty || apply Z_toString_nonempty).
  rewrite parseInt_Z_toString, JSON_parse_stringify_marketStatus.
  cbn [andb]. rewrite andb_true_r. apply Z.ltb_lt. exact Hwindow.
Qed.

(** Without an entry, or 30 minutes or more after the time of the entry,
    the cache is not fresh. *)
Lemma cacheIsFresh_expired (p : Page Net Schema) :
  sessionStorage p !! CACHE_KEY = None
  \/ sessionStorage p !! CACHE_TIME_KEY = None
  \/ (exists t, sessionStorage p !! CACHE_TIME_KEY = Some (Z_toString t)
                /\ (1800000 <= clock p - t)%Z) ->
  cacheIsFresh (sessionStorage p !! CACHE_KEY) (sessionStorage p !! CACHE_TIME_KEY)
    (clock p) = false.
Proof.
  unfold cacheIsFresh. intros [-> | [-> | [t [-> Hlate]]]].
  - reflexivity.
  - by rewrite andb_false_r.
  - cbn [from_option id]. rewrite parseInt_Z_toString.
    apply andb_false_iff. right. apply Z.ltb_ge. exact Hlate.
Qed.

(** A fresh entry, as [checkMarketStatus] writes it, is returned and
    nothing changes. *)
Lemma checkMarketStatus_fresh_entry (dateStr : jsstring)
    (w : World (Page Net Schema)) (status reason : jsstring) (t : Z) :
  sessionStorage (ext w) !! CACHE_KEY
    = Some (JSON_stringify (marketStatus status reason)) ->
  sessionStorage (ext w) !! CACHE_TIME_KEY = Some (Z_toString t) ->
  (clock (ext w) - t < 1800000)%Z ->
  check dateStr w = (Returned (marketStatus status reason), w).
Proof.
  intros Hstatus Htime Hwindow.
  destruct (checkMarketStatus_hit dateStr w) as [v [Hv Hcheck]];
    [by eapply cacheHit_written|].
  rewrite Hstatus in Hv. cbn [from_option id] in Hv.
  rewrite JSON_parse_stringify_marketStatus in Hv. by inversion Hv; subst.
Qed.

(** C3. Called less than 30 minutes after the time [t] written next to a
    cached status, [checkMarketStatus] returns the cached status and
    changes nothing: no request is sent.  Called without an entry, or 30
    minutes or more after [t], it runs the fallback loop once, from the
    state of the call, and when the loop returns a status it overwrites the
    cached value with it and the cached time with the time of the call.
    And the round trip: after a call that the cache did not answer and that
    returned a status, a call in any later state with the same session
    storage, less than 30 minutes after the time of the first call, returns
    the same status and changes nothing. *)
Theorem checkMarketStatus_cache_window (dateStr : jsstring)
    (w : World (Page Net Schema)) :
  (forall status reason t,
     sessionStorage (ext w) !! CACHE_KEY
       = Some (JSON_stringify (marketStatus status reason)) ->
     sessionStorage (ext w) !! CACHE_TIME_KEY = Some (Z_toString t) ->
     (clock (ext w) - t < 1800000)%Z ->
     check dateStr w = (Returned (marketStatus status reason), w))
  /\
  (sessionStorage (ext w) !! CACHE_KEY = None
   \/ sessionStorage (ext w) !! CACHE_TIME_KEY = None
   \/ (exists t, sessionStorage (ext w) !! CACHE_TIME_KEY = Some (Z_toString t)
                 /\ (1800000 <= clock (ext w) - t)%Z) ->
   exists outcome w1,
     generateWithFallback (request dateStr) w = (outcome, w1) /\
     match outcome with
     | Returned result =>
         check dateStr w =
         (Returned result,
          mkWorld (console w1)
            (mkPage (clock (ext w1))
               (<[CACHE_TIME_KEY := Z_toString (clock (ext w))]>
                  (<[CACHE_KEY := JSON_stringify result]> (sessionStorage (ext w))))
               (remote (ext w1)) (sent (ext w1))))
     | Thrown err => check dateStr w = (Thrown err, w1)
     end)
  /\
  (forall result w',
     cacheHit (ext w) = false ->
     check dateStr w = (Returned result, w') ->
     forall later : World (Page Net Schema),
       sessionStorage (ext later) = sessionStorage (ext w') ->
       (clock (ext later) - clock (ext w) < 1800000)%Z ->
       check dateStr later = (Returned result, later)).
Proof.
  split; [|split].
  - intros status reason t. apply checkMarketStatus_fresh_entry.
  - intros Hexpired. apply cacheIsFresh_expired in Hexpired.
    destruct (checkMarketStatus_miss dateStr w) as [out [Hout Hcheck]];
      [unfold cacheHit; by rewrite Hexpired|].
    rewrite (Hout Hexpired) in Hcheck.
    replace (mkWorld (console w) (ext w)) with w in Hcheck by (by destruct w).
    pose proof (generateWithFallback_storage dateStr w) as Hstorage.
    destruct (generateWithFallback (request dateStr) w) as [[result|err] w1].
    + exists (Returned result), w1. split; [done|].
      rewrite Hcheck. unfold set_ext, setItem. cbn [snd] in Hstorage.
      cbn [sessionStorage clock remote sent]. by rewrite Hstorage.
    + by exists (Thrown err), w1.
  - intros result w' Hmiss Hcheck later Hsame Hwindow.
    destruct (checkMarketStatus_miss dateStr w Hmiss) as [out [_ Hrun]].
    rewrite Hcheck in Hrun.
    destruct (generateWithFallback (request dateStr) (mkWorld out (ext w)))
      as [[result'|err] w1] eqn:Hloop; [|discriminate].
    inversion Hrun; subst result' w'. clear Hrun.
    apply tryModels_returned in Hloop as [m [e [e' [_ Hm]]]].
    apply marketStatusRequest_returns in Hm as [status [reason ->]].
    apply (checkMarketStatus_fresh_entry dateStr later status reason (clock (ext w)));
      [| |exact Hwindow]; rewrite Hsame; unfold set_ext, setItem;
      cbn [ext sessionStorage].
    + rewrite lookup_insert_ne by apply cache_keys_differ. apply lookup_insert_eq.
    + apply lookup_insert_eq.
Qed.

(** C9. On a call that the cache does not answer and that returns a
    status, the time stored next to the status is the clock read at the
    entry of the call, in the state [w], whatever the clock shows when the
    requests are over, in the state [w']; and the status stored is the one
    returned. *)
Theorem checkMarketStatus_timestamp_at_entry (dateStr : jsstring)
    (w w' : World (Page Net Schema)) (result : Json) :
  cacheHit (ext w) = false ->
  check dateStr w = (Returned result, w') ->
  sessionStorage (ext w') !! CACHE_TIME_KEY = Some (Z_toString (clock (ext w)))
  /\ sessionStorage (ext w') !! CACHE_KEY = Some (JSON_stringify result)
  /\ exists out w1,
       generateWithFallback (request dateStr) (mkWorld out (ext w))
         = (Returned result, w1)
       /\ clock (ext w') = clock (ext w1).
Proof.
  intros Hmiss Hcheck.
  destruct (checkMarketStatus_miss dateStr w Hmiss) as [out [_ Hrun]].
  rewrite Hcheck in Hrun.
  destruct (generateWithFallback (request dateStr) (mkWorld out (ext w)))
    as [[result'|err] w1] eqn:Hloop; [|discriminate].
  inversion Hrun; subst. unfold set_ext, setItem. cbn [ext sessionStorage clock].
  split; [apply lookup_insert_eq|].
  split; [|by exists out, w1].
  rewrite lookup_insert_ne by apply cache_keys_differ. apply lookup_insert_eq.
Qed.

(** C10. Whenever [checkMarketStatus] throws, the error is the one of the
    exhausted candidates and the session storage is as it was before the
    call: the two entries of the cache are unchanged.  And it throws when
    the cache does not answer and the request fails for every model of the
    list. *)
Theorem checkMarketStatus_failure_keeps_cache (dateStr : jsstring)
    (w : World (Page Net Schema)) :
  (forall e w',
     check dateStr w = (Thrown e, w') ->
     (exists lines, e = exhaustedError lines)
     /\ sessionStorage (ext w') = sessionStorage (ext w)
     /\ sessionStorage (ext w') !! CACHE_KEY = sessionStorage (ext w) !! CACHE_KEY
     /\ sessionStorage (ext w') !! CACHE_TIME_KEY
        = sessionStorage (ext w) !! CACHE_TIME_KEY)
  /\
  (forall errs p',
     cacheHit (ext w) = false ->
     failAll (request dateStr) MODELS (ext w) = Some (errs, p') ->
     exists w',
       check dateStr w
         = (Thrown (exhaustedError (zip_with failureLine MODELS errs)), w')
       /\ ext w' = p').
Proof.
  split.
  - intros e w' Hcheck.
    assert (Hmiss : cacheHit (ext w) = false).
    { destruct (cacheHit (ext w)) eqn:Hhit; [|reflexivity].
      destruct (checkMarketStatus_hit dateStr w Hhit) as [v [_ Hv]].
      rewrite Hcheck in Hv. discriminate. }
    destruct (checkMarketStatus_miss dateStr w Hmiss) as [out [_ Hrun]].
    rewrite Hcheck in Hrun.
    pose proof (generateWithFallback_storage dateStr (mkWorld out (ext w))) as Hstorage.
    destruct (generateWithFallback (request dateStr) (mkWorld out (ext w)))
      as [[result|err] w1] eqn:Hloop; [discriminate|].
    inversion Hrun; subst. cbn [snd ext] in Hstorage.
    split; [by apply tryModels_thrown in Hloop|].
    by rewrite Hstorage.
  - intros errs p' Hmiss Hfail.
    destruct (checkMarketStatus_miss dateStr w Hmiss) as [out [_ Hrun]].
    pose proof (tryModels_failures (request dateStr) MODELS [] []
                  (mkWorld out (ext w)) errs p' Hfail) as Hloop.
    rewrite app_nil_r in Hloop.
    unfold generateWithFallback in Hrun. rewrite Hloop in Hrun.
    eexists. split; [exact Hrun | reflexivity].
Qed.

End Cache.

Lemma cachedStorage_entries :
  cachedStorage !! CACHE_KEY
    = Some (JSON_stringify (marketStatus (lit "CLOSED") (lit "Weekend")))
  /\ cachedStorage !! CACHE_TIME_KEY = Some (Z_toString 1000).
Proof.
  unfold cachedStorage. split.
  - rewrite lookup_insert_ne by apply cache_keys_differ. apply lookup_insert_eq.
  - apply lookup_insert_eq.
Qed.

(** The scenario of the cache: read 29 minutes after it was written, the
    cached status is returned and nothing changes; read 31 minutes after,
    one request is sent and the time of the cache becomes the time of the
    call; and read again right after a first call, the status of the first
    call is returned and nothing changes. *)
Lemma checkMarketStatus_cache_window_witness :
  checkMarketStatus weekendService someSyntaxErrorMessage someDate worldAfter29Minutes
    = (Returned (marketStatus (lit "CLOSED") (lit "Weekend")), worldAfter29Minutes)
  /\ (exists outcome w1,
       generateWithFallback (marketStatusRequest weekendService someDate)
         worldAfter31Minutes = (outcome, w1)
       /\ outcome = Returned (marketStatus (lit "CLOSED") (lit "Weekend"))
       /\ length (sent (ext w1)) = 1
       /\ checkMarketStatus weekendService someSyntaxErrorMessage someDate
            worldAfter31Minutes
          = (outcome,
             mkWorld (console w1)
               (mkPage (clock (ext w1))
                  (<[CACHE_TIME_KEY := Z_toString (1000 + 31 * 60 * 1000)]>
                     (<[CACHE_KEY := JSON_stringify
                                       (marketStatus (lit "CLOSED") (lit "Weekend"))]>
                        cachedStorage))
                  (remote (ext w1)) (sent (ext w1)))))
  /\ (let afterFirstCall :=
        snd (checkMarketStatus weekendService someSyntaxErrorMessage someDate
               worldWithoutCache) in
      checkMarketStatus weekendService someSyntaxErrorMessage someDate afterFirstCall
      = (Returned (marketStatus (lit "CLOSED") (lit "Weekend")), afterFirstCall)).
Proof.
  destruct cachedStorage_entries as [Hstatus Htime].
  split; [|split].
  - apply (proj1 (checkMarketStatus_cache_window weekendService
                    someSyntaxErrorMessage someDate worldAfter29Minutes)
             (lit "CLOSED") (lit "Weekend") 1000%Z Hstatus Htime).
    vm_compute. reflexivity.
  - destruct (proj1 (proj2 (checkMarketStatus_cache_window weekendService
                              someSyntaxErrorMessage someDate worldAfter31Minutes)))
      as [outcome [w1 [Hloop Hcheck]]].
    { right. right. exists 1000%Z. split; [exact Htime | discriminate]. }
    exists outcome, w1. split; [exact Hloop|].
    assert (Hrun : generateWithFallback (marketStatusRequest weekendService someDate)
                     worldAfter31Minutes
                   = (Returned (marketStatus (lit "CLOSED") (lit "Weekend")),
                      mkWorld [ConsoleLog (lit "Trying model: gemini-flash-lite-latest")]
                        (mkPage (1000 + 31 * 60 * 1000 + 250) cachedStorage 1%nat
                           [mkRequest (lit "gemini-flash-lite-latest")
                              (lit "Analyze Indian stock market status for 2026-11-03. Is it a trading holiday or weekend? Return STATUS: [OPEN/CLOSED/UNKNOWN] and REASON: [Reason].")
                              (mkConfig EXPLAINER_SYSTEM_INSTRUCTION None None None)])))
      by (vm_compute; reflexivity).
    rewrite Hrun in Hloop. inversion Hloop; subst outcome w1.
    split; [reflexivity|]. split; [reflexivity|]. exact Hcheck.
  - intros afterFirstCall.
    apply (proj2 (proj2 (checkMarketStatus_cache_window weekendService
                           someSyntaxErrorMessage someDate worldWithoutCache))
             (marketStatus (lit "CLOSED") (lit "Weekend")) afterFirstCall).
    + vm_compute. reflexivity.
    + vm_compute. reflexivity.
    + reflexivity.
    + vm_compute. reflexivity.
Defined.

(** The scenario of the first call: no cache at time 1000, the answer
    arrives at time 1250, and the time stored is 1000. *)
Lemma checkMarketStatus_timestamp_at_entry_witness :
  cacheHit (ext worldWithoutCache) = false
  /\ fst (checkMarketStatus weekendService someSyntaxErrorMessage someDate
            worldWithoutCache)
     = Returned (marketStatus (lit "CLOSED") (lit "Weekend"))
  /\ clock (ext (snd (checkMarketStatus weekendService someSyntaxErrorMessage
                        someDate worldWithoutCache))) = 1250%Z
  /\ sessionStorage
       (ext (snd (checkMarketStatus weekendService someSyntaxErrorMessage
                    someDate worldWithoutCache))) !! CACHE_TIME_KEY
     = Some (lit "1000").
Proof.
  assert (Hmiss : cacheHit (ext worldWithoutCache) = false)
    by (vm_compute; reflexivity).
  assert (Hrun : checkMarketStatus weekendService someSyntaxErrorMessage someDate
                   worldWithoutCache
                 = (Returned (marketStatus (lit "CLOSED") (lit "Weekend")),
                    snd (checkMarketStatus weekendService someSyntaxErrorMessage
                           someDate worldWithoutCache)))
    by (vm_compute; reflexivity).
  split; [exact Hmiss|].
  split; [vm_compute; reflexivity|]. split; [vm_compute; reflexivity|].
  exact (proj1 (checkMarketStatus_timestamp_at_entry weekendService
                  someSyntaxErrorMessage someDate worldWithoutCache _ _ Hmiss Hrun)).
Defined.

(** The scenario of the service that is down: the cache of time 1000 has
    expired, every model fails, the error is thrown to the caller and the
    cache is as it was. *)
Lemma checkMarketStatus_failure_keeps_cache_witness :
  cacheHit (ext worldAfter31Minutes) = false
  /\ (exists e,
        fst (checkMarketStatus downService someSyntaxErrorMessage someDate
               worldAfter31Minutes) = Thrown e
        /\ startsWith (message e)
             (lit "All models failed. Details:" ++ [LF]
              ++ lit "Model gemini-flash-lite-latest failed: 503 Service Unavailable")
           = true)
  /\ sessionStorage
       (ext (snd (checkMarketStatus downService someSyntaxErrorMessage someDate
                    worldAfter31Minutes)))
     = cachedStorage.
Proof.
  assert (Hmiss : cacheHit (ext worldAfter31Minutes) = false)
    by (vm_compute; reflexivity).
  destruct (failAll (marketStatusRequest downService someDate) MODELS
              (ext worldAfter31Minutes)) as [[errs p']|] eqn:Hfail;
    [|by vm_compute in Hfail].
  destruct (proj2 (checkMarketStatus_failure_keeps_cache downService
                     someSyntaxErrorMessage someDate worldAfter31Minutes)
              errs p' Hmiss Hfail) as [w' [Hcheck _]].
  split; [exact Hmiss|]. split.
  - eexists. split; [vm_compute; reflexivity|]. vm_compute; reflexivity.
  - rewrite Hcheck.
    exact (proj1 (proj2 (proj1 (checkMarketStatus_failure_keeps_cache downService
                                  someSyntaxErrorMessage someDate worldAfter31Minutes)
                           _ _ Hcheck))).
Defined.

(** * Further properties of the code *)

(** ** The fallback loop: how it ends and what it invokes *)

Section FallbackOutcome.

Context {E A : Type}.
Implicit Types (generateFn : jsstring -> E -> Completion A * E).

(** When not every candidate fails, there is a first one that returns. *)
Lemma failAll_first_success generateFn (models : list jsstring) (e : E) :
  failAll generateFn models e = None ->
  exists pre m post errs e1 v e2,
    models = pre ++ m :: post
    /\ failAll generateFn pre e = Some (errs, e1)
    /\ generateFn m e1 = (Returned v, e2).
Proof.
  revert e. induction models as [|m models IH]; intros e H; [discriminate|].
  cbn [failAll] in H. destruct (generateFn m e) as [[v|err] e1] eqn:Hm.
  - by exists [], m, models, [], e, v, e1.
  - destruct (failAll generateFn models e1) as [[errs e2]|] eqn:Hrest;
      [discriminate|].
    destruct (IH e1 Hrest) as (pre & m' & post & errs & e2 & v & e3 & -> & Hpre & Hm').
    exists (m :: pre), m', post, (err :: errs), e2, v, e3.
    split; [done|]. split; [|done]. cbn [failAll]. by rewrite Hm, Hpre.
Qed.

(** X1. [generateWithFallback] ends in one of two ways: it returns what the
    first candidate that succeeds returned, after one failure line for each
    candidate before it; or every one of the 11 candidates failed and it
    throws the error that lists the 11 failures.  It never rethrows the
    error of a candidate as it is. *)
Theorem generateWithFallback_outcome generateFn (w : World E) :
  (exists pre m post errs e1 v e2,
     MODELS = pre ++ m :: post
     /\ failAll generateFn pre (ext w) = Some (errs, e1)
     /\ generateFn m e1 = (Returned v, e2)
     /\ generateWithFallback generateFn w =
        (Returned v,
         mkWorld (console w ++ failureEntries pre errs
                  ++ [ConsoleLog (lit "Trying model: " ++ m)]) e2))
  \/
  (exists errs e',
     failAll generateFn MODELS (ext w) = Some (errs, e')
     /\ length errs = 11
     /\ generateWithFallback generateFn w =
        (Thrown (exhaustedError (zip_with failureLine MODELS errs)),
         mkWorld (console w ++ failureEntries MODELS errs) e')).
Proof.
  unfold generateWithFallback.
  destruct (failAll generateFn MODELS (ext w)) as [[errs e']|] eqn:Hall.
  - right. exists errs, e'. split; [done|].
    split; [by apply failAll_length in Hall|].
    rewrite <- (app_nil_r MODELS) at 1.
    by rewrite (tryModels_failures _ MODELS [] [] w errs e' Hall).
  - left. destruct (failAll_first_success _ _ _ Hall)
      as (pre & m & post & errs & e1 & v & e2 & HM & Hpre & Hm).
    exists pre, m, post, errs, e1, v, e2. repeat (split; [done|]).
    rewrite HM, (tryModels_failures _ pre (m :: post) [] w errs e1 Hpre).
    cbn [tryModels console_write ext]. rewrite Hm.
    unfold set_ext, console_write. cbn [console]. by rewrite <- app_assoc.
Qed.

(** The models the loop invokes the request-building function on are the
    first [k] candidates, in order; when it throws, all of them. *)
Lemma tryModels_invocations generateFn (models errors : list jsstring)
    (w : World (E * list jsstring)) :
  exists k,
    k <= length models
    /\ (models <> [] -> 1 <= k)
    /\ snd (ext (snd (tryModels (counted generateFn) models errors w)))
       = snd (ext w) ++ firstn k models
    /\ (forall e, fst (tryModels (counted generateFn) models errors w) = Thrown e ->
        k = length models).
Proof.
  revert errors w. induction models as [|m models IH]; intros errors w.
  - exists 0. cbn. rewrite app_nil_r. repeat split; done.
  - destruct (generateFn m (fst (ext w))) as [[v|err] e1] eqn:Hm.
    + exists 1. cbn [tryModels console_write ext]. unfold counted.
      rewrite Hm. cbn [length firstn set_ext ext snd fst].
      repeat split; [lia | lia | discriminate].
    + destruct (IH (errors ++ [failureLine m err])
                  (console_write (ConsoleWarn (failureLine m err))
                     (set_ext (e1, snd (ext w) ++ [m])
                        (console_write (ConsoleLog (lit "Trying model: " ++ m)) w))))
        as (k & Hk & _ & Hcalls & Hthrown).
      exists (S k). cbn [tryModels console_write ext]. unfold counted at 1 3.
      rewrite Hm. cbn [length firstn].
      split; [lia|]. split; [lia|]. split.
      * rewrite Hcalls. cbn [console_write set_ext ext snd].
        by rewrite <- app_assoc.
      * intros e He. f_equal. by eapply Hthrown.
Qed.

(** X2. [generateWithFallback] invokes the request-building function at least
    once and at most 11 times, on the first models of the list in their
    order and never twice on the same; when it throws, it has invoked it on
    all 11. *)
Theorem generateWithFallback_invocations generateFn (w : World (E * list jsstring)) :
  exists k,
    1 <= k <= 11
    /\ snd (ext (snd (generateWithFallback (counted generateFn) w)))
       = snd (ext w) ++ firstn k MODELS
    /\ NoDup (firstn k MODELS)
    /\ (forall e, fst (generateWithFallback (counted generateFn) w) = Thrown e ->
        k = 11).
Proof.
  destruct (tryModels_invocations generateFn MODELS [] w)
    as (k & Hk & Hpos & Hcalls & Hthrown).
  exists k. split; [split; [by apply Hpos | exact Hk]|].
  split; [exact Hcalls|]. split; [|exact Hthrown].
  assert (Hdistinct : NoDup MODELS).
  { apply (bool_decide_unpack _). vm_compute. reflexivity. }
  rewrite <- (firstn_skipn k MODELS) in Hdistinct.
  by apply NoDup_app in Hdistinct as [? _].
Qed.

End FallbackOutcome.

(** ** What a match of the engine is *)

Lemma rmatch_seq (ic : bool) (r1 r2 : Regex) (pos : nat) (s : jsstring)
    (caps : Captures) (k : Continuation) :
  rmatch ic (RSeq r1 r2) pos s caps k =
  rmatch ic r1 pos s caps (fun pos' s' caps' => rmatch ic r2 pos' s' caps' k).
Proof. reflexivity. Qed.

Lemma rmatch_alt (ic : bool) (r1 r2 : Regex) (pos : nat) (s : jsstring)
    (caps : Captures) (k : Continuation) :
  rmatch ic (RAlt r1 r2) pos s caps k =
  match rmatch ic r1 pos s caps k with
  | Some e => Some e
  | None => rmatch ic r2 pos s caps k
  end.
Proof. reflexivity. Qed.

Lemma rmatch_group (ic : bool) (n : nat) (r : Regex) (pos : nat) (s : jsstring)
    (caps : Captures) (k : Continuation) :
  rmatch ic (RGroup n r) pos s caps k =
  rmatch ic r pos s caps
    (fun pos' s' caps' => k pos' s' ((n, firstn (pos' - pos) s) :: caps')).
Proof. reflexivity. Qed.

(** The rest of the pattern is entered at the end of what an iteration of
    a star consumed. *)
Lemma star_loop_end
    (body : nat -> jsstring -> Captures -> Continuation -> option MatchEnd) :
  (forall pos s caps k e, body pos s caps k = Some e ->
     exists n caps', n <= length s /\ k (pos + n) (skipn n s) caps' = Some e) ->
  forall fuel pos s caps k e, star_loop body fuel pos s caps k = Some e ->
    exists n caps', n <= length s /\ k (pos + n) (skipn n s) caps' = Some e.
Proof.
  intros Hbody. induction fuel as [|fuel IH]; intros pos s caps k e H.
  - exists 0, caps. rewrite Nat.add_0_r. split; [lia | exact H].
  - cbn [star_loop] in H.
    destruct (body pos s caps _) as [e'|] eqn:Hiter.
    + inversion H; subst e'. clear H.
      apply Hbody in Hiter as (n & caps' & Hn & Hiter).
      destruct (pos + n =? pos)%nat; [discriminate|].
      apply IH in Hiter as (m & caps'' & Hm & Hk).
      exists (n + m), caps''. rewrite length_skipn in Hm.
      rewrite Nat.add_assoc. rewrite skipn_skipn in Hk.
      rewrite (Nat.add_comm n m). split; [lia | exact Hk].
    + exists 0, caps. rewrite Nat.add_0_r. split; [lia | exact H].
Qed.

(** A match ends where the rest of the pattern was entered: after some
    [n] characters of the text. *)
Lemma rmatch_end (ic : bool) (r : Regex) :
  forall pos s caps k e, rmatch ic r pos s caps k = Some e ->
    exists n caps', n <= length s /\ k (pos + n) (skipn n s) caps' = Some e.
Proof.
  induction r as [|cc|r1 IH1 r2 IH2|r1 IH1 r2 IH2|r1 IH1|g r1 IH1| |];
    intros pos s caps k e H; cbn [rmatch] in H.
  - exists 0, caps. rewrite Nat.add_0_r. split; [lia | exact H].
  - destruct s as [|c s]; [discriminate|].
    destruct (in_class ic cc c); [|discriminate].
    exists 1, caps. rewrite Nat.add_1_r. cbn [length skipn]. split; [lia | exact H].
  - apply IH1 in H as (n & caps1 & Hn & H).
    apply IH2 in H as (m & caps2 & Hm & H).
    exists (n + m), caps2. rewrite length_skipn in Hm.
    rewrite Nat.add_assoc. rewrite skipn_skipn in H.
    rewrite (Nat.add_comm n m). split; [lia | exact H].
  - destruct (rmatch ic r1 pos s caps k) as [e'|] eqn:H1.
    + inversion H; subst e'. by apply IH1 in H1.
    + by apply IH2 in H.
  - by apply (star_loop_end _ IH1) in H.
  - apply IH1 in H as (n & caps1 & Hn & H). by exists n, ((g, firstn (pos + n - pos) s) :: caps1).
  - destruct (pos =? 0)%nat; [|discriminate].
    exists 0, caps. rewrite Nat.add_0_r. split; [lia | exact H].
  - destruct s; [|discriminate].
    exists 0, caps. rewrite Nat.add_0_r. split; [lia | exact H].
Qed.

(** The first match from a start index: what was skipped, what was
    matched, and what is left. *)
Lemma exec_from_end (ic : bool) (r : Regex) (s : jsstring) :
  forall pos m, exec_from ic r pos s = Some m ->
    exists skip n,
      skip + n <= length s
      /\ index m = pos + skip
      /\ matched m = firstn n (skipn skip s)
      /\ after m = skipn n (skipn skip s)
      /\ rmatch ic r (pos + skip) (skipn skip s) [] found
         = Some (pos + skip + n, after m, groups m).
Proof.
  induction s as [|c s IH]; intros pos m H; rewrite exec_from_unfold in H.
  - destruct (rmatch ic r pos [] [] found) as [[[pos' s'] caps']|] eqn:Hhere;
      [|discriminate].
    inversion H; subst m. clear H. cbn [index matched after groups].
    destruct (rmatch_end _ _ _ _ _ _ _ Hhere) as (n & caps1 & Hn & Hk).
    inversion Hk; subst. exists 0, n.
    rewrite Nat.add_0_r. cbn [skipn]. replace (pos + n - pos) with n by lia.
    repeat split; [cbn [length] in *; lia | exact Hhere].
  - destruct (rmatch ic r pos (c :: s) [] found) as [[[pos' s'] caps']|] eqn:Hhere.
    + inversion H; subst m. clear H. cbn [index matched after groups].
      destruct (rmatch_end _ _ _ _ _ _ _ Hhere) as (n & caps1 & Hn & Hk).
      inversion Hk; subst. exists 0, n.
      rewrite Nat.add_0_r. cbn [skipn]. replace (pos + n - pos) with n by lia.
      repeat split; [lia | exact Hhere].
    + apply IH in H as (skip & n & Hlen & Hindex & Hmatched & Hafter & Hr).
      exists (S skip), n. cbn [skipn length]. rewrite Nat.add_succ_r.
      repeat split; [lia | lia | done | done | exact Hr].
Qed.

(** A text is what is before a match, the match, and what is after it. *)
Lemma String_match_parts (ic : bool) (r : Regex) (text : jsstring) (m : MatchResult) :
  String_match ic r text = Some m ->
  text = firstn (index m) text ++ matched m ++ after m.
Proof.
  intros H. apply exec_from_end in H as (skip & n & _ & -> & -> & -> & _).
  cbn [Nat.add]. by rewrite !firstn_skipn.
Qed.

(** ** The two patterns read in the text of a response *)

(** A literal under the [i] flag matches the characters that fold to
    its own. *)
Lemma rmatch_lit_fold (l : jsstring) :
  forall s pos caps k e, rmatch true (RLit l) pos s caps k = Some e ->
    k (pos + length l) (skipn (length l) s) caps = Some e
    /\ toUpperCase (firstn (length l) s) = toUpperCase l.
Proof.
  induction l as [|c l IH]; intros s pos caps k e H.
  - cbn in H. cbn. rewrite Nat.add_0_r. by destruct s.
  - destruct l as [|c' l].
    + destruct s as [|d s]; cbn [RLit rmatch in_class] in H; [discriminate|].
      destruct (N.eqb_spec (canonicalize d) (canonicalize c)) as [Hd|];
        [|discriminate].
      cbn. rewrite Nat.add_1_r, Hd. by destruct s.
    + change (RLit (c :: c' :: l)) with (RSeq (RSet (CcChar c)) (RLit (c' :: l))) in H.
      cbn [rmatch] in H. destruct s as [|d s]; [discriminate|].
      cbn [in_class] in H.
      destruct (N.eqb_spec (canonicalize d) (canonicalize c)) as [Hd|];
        [|discriminate].
      apply IH in H as [Hk Hfold].
      split.
      * change (length (c :: c' :: l)) with (S (length (c' :: l))).
        rewrite Nat.add_succ_r. exact Hk.
      * change (length (c :: c' :: l)) with (S (length (c' :: l))).
        cbn [firstn]. unfold toUpperCase in *. cbn [List.map].
        by rewrite Hd, Hfold.
Qed.

(** The group of [STATUS_PATTERN] holds one of the three words, in any
    case. *)
Lemma STATUS_PATTERN_capture (pos : nat) (s : jsstring) (e : MatchEnd) :
  rmatch true STATUS_PATTERN pos s [] found = Some e ->
  exists g, group 1 (snd e) = Some g /\ toUpperCase g ∈ STATUS_VALUES.
Proof.
  unfold STATUS_PATTERN. rewrite rmatch_seq. intros H.
  apply rmatch_lit_fold in H as [H _]. rewrite rmatch_seq in H.
  apply rmatch_end in H as (n & caps & _ & H).
  rewrite rmatch_group, !rmatch_alt in H.
  set (t := skipn n (skipn (length (lit "STATUS:")) s)) in *.
  set (p := pos + length (lit "STATUS:") + n) in *.
  assert (Hword : forall l, toUpperCase l = l -> l ∈ STATUS_VALUES ->
            rmatch true (RLit l) p t caps
              (fun pos' s' caps' => found pos' s' ((1, firstn (pos' - p) t) :: caps'))
            = Some e ->
            exists g, group 1 (snd e) = Some g /\ toUpperCase g ∈ STATUS_VALUES).
  { intros l Hupper Hl Hm. apply rmatch_lit_fold in Hm as [Hk Hfold].
    unfold found in Hk. inversion Hk; subst e. cbn [snd group Nat.eqb].
    eexists. split; [reflexivity|].
    replace (p + length l - p) with (length l) by lia.
    by rewrite Hfold, Hupper. }
  destruct (rmatch true (RLit (lit "OPEN")) p t caps _) as [e1|] eqn:H1.
  { inversion H; subst e1. apply (Hword _ eq_refl) in H1; [done|].
    unfold STATUS_VALUES. set_solver. }
  destruct (rmatch true (RLit (lit "CLOSED")) p t caps _) as [e2|] eqn:H2.
  { inversion H; subst e2. apply (Hword _ eq_refl) in H2; [done|].
    unfold STATUS_VALUES. set_solver. }
  apply (Hword _ eq_refl) in H; [done|]. unfold STATUS_VALUES. set_solver.
Qed.


(** A greedy star over a class enters the rest of the pattern after a
    run of characters of the class. *)
Lemma greedy_end (ic : bool) (cc : CharClass) (s : jsstring) :
  forall pos caps k e, greedy ic cc pos s caps k = Some e ->
    exists n, n <= length s
      /\ Forall (fun c => in_class ic cc c = true) (firstn n s)
      /\ k (pos + n) (skipn n s) caps = Some e.
Proof.
  induction s as [|c s IH]; intros pos caps k e H; cbn [greedy] in H.
  - exists 0. rewrite Nat.add_0_r. by repeat split.
  - destruct (in_class ic cc c) eqn:Hc.
    + destruct (greedy ic cc (S pos) s caps k) as [e'|] eqn:Hmore.
      * inversion H; subst e'. apply IH in Hmore as (n & Hn & Hrun & Hk).
        exists (S n). cbn [length firstn skipn]. rewrite Nat.add_succ_r.
        repeat split; [lia | by constructor | exact Hk].
      * exists 0. rewrite Nat.add_0_r. repeat split; [lia | constructor | exact H].
    + exists 0. rewrite Nat.add_0_r. repeat split; [lia | constructor | exact H].
Qed.

Lemma occurs_in_skipn (g s : jsstring) (n : nat) :
  occurs_in g (skipn n s) -> occurs_in g s.
Proof.
  intros (before & rest & H). exists (firstn n s ++ before), rest.
  by rewrite <- app_assoc, <- H, firstn_skipn.
Qed.

Lemma occurs_in_firstn (s : jsstring) (n : nat) : occurs_in (firstn n s) s.
Proof. exists [], (skipn n s). cbn [app]. by rewrite firstn_skipn. Qed.

(** The group of [REASON_PATTERN] holds characters of one line of the
    text. *)
Lemma REASON_PATTERN_capture (pos : nat) (s : jsstring) (e : MatchEnd) :
  rmatch true REASON_PATTERN pos s [] found = Some e ->
  exists g, group 1 (snd e) = Some g
    /\ Forall (fun c => is_line_terminator c = false) g
    /\ occurs_in g s.
Proof.
  unfold REASON_PATTERN. rewrite rmatch_seq. intros H.
  apply rmatch_lit_fold in H as [H _]. rewrite rmatch_seq in H.
  apply rmatch_end in H as (n & caps & _ & H).
  rewrite rmatch_group, rmatch_star_class in H.
  apply greedy_end in H as (len & _ & Hrun & H).
  unfold found in H. inversion H; subst e. cbn [snd group Nat.eqb].
  eexists. split; [reflexivity|].
  match goal with |- context [firstn ?a _] => replace a with len by lia end.
  split.
  - eapply Forall_impl; [exact Hrun|]. cbn [in_class]. intros c Hc.
    by apply negb_true_iff in Hc.
  - do 2 eapply occurs_in_skipn. apply occurs_in_firstn.
Qed.

(** X4. Whatever the text of the response, the [reason] built from it is the
    default text, or a part of one line of the response: it has no line
    terminator, it neither begins nor ends with white space, and it occurs
    in the response as it is. *)
Theorem statusOfText_reason (text : jsstring) :
  exists status reason,
    statusOfText text = marketStatus status reason
    /\ (reason = lit "Requires verification"
        \/ Forall (fun c => is_line_terminator c = false) reason
           /\ edges_avoid is_space reason
           /\ occurs_in reason text).
Proof.
  unfold statusOfText.
  destruct (String_match true REASON_PATTERN text) as [m|] eqn:Hm.
  - apply exec_from_end in Hm as (skip & n & _ & _ & _ & _ & Hm).
    apply REASON_PATTERN_capture in Hm as (g & Hg & Hline & Hocc). cbn [snd] in Hg.
    eexists _, _. split; [reflexivity|]. right. rewrite Hg. cbn [from_option id].
    destruct (trim_split g) as (pad1 & pad2 & _ & _ & Hsplit & Hedges).
    split; [|split; [exact Hedges|]].
    + rewrite Hsplit in Hline.
      apply Forall_app in Hline as [_ Hline]. by apply Forall_app in Hline as [Hline _].
    + apply (occurs_in_skipn g text skip) in Hocc.
      destruct Hocc as (before & rest & Htext).
      exists (before ++ pad1), (pad2 ++ rest).
      rewrite Htext, Hsplit at 1. by rewrite <- !app_assoc.
  - eexists _, _. split; [reflexivity|]. by left.
Qed.

(** ** What the scan of [cleanJson] finds in any text *)

Lemma json_delimiters_closed_dec (d : N) (s : jsstring) :
  (exists closing, json_delimiters d closing /\ closing ∈ s)
  \/ (forall closing, json_delimiters d closing -> closing ∉ s).
Proof.
  destruct (N.eq_dec d (ch "{")) as [->|Hbrace].
  - destruct (decide (ch "}" ∈ s)) as [Hin|Hout].
    + left. exists (ch "}"). split; [by left | done].
    + right. intros closing [[_ ->]|[Habs _]]; [done|].
      vm_compute in Habs. discriminate Habs.
  - destruct (N.eq_dec d (ch "[")) as [->|Hbracket].
    + destruct (decide (ch "]" ∈ s)) as [Hin|Hout].
      * left. exists (ch "]"). split; [by right | done].
      * right. intros closing [[Habs _]|[_ ->]]; [|done].
        vm_compute in Habs. discriminate Habs.
    + right. by intros closing [[? _]|[? _]].
Qed.

Lemma rmatch_delimited_unclosed (opening closing d : N) (s : jsstring) (pos : nat)
    (caps : Captures) (k : Continuation) :
  closing ∉ s ->
  rmatch false (delimited opening closing) pos (d :: s) caps k = None.
Proof.
  intros Hout. unfold delimited, anyChar. rewrite rmatch_seq.
  cbn [rmatch in_class]. destruct (d =? opening)%N; [|reflexivity].
  change (star_loop _ _ _ _ _ _) with
    (rmatch false (RStar (RSet anyClass)) (S pos) s caps
       (fun p t cs => rmatch false (RSet (CcChar closing)) p t cs k)).
  rewrite rmatch_star_class. by apply greedy_any_no_closing.
Qed.

Lemma rmatch_JSON_LIKE_unclosed (d : N) (s : jsstring) (pos : nat) :
  (forall closing, json_delimiters d closing -> closing ∉ s) ->
  rmatch false JSON_LIKE pos (d :: s) [] found = None.
Proof.
  intros Hout. rewrite JSON_LIKE_alternatives, rmatch_group, rmatch_alt.
  destruct (N.eq_dec d (ch "{")) as [->|Hbrace].
  - rewrite rmatch_delimited_unclosed by (apply Hout; by left).
    apply rmatch_delimited_other. intros Habs. vm_compute in Habs. discriminate Habs.
  - rewrite rmatch_delimited_other by done.
    destruct (N.eq_dec d (ch "[")) as [->|Hbracket].
    + apply rmatch_delimited_unclosed. apply Hout. by right.
    + by apply rmatch_delimited_other.
Qed.

Lemma exec_from_JSON_LIKE_cases (s : jsstring) :
  forall pos,
    (exists before opening body closing rest caps,
       json_delimiters opening closing
       /\ s = before ++ opening :: body ++ closing :: rest
       /\ unclosed before (opening :: body ++ closing :: rest)
       /\ (closing ∉ rest)
       /\ exec_from false JSON_LIKE pos s =
          Some (mkMatch (pos + length before) (opening :: body ++ [closing]) caps rest))
    \/ (exec_from false JSON_LIKE pos s = None
        /\ forall opening closing, json_delimiters opening closing ->
             ~ has_pair opening closing s).
Proof.
  induction s as [|d s IH]; intros pos.
  - right. split; [reflexivity|]. intros o c _ (a & b & c' & H). by destruct a.
  - destruct (json_delimiters_closed_dec d s) as [(closing & Hkind & Hin)|Hout].
    + left. apply list_elem_of_split_r in Hin as (body & rest & -> & Hrest).
      destruct (exec_from_JSON_LIKE_here d closing body rest pos Hkind Hrest)
        as [caps Hexec].
      exists [], d, body, closing, rest, caps. cbn [app length].
      rewrite Nat.add_0_r. repeat split; try done.
      intros a b o c H. by destruct a.
    + rewrite exec_from_unfold, rmatch_JSON_LIKE_unclosed by done.
      destruct (IH (S pos))
        as [(before & opening & body & closing & rest & caps
             & Hkind & -> & Hleft & Hrest & Hexec)|[Hnone Hpairs]].
      * left. exists (d :: before), opening, body, closing, rest, caps.
        cbn [app length]. rewrite Nat.add_succ_r. repeat split; try done.
        intros a b o c Hsplit Hoc. destruct a as [|d' a].
        -- cbn [app] in Hsplit. inversion Hsplit; subst. by apply Hout.
        -- cbn [app] in Hsplit. inversion Hsplit; subst. by eapply Hleft.
      * right. split; [exact Hnone|]. intros o c Hoc (a & b & c' & Hsplit).
        destruct a as [|d' a]; cbn [app] in Hsplit; inversion Hsplit; subst.
        -- apply (Hout c Hoc). set_solver.
        -- apply (Hpairs o c Hoc). by exists a, b, c'.
Qed.

(** X5. For every text, [cleanJson] does one of two things.  When some
    opening brace is followed somewhere by a closing brace, or some opening
    bracket by a closing bracket, it returns the text from the first such
    opening character to the last closing character of its kind, both
    included, whatever is between them.  When the text has no such pair, it
    returns the trimmed text without its fences. *)
Theorem cleanJson_scan (text : jsstring) :
  (exists before opening body closing rest,
     json_delimiters opening closing
     /\ text = before ++ opening :: body ++ closing :: rest
     /\ unclosed before (opening :: body ++ closing :: rest)
     /\ (closing ∉ rest)
     /\ cleanJson text = opening :: body ++ [closing])
  \/ ((forall opening closing, json_delimiters opening closing ->
         ~ has_pair opening closing text)
      /\ cleanJson text = stripFences text).
Proof.
  unfold cleanJson, String_match.
  destruct (exec_from_JSON_LIKE_cases text 0)
    as [(before & opening & body & closing & rest & caps
         & Hkind & Htext & Hleft & Hrest & Hexec)|[Hnone Hpairs]].
  - left. exists before, opening, body, closing, rest.
    rewrite Hexec. by repeat split.
  - right. rewrite Hnone. by split.
Qed.

(** ** What [cleanJson] returns is a trimmed part of the text *)

Lemma last_app_Some (k t : jsstring) (c : N) :
  last t = Some c -> last (k ++ t) = Some c.
Proof.
  intros H. apply last_Some in H as [front ->].
  by rewrite app_assoc, last_snoc.
Qed.

Lemma head_app_Some (t k : jsstring) (c : N) :
  head t = Some c -> head (t ++ k) = Some c.
Proof. by destruct t. Qed.

(** [s.replace(/^l\s*/, '')] of a trimmed text is trimmed, and is the end
    of the text. *)
Lemma replace_fence_open_trimmed (l s : jsstring) :
  edges_avoid is_space s ->
  exists k,
    s = k ++ replace_empty (RSeq RBol (RSeq (RLit l) (RStar space))) s
    /\ edges_avoid is_space (replace_empty (RSeq RBol (RSeq (RLit l) (RStar space))) s).
Proof.
  intros Hs. rewrite replace_fence_open. destruct (startsWith s l).
  - destruct (trimStart_split (skipn (length l) s)) as (ws & _ & Hsplit).
    exists (firstn (length l) s ++ ws). split.
    + by rewrite <- app_assoc, <- Hsplit, firstn_skipn.
    + split; intros c Hc.
      * by apply head_trimStart in Hc.
      * apply (proj2 Hs). rewrite <- (firstn_skipn (length l) s), Hsplit.
        by do 2 apply last_app_Some.
  - by exists [].
Qed.

(** [s.replace(/\s*```$/, '')] of a trimmed text is trimmed, and is the
    beginning of the text. *)
Lemma replace_fence_close_trimmed (s : jsstring) :
  edges_avoid is_space s ->
  exists k,
    s = replace_empty FENCE_CLOSE s ++ k
    /\ edges_avoid is_space (replace_empty FENCE_CLOSE s).
Proof.
  intros Hs. destruct (endsWith s (lit "```")) eqn:Hends.
  - apply endsWith_spec in Hends as [front ->].
    destruct (trimStart_split (rev front)) as (ws & Hws & Hsplit).
    apply (f_equal (@rev N)) in Hsplit.
    rewrite rev_involutive, rev_app_distr in Hsplit.
    fold (trimEnd front) in Hsplit.
    assert (Hlast : forall c, last (trimEnd front) = Some c -> is_space c = false).
    { intros c Hc. apply last_Some in Hc as [front' Hc].
      apply (head_trimStart (rev front)). unfold trimEnd in Hc.
      apply (f_equal (@rev N)) in Hc.
      rewrite rev_involutive, rev_app_distr in Hc. by rewrite Hc. }
    assert (Hreplace : replace_empty FENCE_CLOSE (front ++ lit "```") = trimEnd front).
    { rewrite Hsplit at 1. rewrite <- app_assoc.
      apply replace_fence_close_found; [by apply all_space_rev | exact Hlast]. }
    rewrite Hreplace. exists (rev ws ++ lit "```"). split.
    + by rewrite app_assoc, <- Hsplit.
    + split; [|exact Hlast]. intros c Hc. apply (proj1 Hs).
      rewrite Hsplit, <- app_assoc. by apply head_app_Some.
  - exists []. rewrite replace_fence_close_none.
    + by rewrite app_nil_r.
    + intros s' ->. assert (H : endsWith (s' ++ lit "```") (lit "```") = true)
        by (apply endsWith_spec; by exists s').
      by rewrite H in Hends.
Qed.

(** The trimmed text without its fences: a part of the text, with no
    white space at its ends. *)
Lemma stripFences_trimmed (text : jsstring) :
  occurs_in (stripFences text) text /\ edges_avoid is_space (stripFences text).
Proof.
  unfold stripFences.
  destruct (trim_split text) as (pad1 & pad2 & _ & _ & Htext & H0).
  destruct (replace_fence_open_trimmed (lit "```json") _ H0) as (k1 & Hk1 & H1).
  fold FENCE_JSON_OPEN in Hk1, H1.
  destruct (replace_fence_open_trimmed (lit "```") _ H1) as (k2 & Hk2 & H2).
  fold FENCE_OPEN in Hk2, H2.
  destruct (replace_fence_close_trimmed _ H2) as (k3 & Hk3 & H3).
  split; [|exact H3].
  exists (pad1 ++ k1 ++ k2), (k3 ++ pad2).
  rewrite Htext at 1. rewrite Hk1 at 1. rewrite Hk2 at 1. rewrite Hk3 at 1.
  by rewrite <- !app_assoc.
Qed.

(** X6. [cleanJson] never adds or changes a character: what it returns
    occurs in the text it was given, as one piece. *)
Theorem cleanJson_part_of_text (text : jsstring) :
  occurs_in (cleanJson text) text.
Proof.
  unfold cleanJson, String_match.
  destruct (exec_from_JSON_LIKE_cases text 0)
    as [(before & opening & body & closing & rest & caps
         & _ & Htext & _ & _ & Hexec)|[Hnone _]].
  - rewrite Hexec. cbn [matched]. exists before, rest.
    rewrite Htext. cbn [app]. by rewrite <- app_assoc.
  - rewrite Hnone. apply stripFences_trimmed.
Qed.

(** X7. What [cleanJson] returns never begins and never ends with white
    space, whatever the text. *)
Theorem cleanJson_trimmed (text : jsstring) :
  edges_avoid is_space (cleanJson text).
Proof.
  unfold cleanJson, String_match.
  destruct (exec_from_JSON_LIKE_cases text 0)
    as [(before & opening & body & closing & rest & caps
         & Hkind & _ & _ & _ & Hexec)|[Hnone _]].
  - rewrite Hexec. cbn [matched]. split; intros c Hc.
    + cbn [head] in Hc. inversion Hc; subst c.
      by destruct Hkind as [[-> _]|[-> _]].
    + change (opening :: body ++ [closing]) with ((opening :: body) ++ [closing]) in Hc.
      rewrite last_snoc in Hc. inversion Hc; subst c.
      by destruct Hkind as [[_ ->]|[_ ->]].
  - rewrite Hnone. apply stripFences_trimmed.
Qed.

(** ** What a run of the loop leaves behind *)

(** When every request adds one item to a log kept in the state, the loop
    adds the items of the first [k] candidates, in order; all of them when
    it throws. *)
Lemma tryModels_trace {E A T : Type} (generateFn : jsstring -> E -> Completion A * E)
    (log : E -> list T) (item : jsstring -> T) :
  (forall m e, log (snd (generateFn m e)) = log e ++ [item m]) ->
  forall (models errors : list jsstring) (w : World E),
  exists k,
    k <= length models
    /\ (models <> [] -> 1 <= k)
    /\ log (ext (snd (tryModels generateFn models errors w)))
       = log (ext w) ++ List.map item (firstn k models)
    /\ (forall e, fst (tryModels generateFn models errors w) = Thrown e ->
        k = length models).
Proof.
  intros Hstep. induction models as [|m models IH]; intros errors w.
  - exists 0. cbn. rewrite app_nil_r. repeat split; done.
  - cbn [tryModels]. specialize (Hstep m (ext w)).
    change (ext (console_write (ConsoleLog (lit "Trying model: " ++ m)) w))
      with (ext w).
    destruct (generateFn m (ext w)) as [[v|err] e1]; cbn [snd] in Hstep.
    + exists 1. cbn [length firstn List.map set_ext ext snd fst].
      repeat split; [lia | lia | done | discriminate].
    + match goal with
      | |- context [tryModels _ models ?errs ?w1] =>
          destruct (IH errs w1) as (k & Hk & _ & Hlog & Hthrown)
      end.
      exists (S k). cbn [length firstn List.map]. repeat split; [lia | lia | |].
      * rewrite Hlog. cbn [console_write set_ext ext]. rewrite Hstep.
        by rewrite <- app_assoc.
      * intros e He. f_equal. by eapply Hthrown.
Qed.

(** The loop writes on the console with [console.log] and [console.warn]
    only. *)
Lemma tryModels_console {E A : Type} (generateFn : jsstring -> E -> Completion A * E)
    (models errors : list jsstring) (w : World E) :
  exists entries,
    console (snd (tryModels generateFn models errors w)) = console w ++ entries
    /\ Forall (fun entry => is_progress_entry entry = true) entries.
Proof.
  revert errors w. induction models as [|m models IH]; intros errors w.
  - exists []. cbn. by rewrite app_nil_r.
  - cbn [tryModels].
    change (ext (console_write (ConsoleLog (lit "Trying model: " ++ m)) w))
      with (ext w).
    destruct (generateFn m (ext w)) as [[v|err] e1].
    + eexists [_]. cbn [snd set_ext console_write console]. split; [reflexivity|].
      by repeat constructor.
    + match goal with
      | |- context [tryModels _ models ?errs ?w1] =>
          destruct (IH errs w1) as (entries & Hconsole & Hentries)
      end.
      eexists (_ :: _ :: entries). split.
      * rewrite Hconsole. cbn [console_write set_ext console].
        rewrite <- !app_assoc. reflexivity.
      * by repeat constructor.
Qed.

Section CacheCalls.

Context {Net Schema : Type}.
Variable service : Request Schema -> Net -> Z -> Completion Response * Net * Z.
Variable syntaxErrorMessage : jsstring -> jsstring.

Local Abbreviation check := (checkMarketStatus service syntaxErrorMessage).
Local Abbreviation request := (marketStatusRequest service).

Lemma marketStatusRequest_sent (dateStr m : jsstring) (p : Page Net Schema) :
  sent (snd (request dateStr m p)) = sent p ++ [statusRequestOf dateStr m].
Proof.
  unfold marketStatusRequest, generateContent, statusRequestOf.
  destruct (service _ _ _) as [[[response|err] remote'] clock']; reflexivity.
Qed.

(** X8. The requests of a call of [checkMarketStatus]: none when the cache
    answers; otherwise one for each of the first [k] models of the list, in
    order, with [1 <= k <= 11], each with the same prompt about the date
    and a configuration that holds the system instruction and nothing else
    (no search tool, no MIME type, no schema); and one for each of the 11
    models when the call throws. *)
Theorem checkMarketStatus_requests (dateStr : jsstring) (w : World (Page Net Schema)) :
  exists k,
    k <= 11
    /\ sent (ext (snd (check dateStr w)))
       = sent (ext w) ++ List.map (statusRequestOf dateStr) (firstn k MODELS)
    /\ (cacheHit (ext w) = true -> k = 0)
    /\ (cacheHit (ext w) = false -> 1 <= k)
    /\ (forall e, fst (check dateStr w) = Thrown e -> k = 11).
Proof.
  destruct (cacheHit (ext w)) eqn:Hhit.
  - destruct (checkMarketStatus_hit service syntaxErrorMessage dateStr w Hhit)
      as (v & _ & ->).
    exists 0. cbn. rewrite app_nil_r. repeat split; (lia || done).
  - destruct (checkMarketStatus_miss service syntaxErrorMessage dateStr w Hhit)
      as (out & _ & ->).
    destruct (tryModels_trace (request dateStr) sent (statusRequestOf dateStr)
                (marketStatusRequest_sent dateStr) MODELS [] (mkWorld out (ext w)))
      as (k & Hk & Hpos & Hsent & Hthrown).
    exists k. unfold generateWithFallback.
    destruct (tryModels (request dateStr) MODELS [] (mkWorld out (ext w)))
      as [[result|err] w1]; cbn [fst snd ext set_ext setItem sent] in *.
    + repeat split; [exact Hk | exact Hsent | done | by intros; apply Hpos | done].
    + repeat split; [exact Hk | exact Hsent | done | by intros; apply Hpos |].
      intros e _. by eapply Hthrown.
Qed.

(** X9. What a call of [checkMarketStatus] writes on the console: when the
    entry of the cache is fresh and its payload does not parse, first one
    [console.error] entry, [Failed to parse cached market status] with the
    [SyntaxError]; then the [console.log] and [console.warn] entries of the
    loop; and nothing at all when the cache answers. *)
Theorem checkMarketStatus_console (dateStr : jsstring) (w : World (Page Net Schema)) :
  exists entries,
    console (snd (check dateStr w))
    = console w
      ++ (if cacheCorrupted (ext w)
          then [ConsoleError (lit "Failed to parse cached market status")
                  (mkJsError NameSyntaxError
                     (syntaxErrorMessage
                        (default [] (sessionStorage (ext w) !! CACHE_KEY))))]
          else [])
      ++ entries
    /\ Forall (fun entry => is_progress_entry entry = true) entries
    /\ (cacheHit (ext w) = true -> entries = []).
Proof.
  unfold checkMarketStatus, cacheCorrupted, cacheHit. cbv zeta.
  destruct (cacheIsFresh _ _ _) eqn:Hfresh; cbn [andb].
  - unfold JSON_parse_completion. destruct (JSON_parse _) as [v|] eqn:Hv.
    + exists []. cbn [snd]. by rewrite !app_nil_r.
    + unfold generateWithFallback.
      match goal with
      | |- context [tryModels ?f MODELS [] ?w0] =>
          destruct (tryModels_console f MODELS [] w0) as (entries & Hconsole & Hentries);
          destruct (tryModels f MODELS [] w0) as [[result|err] w1]
      end; cbn [snd set_ext console console_write] in *;
        exists entries; rewrite Hconsole, <- app_assoc; by repeat split.
  - unfold generateWithFallback.
    destruct (tryModels_console (request dateStr) MODELS [] w)
      as (entries & Hconsole & Hentries).
    destruct (tryModels (request dateStr) MODELS [] w) as [[result|err] w1];
      cbn [snd set_ext console] in *; exists entries; rewrite Hconsole;
      by repeat split.
Qed.

(** X10. A call of [checkMarketStatus] touches two keys of the session storage
    at most: whatever the outcome, every other key holds after the call
    what it held before. *)
Theorem checkMarketStatus_other_keys (dateStr : jsstring)
    (w : World (Page Net Schema)) (key : jsstring) :
  key <> CACHE_KEY -> key <> CACHE_TIME_KEY ->
  sessionStorage (ext (snd (check dateStr w))) !! key
  = sessionStorage (ext w) !! key.
Proof.
  intros Hkey Htime. destruct (cacheHit (ext w)) eqn:Hhit.
  - by destruct (checkMarketStatus_hit service syntaxErrorMessage dateStr w Hhit)
      as (v & _ & ->).
  - destruct (checkMarketStatus_miss service syntaxErrorMessage dateStr w Hhit)
      as (out & _ & ->).
    pose proof (generateWithFallback_storage service dateStr (mkWorld out (ext w)))
      as Hstorage.
    destruct (generateWithFallback (request dateStr) (mkWorld out (ext w)))
      as [[result|err] w1]; cbn [snd ext set_ext setItem sessionStorage] in *.
    + by rewrite !lookup_insert_ne, Hstorage by done.
    + by rewrite Hstorage.
Qed.

(** X11. When the cache does not answer and [checkMarketStatus] returns, what
    it returns is an object of two members, [status] and [reason], whose
    [status] is one of [OPEN], [CLOSED] and [UNKNOWN]; and it is the value
    the text left in the session storage parses to. *)
Theorem checkMarketStatus_fetched_status (dateStr : jsstring)
    (w w' : World (Page Net Schema)) (result : Json) :
  cacheHit (ext w) = false ->
  check dateStr w = (Returned result, w') ->
  exists status reason,
    result = marketStatus status reason
    /\ status ∈ STATUS_VALUES
    /\ JSON_parse (default [] (sessionStorage (ext w') !! CACHE_KEY)) = Some result.
Proof.
  intros Hmiss Hcheck.
  destruct (checkMarketStatus_miss service syntaxErrorMessage dateStr w Hmiss)
    as (out & _ & Hrun).
  rewrite Hcheck in Hrun.
  destruct (generateWithFallback (request dateStr) (mkWorld out (ext w)))
    as [[result'|err] w1] eqn:Hloop; [|discriminate].
  inversion Hrun; subst result' w'. clear Hrun.
  apply tryModels_returned in Hloop as (m & p & p' & _ & Hm).
  unfold marketStatusRequest, generateContent in Hm.
  destruct (service _ _ _) as [[[response|err] remote'] clock']; [|discriminate].
  inversion Hm; subst result. clear Hm.
  set (answer := default [] (text response)).
  assert (Hstatus : exists status reason,
            statusOfText answer = marketStatus status reason
            /\ status ∈ STATUS_VALUES).
  { unfold statusOfText.
    destruct (String_match true STATUS_PATTERN answer) as [found_|] eqn:Hfound.
    - apply exec_from_end in Hfound as (skip & n & _ & _ & _ & _ & Hfound).
      apply STATUS_PATTERN_capture in Hfound as (g & Hg & Hin). cbn [snd] in Hg.
      eexists _, _. split; [reflexivity|]. by rewrite Hg.
    - eexists _, _. split; [reflexivity|]. unfold STATUS_VALUES. set_solver. }
  destruct Hstatus as (status & reason & Hresult & Hin).
  exists status, reason. split; [exact Hresult|]. split; [exact Hin|].
  unfold set_ext, setItem. cbn [ext sessionStorage].
  rewrite lookup_insert_ne by apply cache_keys_differ.
  rewrite lookup_insert_eq. cbn [from_option id].
  rewrite Hresult. apply JSON_parse_stringify_marketStatus.
Qed.

End CacheCalls.

(** A corrupted entry of the cache: the key [theme] of another part of the
    page is as it was after the call. *)
Lemma checkMarketStatus_other_keys_witness :
  sessionStorage (ext (snd (checkMarketStatus weekendService someSyntaxErrorMessage
                              someDate worldWithCorruptedCache))) !! lit "theme"
  = Some (lit "dark").
Proof.
  rewrite (checkMarketStatus_other_keys weekendService someSyntaxErrorMessage
             someDate worldWithCorruptedCache (lit "theme")).
  - vm_compute. reflexivity.
  - intros H. vm_compute in H. discriminate H.
  - intros H. vm_compute in H. discriminate H.
Defined.

(** The call on the page with the corrupted entry fetches and returns
    [CLOSED]. *)
Lemma checkMarketStatus_fetched_status_witness :
  exists status reason,
    marketStatus (lit "CLOSED") (lit "Weekend") = marketStatus status reason
    /\ status ∈ STATUS_VALUES
    /\ JSON_parse
         (default []
            (sessionStorage
               (ext (snd (checkMarketStatus weekendService someSyntaxErrorMessage
                            someDate worldWithCorruptedCache))) !! CACHE_KEY))
       = Some (marketStatus (lit "CLOSED") (lit "Weekend")).
Proof.
  apply (checkMarketStatus_fetched_status weekendService someSyntaxErrorMessage
           someDate worldWithCorruptedCache).
  - vm_compute. reflexivity.
  - vm_compute. reflexivity.
Defined.

(** * The use cases with a schema of their own *)

(** ** Properties of an object *)

Lemma jsstring_eqb_refl (a : jsstring) : jsstring_eqb a a = true.
Proof. unfold jsstring_eqb. by apply bool_decide_eq_true. Qed.

Lemma jsstring_eqb_ne (a b : jsstring) : a <> b -> jsstring_eqb a b = false.
Proof. unfold jsstring_eqb. intros H. by apply bool_decide_eq_false. Qed.

Lemma lookup_set_property_eq {V : Type} (key : jsstring) (v : V)
    (members : list (jsstring * V)) :
  lookup_member key (set_property key v members) = Some v.
Proof.
  induction members as [|[k old] members IH]; cbn [set_property lookup_member].
  - by rewrite jsstring_eqb_refl.
  - destruct (jsstring_eqb k key) eqn:Hk; cbn [lookup_member]; by rewrite Hk.
Qed.

Lemma lookup_set_property_ne {V : Type} (key key' : jsstring) (v : V)
    (members : list (jsstring * V)) :
  key' <> key ->
  lookup_member key' (set_property key v members) = lookup_member key' members.
Proof.
  intros Hne.
  induction members as [|[k old] members IH]; cbn [set_property lookup_member].
  - by rewrite jsstring_eqb_ne.
  - destruct (jsstring_eqb k key) eqn:Hk; cbn [lookup_member]; [|by rewrite IH].
    apply bool_decide_eq_true in Hk. subst k.
    by rewrite jsstring_eqb_ne.
Qed.

(** ** The sources of an explanation *)

(** After the [filter], the [map] meets no chunk without [web]. *)
Lemma mapCompletion_sourceOf (propertyErrorMessage : jsstring -> JsValue -> jsstring)
    (chunks : list GroundingChunk) :
  mapCompletion (sourceOf propertyErrorMessage) (List.filter hasWeb chunks)
  = Returned
      (List.map
         (fun w =>
            VObject
              [ (lit "title",
                 VString (if truthy (title w) then default [] (title w) else lit "Source"));
                (lit "uri", match uri w with Some u => VString u | None => VUndefined end) ])
         (omap web chunks)).
Proof.
  induction chunks as [|[[w|]] chunks IH]; [reflexivity| |].
  - cbn [List.filter hasWeb web mapCompletion sourceOf bind omap list_omap].
    by rewrite IH.
  - cbn [List.filter hasWeb web omap list_omap]. exact IH.
Qed.

Lemma truthy_title (t : option jsstring) :
  (if truthy t then default [] t else lit "Source") <> [].
Proof. by destruct t as [[|c t]|]. Qed.

(** X12. [sourcesOf] never throws: the sources are, in order, one object for
    each chunk that has a [web]; its [title] is the title of the [web]
    when that is a string that is not empty, and [Source] otherwise, so it
    is never empty; its [uri] is the one of the [web], [undefined] when the
    [web] has none. *)
Theorem sourcesOf_returns (propertyErrorMessage : jsstring -> JsValue -> jsstring)
    (chunks : list GroundingChunk) :
  exists sources,
    sourcesOf propertyErrorMessage chunks = Returned (VArray sources [])
    /\ Forall2
         (fun w source =>
            exists t,
              source = VObject [(lit "title", VString t);
                                (lit "uri", from_option VString VUndefined (uri w))]
              /\ t <> []
              /\ (forall x, title w = Some x -> x <> [] -> t = x)
              /\ (title w = None \/ title w = Some [] -> t = lit "Source"))
         (omap web chunks) sources.
Proof.
  unfold sourcesOf. rewrite mapCompletion_sourceOf. cbn [bind].
  eexists. split; [reflexivity|].
  apply Forall2_fmap_r, Forall_Forall2_diag, Forall_forall. intros w _.
  eexists. split; [by destruct (uri w)|].
  split; [apply truthy_title|].
  split.
  - intros x -> Hx. by destruct x.
  - by intros [->| ->].
Qed.

(** What the loop returns is what the first model whose attempt does not
    fail returned, in the state that the failed attempts before it left;
    the state after the call is the state after that attempt. *)
Lemma generateWithFallback_returned {E A : Type}
    (generateFn : jsstring -> E -> Completion A * E) (w w' : World E) (v : A) :
  generateWithFallback generateFn w = (Returned v, w') ->
  exists pre m post errs p,
    MODELS = pre ++ m :: post
    /\ failAll generateFn pre (ext w) = Some (errs, p)
    /\ generateFn m p = (Returned v, ext w').
Proof.
  unfold generateWithFallback. intros Hloop.
  destruct (failAll generateFn MODELS (ext w)) as [[errs e']|] eqn:Hall.
  - rewrite <- (app_nil_r MODELS) in Hloop at 1.
    rewrite (tryModels_failures _ MODELS [] [] w errs e' Hall) in Hloop.
    discriminate Hloop.
  - destruct (failAll_first_success _ _ _ Hall)
      as (pre & m & post & errs & e1 & v0 & e2 & HM & Hpre & Hm).
    rewrite HM, (tryModels_failures _ pre (m :: post) [] w errs e1 Hpre) in Hloop.
    cbn [tryModels console_write ext] in Hloop. rewrite Hm in Hloop.
    inversion Hloop; subst v0 w'. by exists pre, m, post, errs, e1.
Qed.

Section UseCaseFacts.

Context {Net : Type}.
Variable groundedService :
  Request ResponseSchema -> Net -> Z -> Completion GroundedResponse * Net * Z.
Variable syntaxErrorMessage : jsstring -> jsstring.
Variable typeErrorMessage : jsstring.
Variable propertyErrorMessage : jsstring -> JsValue -> jsstring.

Local Abbreviation generate := (generateGroundedContent groundedService).
Local Abbreviation parsed := (parseAnswer syntaxErrorMessage typeErrorMessage).

(** What a request changes of the page: the request is added to those
    sent; the session storage is as it was. *)
Lemma generateGroundedContent_page (request : Request ResponseSchema)
    (p : Page Net ResponseSchema) :
  sent (snd (generate request p)) = sent p ++ [request]
  /\ sessionStorage (snd (generate request p)) = sessionStorage p.
Proof.
  unfold generateGroundedContent.
  by destruct (groundedService _ _ _) as [[outcome remote'] clock'].
Qed.

(** A request-building function that sends one request per call, with
    the configuration chosen for the model, and keeps the session storage:
    the loop sends the requests of the first [k] models. *)
Lemma generateWithFallback_sentFor {A : Type}
    (generateFn : jsstring -> Page Net ResponseSchema
                  -> Completion A * Page Net ResponseSchema)
    (prompt : jsstring) (schema : ResponseSchema) (instruction : jsstring) :
  (forall m p, exists outcome,
     generateFn m p
     = (outcome, snd (generate (requestOf prompt schema instruction m) p))) ->
  forall w, exists k,
    1 <= k <= 11
    /\ sentFor prompt schema instruction k (ext w)
         (ext (snd (generateWithFallback generateFn w)))
    /\ (forall e, fst (generateWithFallback generateFn w) = Thrown e -> k = 11).
Proof.
  intros Hfn w.
  assert (Hsent : forall m p, sent (snd (generateFn m p))
                  = sent p ++ [requestOf prompt schema instruction m]).
  { intros m p. destruct (Hfn m p) as [outcome ->]. cbn [snd].
    apply generateGroundedContent_page. }
  assert (Hstorage : forall m p, sessionStorage p = sessionStorage (ext w) ->
            sessionStorage (snd (generateFn m p)) = sessionStorage (ext w)).
  { intros m p Hp. destruct (Hfn m p) as [outcome ->]. cbn [snd].
    rewrite <- Hp. apply generateGroundedContent_page. }
  destruct (tryModels_trace generateFn sent (requestOf prompt schema instruction)
              Hsent MODELS [] w) as (k & Hk & Hpos & Htrace & Hthrown).
  exists k. split; [split; [by apply Hpos | exact Hk]|].
  split; [|exact Hthrown]. split; [exact Htrace|].
  by apply (tryModels_invariant generateFn
              (fun p => sessionStorage p = sessionStorage (ext w))).
Qed.

(** X13. The requests of the four use cases.  A call sends one request for
    each of the first [k] models of the list, in order, with
    [1 <= k <= 11] and [k = 11] when it throws; each request holds the
    prompt of the use case and the configuration [getSmartConfig] builds
    for the model from the schema and the instruction of the use case; and
    the session storage is as it was before the call. *)
Theorem schema_use_cases_requests (w : World (Page Net ResponseSchema)) :
  (forall stockName,
     let out := fetchStockExplanation groundedService syntaxErrorMessage
                  typeErrorMessage propertyErrorMessage stockName w in
     exists k, 1 <= k <= 11
       /\ sentFor (stockExplanationPrompt stockName) stockExplanationSchema
            EXPLAINER_SYSTEM_INSTRUCTION k (ext w) (ext (snd out))
       /\ (forall e, fst out = Thrown e -> k = 11))
  /\ (forall stockA stockB,
     let out := fetchComparison groundedService syntaxErrorMessage
                  typeErrorMessage propertyErrorMessage stockA stockB w in
     exists k, 1 <= k <= 11
       /\ sentFor (comparisonPrompt stockA stockB) comparisonSchema
            EXPLAINER_SYSTEM_INSTRUCTION k (ext w) (ext (snd out))
       /\ (forall e, fst out = Thrown e -> k = 11))
  /\ (forall profile,
     let out := fetchDiscoverySuggestions groundedService syntaxErrorMessage
                  typeErrorMessage profile w in
     exists k, 1 <= k <= 11
       /\ sentFor (discoveryPrompt profile) discoverySchema
            REBALANCER_SYSTEM_INSTRUCTION k (ext w) (ext (snd out))
       /\ (forall e, fst out = Thrown e -> k = 11))
  /\ (forall profile holdings,
     let out := fetchRebalancingSuggestions groundedService syntaxErrorMessage
                  typeErrorMessage profile holdings w in
     exists k, 1 <= k <= 11
       /\ sentFor (rebalancingPrompt profile holdings) rebalancingSchema
            REBALANCER_SYSTEM_INSTRUCTION k (ext w) (ext (snd out))
       /\ (forall e, fst out = Thrown e -> k = 11)).
Proof.
  repeat split; intros; apply generateWithFallback_sentFor; intros m p;
    unfold stockExplanationRequest, comparisonRequest, discoveryRequest,
      rebalancingRequest, requestOf;
    destruct (generate _ p) as [[response|err] p']; by eexists.
Qed.

Lemma omap_length_le {A B : Type} (f : A -> option B) (l : list A) :
  length (omap f l) <= length l.
Proof.
  induction l as [|x l IH]; [done|]. cbn [omap list_omap length].
  destruct (f x); cbn [length]; lia.
Qed.

(** X14. What [fetchStockExplanation] returns is built from the response
    that ended the loop: the response to the request for the first model
    [m] of the list whose attempt did not fail, sent in the state [p] that
    the failed attempts before it left.  It is an object whose [sources]
    are built from the grounding chunks of that response and from nothing
    else: there is one source, in order, for each chunk that has a [web],
    with the [uri] of that [web] and its [title], or [Source] when the
    [web] has no title or an empty one; a [sources] member of the parsed
    answer is overwritten; and every other member is the one of the parsed
    answer. *)
Theorem fetchStockExplanation_sources (stockName : jsstring)
    (w w' : World (Page Net ResponseSchema)) (v : JsValue) :
  fetchStockExplanation groundedService syntaxErrorMessage typeErrorMessage
    propertyErrorMessage stockName w = (Returned v, w') ->
  exists members sources pre m post errs p response data,
    MODELS = pre ++ m :: post
    /\ failAll (stockExplanationRequest groundedService syntaxErrorMessage
                  typeErrorMessage propertyErrorMessage stockName) pre (ext w)
       = Some (errs, p)
    /\ generate (requestOf (stockExplanationPrompt stockName) stockExplanationSchema
                   EXPLAINER_SYSTEM_INSTRUCTION m) p = (Returned response, ext w')
    /\ parsed response = Returned data
    /\ v = VObject members
    /\ lookup_member (lit "sources") members = Some (VArray sources [])
    /\ Forall2
         (fun w source =>
            exists t,
              source = VObject [(lit "title", VString t);
                                (lit "uri", from_option VString VUndefined (uri w))]
              /\ t <> []
              /\ (forall x, title w = Some x -> x <> [] -> t = x)
              /\ (title w = None \/ title w = Some [] -> t = lit "Source"))
         (omap web (groundingChunksOf response)) sources
    /\ Forall is_source sources
    /\ length sources <= length (groundingChunksOf response)
    /\ (forall key, key <> lit "sources" ->
          lookup_member key members = lookup_member key (spread (fromJson data))).
Proof.
  intros Hfetch. unfold fetchStockExplanation in Hfetch.
  apply generateWithFallback_returned in Hfetch
    as (pre & m & post & errs & p & HM & Hpre & Hm).
  unfold stockExplanationRequest in Hm. fold (requestOf (stockExplanationPrompt stockName)
    stockExplanationSchema EXPLAINER_SYSTEM_INSTRUCTION m) in Hm.
  destruct (generate _ p) as [[response|err] p''] eqn:Hgen; [|discriminate].
  destruct (parsed response) as [data|err] eqn:Hdata; [|discriminate].
  unfold sourcesOf in Hm. rewrite mapCompletion_sourceOf in Hm. cbn [bind] in Hm.
  inversion Hm; subst v p''. clear Hm. unfold withSources.
  eexists _, _, pre, m, post, errs, p, response, data.
  split; [exact HM|]. split; [exact Hpre|]. split; [exact Hgen|].
  split; [exact Hdata|]. split; [reflexivity|].
  split; [apply lookup_set_property_eq|].
  split; [|split; [|split]].
  - apply Forall2_fmap_r, Forall_Forall2_diag, Forall_forall. intros w0 _.
    eexists. split; [by destruct (uri w0)|].
    split; [apply truthy_title|].
    split.
    + intros x -> Hx. by destruct x.
    + by intros [->| ->].
  - apply Forall_fmap, Forall_forall. intros web _. eexists _, _.
    split; [reflexivity|]. split; [apply truthy_title|].
    destruct (uri web); [right; by eexists | by left].
  - rewrite length_map. apply omap_length_le.
  - intros key Hkey. by apply lookup_set_property_ne.
Qed.

Lemma lookup_member_fromJson (key : jsstring) (members : list (jsstring * Json)) :
  lookup_member key (List.map (fun kv => (fst kv, fromJson (snd kv))) members)
  = option_map fromJson (lookup_member key members).
Proof.
  induction members as [|[k v] members IH]; [reflexivity|].
  cbn [List.map lookup_member fst snd]. by destruct (jsstring_eqb k key).
Qed.

Lemma stockA_is_not_stockB : lit "stockB" <> lit "stockA".
Proof. intros H. vm_compute in H. discriminate H. Qed.

(** [data.key.sources = []] on an object: it returns when the member
    [key] is an object or an array, which then has an empty [sources], and
    throws a [TypeError] otherwise. *)
Lemma emptySources_object (key : jsstring) (members : list (jsstring * JsValue)) :
  match lookup_member key members with
  | Some (VObject _ as target) | Some (VArray _ _ as target) =>
      exists target',
        emptySources propertyErrorMessage key (VObject members)
        = Returned (VObject (set_property key target' members))
        /\ ownProperty (lit "sources") target' = Some (VArray [] [])
        /\ (forall k, k <> lit "sources" -> ownProperty k target' = ownProperty k target)
        /\ setProperty propertyErrorMessage (lit "sources") (VArray [] []) target
           = Returned target'
  | _ =>
      exists msg,
        emptySources propertyErrorMessage key (VObject members)
        = Thrown (mkJsError NameTypeError msg)
  end.
Proof.
  unfold emptySources. cbn [getProperty bind].
  destruct (lookup_member key members) as [[| | | | |elements props|inner]|];
    cbn [from_option id setProperty bind]; try by eexists.
  - eexists. split; [reflexivity|]. cbn [ownProperty].
    split; [apply lookup_set_property_eq|]. split; [|reflexivity].
    intros k Hk. by apply lookup_set_property_ne.
  - eexists. split; [reflexivity|]. cbn [ownProperty].
    split; [apply lookup_set_property_eq|]. split; [|reflexivity].
    intros k Hk. by apply lookup_set_property_ne.
Qed.

(** A parsed value that is not an object has no [stockA]: the assignment
    throws a [TypeError]. *)
Lemma emptySources_not_object (key : jsstring) (data : Json) :
  (forall members, data <> JObject members) ->
  exists msg,
    emptySources propertyErrorMessage key (fromJson data)
    = Thrown (mkJsError NameTypeError msg).
Proof.
  intros Hdata. unfold emptySources.
  destruct data as [| | | | |members]; cbn; try by eexists.
  by destruct (Hdata members).
Qed.

Lemma comparison_members (members : list (jsstring * JsValue)) (a b : JsValue) :
  ownProperty (lit "sources") a = Some (VArray [] []) ->
  ownProperty (lit "sources") b = Some (VArray [] []) ->
  let members' :=
    set_property (lit "stockB") b (set_property (lit "stockA") a members) in
  lookup_member (lit "stockA") members' = Some a
  /\ lookup_member (lit "stockB") members' = Some b
  /\ ownProperty (lit "sources") a = Some (VArray [] [])
  /\ ownProperty (lit "sources") b = Some (VArray [] [])
  /\ (forall key, key <> lit "stockA" -> key <> lit "stockB" ->
        lookup_member key members' = lookup_member key members).
Proof.
  intros Ha Hb members'. unfold members'.
  split; [|split; [|split; [|split]]]; try done.
  - rewrite lookup_set_property_ne.
    + apply lookup_set_property_eq.
    + intros H. symmetry in H. by apply stockA_is_not_stockB in H.
  - apply lookup_set_property_eq.
  - intros key HkA HkB. by rewrite !lookup_set_property_ne.
Qed.

(** X15. The two assignments of [fetchComparison] on a parsed answer: they go
    through exactly when the answer is an object whose members [stockA]
    and [stockB] are objects or arrays; the value returned is then the
    object with the same members, but that [stockA] and [stockB] each have
    an empty [sources], whatever [sources] the answer gave them: each is
    the stock of the answer after the assignment, with its other members or
    its elements as they were.  In every other case the request-building
    function throws a [TypeError], which the fallback loop takes as the
    failure of the model. *)
Theorem comparisonRequest_outcome (stockA stockB m : jsstring)
    (p p' : Page Net ResponseSchema) (response : GroundedResponse) (data : Json) :
  generate (requestOf (comparisonPrompt stockA stockB) comparisonSchema
              EXPLAINER_SYSTEM_INSTRUCTION m) p = (Returned response, p') ->
  parsed response = Returned data ->
  if hasContainer (lit "stockA") data && hasContainer (lit "stockB") data
  then
    exists members a b,
      comparisonRequest groundedService syntaxErrorMessage typeErrorMessage
        propertyErrorMessage stockA stockB m p = (Returned (VObject members), p')
      /\ lookup_member (lit "stockA") members = Some a
      /\ lookup_member (lit "stockB") members = Some b
      /\ ownProperty (lit "sources") a = Some (VArray [] [])
      /\ ownProperty (lit "sources") b = Some (VArray [] [])
      /\ (forall key, key <> lit "stockA" -> key <> lit "stockB" ->
            lookup_member key members = lookup_member key (spread (fromJson data)))
      /\ (exists a0 b0,
            lookup_member (lit "stockA") (spread (fromJson data)) = Some a0
            /\ lookup_member (lit "stockB") (spread (fromJson data)) = Some b0
            /\ setProperty propertyErrorMessage (lit "sources") (VArray [] []) a0
               = Returned a
            /\ setProperty propertyErrorMessage (lit "sources") (VArray [] []) b0
               = Returned b)
  else
    exists msg,
      comparisonRequest groundedService syntaxErrorMessage typeErrorMessage
        propertyErrorMessage stockA stockB m p
      = (Thrown (mkJsError NameTypeError msg), p').
Proof.
  intros Hgen Hdata. unfold comparisonRequest.
  fold (requestOf (comparisonPrompt stockA stockB) comparisonSchema
          EXPLAINER_SYSTEM_INSTRUCTION m).
  rewrite Hgen, Hdata. cbn [bind].
  destruct data as [| | | | |members];
    try (cbn [hasContainer andb];
         edestruct emptySources_not_object as [msg ->]; [done|]; by eexists).
  cbn [hasContainer fromJson].
  pose proof (emptySources_object (lit "stockA")
                (List.map (fun kv => (fst kv, fromJson (snd kv))) members)) as HA.
  rewrite lookup_member_fromJson in HA.
  destruct (lookup_member (lit "stockA") members) as [[| | | |elsA|msA]|] eqn:HlookA;
    cbn [option_map fromJson andb] in HA |- *;
    try (destruct HA as [msg ->]; by eexists).
  - destruct HA as (a & -> & HsourcesA & _ & HsetA). cbn [bind].
    match goal with
    | |- context [emptySources _ _ (VObject ?ms)] =>
        pose proof (emptySources_object (lit "stockB") ms) as HB
    end.
    rewrite lookup_set_property_ne, lookup_member_fromJson in HB
      by apply stockA_is_not_stockB.
    destruct (lookup_member (lit "stockB") members) as [[| | | |elsB|msB]|] eqn:HlookB;
      cbn [option_map fromJson] in HB |- *;
      try (destruct HB as [msg ->]; by eexists).
    + destruct HB as (b & -> & HsourcesB & _ & HsetB). cbn [bind].
      eexists _, a, b. split; [reflexivity|].
      destruct (comparison_members
                  (List.map (fun kv => (fst kv, fromJson (snd kv))) members) a b
                  HsourcesA HsourcesB) as (H1 & H2 & H3 & H4 & H5).
      repeat (split; [assumption|]). cbn [spread].
      eexists _, _. rewrite !lookup_member_fromJson, HlookA, HlookB. by repeat split.
    + destruct HB as (b & -> & HsourcesB & _ & HsetB). cbn [bind].
      eexists _, a, b. split; [reflexivity|].
      destruct (comparison_members
                  (List.map (fun kv => (fst kv, fromJson (snd kv))) members) a b
                  HsourcesA HsourcesB) as (H1 & H2 & H3 & H4 & H5).
      repeat (split; [assumption|]). cbn [spread].
      eexists _, _. rewrite !lookup_member_fromJson, HlookA, HlookB. by repeat split.
  - destruct HA as (a & -> & HsourcesA & _ & HsetA). cbn [bind].
    match goal with
    | |- context [emptySources _ _ (VObject ?ms)] =>
        pose proof (emptySources_object (lit "stockB") ms) as HB
    end.
    rewrite lookup_set_property_ne, lookup_member_fromJson in HB
      by apply stockA_is_not_stockB.
    destruct (lookup_member (lit "stockB") members) as [[| | | |elsB|msB]|] eqn:HlookB;
      cbn [option_map fromJson] in HB |- *;
      try (destruct HB as [msg ->]; by eexists).
    + destruct HB as (b & -> & HsourcesB & _ & HsetB). cbn [bind].
      eexists _, a, b. split; [reflexivity|].
      destruct (comparison_members
                  (List.map (fun kv => (fst kv, fromJson (snd kv))) members) a b
                  HsourcesA HsourcesB) as (H1 & H2 & H3 & H4 & H5).
      repeat (split; [assumption|]). cbn [spread].
      eexists _, _. rewrite !lookup_member_fromJson, HlookA, HlookB. by repeat split.
    + destruct HB as (b & -> & HsourcesB & _ & HsetB). cbn [bind].
      eexists _, a, b. split; [reflexivity|].
      destruct (comparison_members
                  (List.map (fun kv => (fst kv, fromJson (snd kv))) members) a b
                  HsourcesA HsourcesB) as (H1 & H2 & H3 & H4 & H5).
      repeat (split; [assumption|]). cbn [spread].
      eexists _, _. rewrite !lookup_member_fromJson, HlookA, HlookB. by repeat split.
Qed.

(** When the loop throws, it has recorded one line per model. *)
Lemma tryModels_thrown_lines {E A : Type}
    (generateFn : jsstring -> E -> Completion A * E)
    (models errors : list jsstring) (w w' : World E) (e : JsError) :
  tryModels generateFn models errors w = (Thrown e, w') ->
  exists lines, e = exhaustedError (errors ++ lines) /\ length lines = length models.
Proof.
  revert errors w. induction models as [|m models IH]; intros errors w H;
    cbn [tryModels] in H.
  - inversion H. exists []. by rewrite app_nil_r.
  - destruct (generateFn m _) as [[v|err] e1]; [discriminate|].
    apply IH in H as (lines & -> & Hlen). eexists (_ :: lines).
    rewrite <- app_assoc. split; [reflexivity|]. cbn [length]. by rewrite Hlen.
Qed.

(** What a request-building function that parses the answer returns. *)
Lemma parsed_request_returned (request : Request ResponseSchema)
    (p p' : Page Net ResponseSchema) (v : Json) :
  match generate request p with
  | (Returned response, p1) => (parsed response, p1)
  | (Thrown err, p1) => (Thrown err, p1)
  end = (Returned v, p') ->
  exists response t,
    generate request p = (Returned response, p')
    /\ text (answer response) = Some t
    /\ JSON_parse (cleanJson t) = Some v.
Proof.
  destruct (generate request p) as [[response|err] p1]; [|discriminate].
  unfold parseAnswer, JSON_parse_completion. intros H.
  destruct (text (answer response)) as [t|] eqn:Ht; [|discriminate].
  destruct (JSON_parse (cleanJson t)) as [v'|] eqn:Hv; [|discriminate].
  inversion H; subst. by exists response, t.
Qed.

(** X16. The outcomes of [fetchDiscoverySuggestions] and of
    [fetchRebalancingSuggestions].  A value returned is what [JSON.parse]
    made of the cleaned text of an answer that the service gave to a
    request of the use case for some model: nothing is added to it and
    nothing is checked against the schema.  An error thrown is the error of
    the exhausted list, with one line for each of the 11 models: the
    [SyntaxError] of an answer that does not parse and the [TypeError] of
    an answer without text never reach the caller as they are. *)
Theorem suggestions_outcomes (profile : UserProfile) (holdings : Json)
    (w : World (Page Net ResponseSchema)) :
  match fetchDiscoverySuggestions groundedService syntaxErrorMessage
          typeErrorMessage profile w with
  | (Returned v, _) =>
      exists m p response p' t,
        generate (requestOf (discoveryPrompt profile) discoverySchema
                    REBALANCER_SYSTEM_INSTRUCTION m) p = (Returned response, p')
        /\ m ∈ MODELS
        /\ text (answer response) = Some t
        /\ JSON_parse (cleanJson t) = Some v
  | (Thrown e, _) =>
      exists lines, e = exhaustedError lines /\ name e = NameError /\ length lines = 11
  end
  /\
  match fetchRebalancingSuggestions groundedService syntaxErrorMessage
          typeErrorMessage profile holdings w with
  | (Returned v, _) =>
      exists m p response p' t,
        generate (requestOf (rebalancingPrompt profile holdings) rebalancingSchema
                    REBALANCER_SYSTEM_INSTRUCTION m) p = (Returned response, p')
        /\ m ∈ MODELS
        /\ text (answer response) = Some t
        /\ JSON_parse (cleanJson t) = Some v
  | (Thrown e, _) =>
      exists lines, e = exhaustedError lines /\ name e = NameError /\ length lines = 11
  end.
Proof.
  split.
  - unfold fetchDiscoverySuggestions, generateWithFallback.
    destruct (tryModels _ MODELS [] w) as [[v|e] w'] eqn:Hloop.
    + apply tryModels_returned in Hloop as (m & p & p' & Hin & Hm).
      unfold discoveryRequest in Hm.
      apply parsed_request_returned in Hm
        as (response & t & Hgen & Ht & Hv).
      by exists m, p, response, p', t.
    + apply tryModels_thrown_lines in Hloop as (lines & -> & Hlen).
      by exists lines.
  - unfold fetchRebalancingSuggestions, generateWithFallback.
    destruct (tryModels _ MODELS [] w) as [[v|e] w'] eqn:Hloop.
    + apply tryModels_returned in Hloop as (m & p & p' & Hin & Hm).
      unfold rebalancingRequest in Hm.
      apply parsed_request_returned in Hm
        as (response & t & Hgen & Ht & Hv).
      by exists m, p, response, p', t.
    + apply tryModels_thrown_lines in Hloop as (lines & -> & Hlen).
      by exists lines.
Qed.

End UseCaseFacts.

(** The answer about [TCS]: the [sources] of the answer itself are
    replaced by the two sources of the grounding chunks, the second with
    the default title and no [uri]. *)
Lemma fetchStockExplanation_sources_witness :
  exists members sources pre m post errs p response data,
    MODELS = pre ++ m :: post
    /\ failAll (stockExplanationRequest stockService someSyntaxErrorMessage
                  someTypeErrorMessage somePropertyErrorMessage (lit "TCS")) pre
         (ext schemaWorld)
       = Some (errs, p)
    /\ generateGroundedContent stockService
         (requestOf (stockExplanationPrompt (lit "TCS")) stockExplanationSchema
            EXPLAINER_SYSTEM_INSTRUCTION m) p
       = (Returned response,
          ext (snd (fetchStockExplanation stockService someSyntaxErrorMessage
                      someTypeErrorMessage somePropertyErrorMessage (lit "TCS")
                      schemaWorld)))
    /\ parseAnswer someSyntaxErrorMessage someTypeErrorMessage response = Returned data
    /\ VObject
         [(lit "stockName", VString (lit "TCS"));
          (lit "sources",
           VArray
             [VObject [(lit "title", VString (lit "NSE filing"));
                       (lit "uri", VString (lit "https://example.org/filing"))];
              VObject [(lit "title", VString (lit "Source")); (lit "uri", VUndefined)]]
             []);
          (lit "finalTakeaway", VString (lit "Index-linked move."))]
       = VObject members
    /\ lookup_member (lit "sources") members = Some (VArray sources [])
    /\ Forall2
         (fun w source =>
            exists t,
              source = VObject [(lit "title", VString t);
                                (lit "uri", from_option VString VUndefined (uri w))]
              /\ t <> []
              /\ (forall x, title w = Some x -> x <> [] -> t = x)
              /\ (title w = None \/ title w = Some [] -> t = lit "Source"))
         (omap web (groundingChunksOf response)) sources
    /\ Forall is_source sources
    /\ length sources <= length (groundingChunksOf response)
    /\ (forall key, key <> lit "sources" ->
          lookup_member key members = lookup_member key (spread (fromJson data))).
Proof.
  apply (fetchStockExplanation_sources stockService someSyntaxErrorMessage
           someTypeErrorMessage somePropertyErrorMessage (lit "TCS") schemaWorld
           (snd (fetchStockExplanation stockService someSyntaxErrorMessage
                   someTypeErrorMessage somePropertyErrorMessage (lit "TCS")
                   schemaWorld))).
  vm_compute. reflexivity.
Defined.

(** The two answers of the comparison: the first, without [stockB], is a
    failure of the model; the second is returned with an empty [sources] in
    [stockA], where the answer had one of its own, and in the array
    [stockB]. *)
Lemma comparisonRequest_outcome_witness :
  (exists msg,
     comparisonRequest comparisonService someSyntaxErrorMessage someTypeErrorMessage
       somePropertyErrorMessage (lit "TCS") (lit "INFY") (lit "gemini-2.0-flash")
       (mkPage 1000 ∅ 0%nat [])
     = (Thrown (mkJsError NameTypeError msg),
        snd (generateGroundedContent comparisonService
               (requestOf (comparisonPrompt (lit "TCS") (lit "INFY")) comparisonSchema
                  EXPLAINER_SYSTEM_INSTRUCTION (lit "gemini-2.0-flash"))
               (mkPage 1000 ∅ 0%nat []))))
  /\
  (exists members a b,
     comparisonRequest comparisonService someSyntaxErrorMessage someTypeErrorMessage
       somePropertyErrorMessage (lit "TCS") (lit "INFY") (lit "gemini-2.0-flash")
       (mkPage 1250 ∅ 1%nat [])
     = (Returned (VObject members),
        snd (generateGroundedContent comparisonService
               (requestOf (comparisonPrompt (lit "TCS") (lit "INFY")) comparisonSchema
                  EXPLAINER_SYSTEM_INSTRUCTION (lit "gemini-2.0-flash"))
               (mkPage 1250 ∅ 1%nat [])))
     /\ lookup_member (lit "stockA") members = Some a
     /\ lookup_member (lit "stockB") members = Some b
     /\ ownProperty (lit "sources") a = Some (VArray [] [])
     /\ ownProperty (lit "sources") b = Some (VArray [] [])
     /\ (forall key, key <> lit "stockA" -> key <> lit "stockB" ->
           lookup_member key members
           = lookup_member key (spread (fromJson comparisonComplete)))
     /\ (exists a0 b0,
           lookup_member (lit "stockA") (spread (fromJson comparisonComplete)) = Some a0
           /\ lookup_member (lit "stockB") (spread (fromJson comparisonComplete)) = Some b0
           /\ setProperty somePropertyErrorMessage (lit "sources") (VArray [] []) a0
              = Returned a
           /\ setProperty somePropertyErrorMessage (lit "sources") (VArray [] []) b0
              = Returned b)).
Proof.
  split.
  - refine (comparisonRequest_outcome comparisonService someSyntaxErrorMessage
              someTypeErrorMessage somePropertyErrorMessage (lit "TCS") (lit "INFY")
              (lit "gemini-2.0-flash") (mkPage 1000 ∅ 0%nat []) _ _
              comparisonWithoutB _ _); vm_compute; reflexivity.
  - refine (comparisonRequest_outcome comparisonService someSyntaxErrorMessage
              someTypeErrorMessage somePropertyErrorMessage (lit "TCS") (lit "INFY")
              (lit "gemini-2.0-flash") (mkPage 1250 ∅ 1%nat []) _ _
              comparisonComplete _ _); vm_compute; reflexivity.
Defined.

(** ** [fetchYesterdayPulse] and the identifier it cannot read *)

Section PulseRequests.

Context {Net Schema : Type}.
Variable service : Request Schema -> Net -> Z -> Completion Response * Net * Z.
Variable syntaxErrorMessage : jsstring -> jsstring.
Variable typeErrorMessage : jsstring.
Variable referenceErrorMessage : jsstring -> jsstring.

Local Abbreviation pulse :=
  (yesterdayPulseRequest service syntaxErrorMessage typeErrorMessage
     referenceErrorMessage).

(** Every attempt throws the [ReferenceError] and leaves the page as it
    is. *)
Lemma failAll_yesterdayPulse (models : list jsstring) (p : Page Net Schema) :
  failAll pulse models p
  = Some (List.map
            (fun _ => mkJsError NameReferenceError (referenceErrorMessage (lit "schema")))
            models, p).
Proof.
  induction models as [|m models IH]; [reflexivity|].
  cbn [failAll List.map]. unfold yesterdayPulseRequest at 1, schemaInScope.
  by rewrite IH.
Qed.

(** X17. [fetchYesterdayPulse] never returns and never sends a request.
    Nothing binds [schema] where it reads it, so each of the 11 attempts
    throws a [ReferenceError] while the request is built; the loop logs
    and warns each of them, and the call throws the error of the exhausted
    candidates, with one line [Model <m> failed: <message of the
    ReferenceError>] for each model of the list.  The page is as it was:
    no request sent, the clock and the session storage untouched. *)
Theorem fetchYesterdayPulse_never_asks (w : World (Page Net Schema)) :
  fetchYesterdayPulse service syntaxErrorMessage typeErrorMessage
    referenceErrorMessage w
  = (Thrown
       (exhaustedError
          (List.map
             (fun m => lit "Model " ++ m ++ lit " failed: "
                       ++ referenceErrorMessage (lit "schema"))
             MODELS)),
     mkWorld
       (console w
        ++ concat
             (List.map
                (fun m =>
                   [ConsoleLog (lit "Trying model: " ++ m);
                    ConsoleWarn (lit "Model " ++ m ++ lit " failed: "
                                 ++ referenceErrorMessage (lit "schema"))])
                MODELS))
       (ext w)).
Proof.
  unfold fetchYesterdayPulse, generateWithFallback.
  rewrite <- (app_nil_r MODELS) at 1.
  rewrite (tryModels_failures pulse MODELS [] [] w _ _
             (failAll_yesterdayPulse MODELS (ext w))).
  reflexivity.
Qed.

End PulseRequests.

(** * The script that lists the models *)

(** ** The key read in the file *)

Lemma lineOf_split (s : jsstring) :
  s = lineOf s ++ skipn (length (lineOf s)) s
  /\ Forall (fun c => is_line_terminator c = false) (lineOf s).
Proof.
  induction s as [|c s [IHsplit IHline]]; [by split|].
  cbn [lineOf]. destruct (is_line_terminator c) eqn:Hc; [by split|].
  cbn [length skipn app]. split; [by f_equal | by constructor].
Qed.

(** The star over [.] before the end of the pattern takes the line. *)
Lemma greedy_dot_line (s whole : jsstring) (start : nat) :
  forall pos taken,
    whole = taken ++ s -> pos = start + length taken ->
    greedy false CcDot pos s []
      (fun pos' s' caps' => found pos' s' ((1, firstn (pos' - start) whole) :: caps'))
    = Some (pos + length (lineOf s), skipn (length (lineOf s)) s,
            [(1, taken ++ lineOf s)]).
Proof.
  induction s as [|c s IH]; intros pos taken Hwhole Hpos.
  - cbn [greedy lineOf length skipn found]. rewrite Nat.add_0_r, app_nil_r.
    subst. replace (start + length taken - start) with (length taken) by lia.
    rewrite app_nil_r. by rewrite firstn_all.
  - cbn [greedy lineOf in_class]. destruct (is_line_terminator c) eqn:Hc; cbn [negb].
    + cbn [length skipn found]. rewrite Nat.add_0_r, app_nil_r. subst.
      replace (start + length taken - start) with (length taken) by lia.
      by rewrite take_app_length.
    + rewrite (IH (S pos) (taken ++ [c])).
      * cbn [length skipn]. rewrite <- app_assoc. cbn [app].
        by rewrite Nat.add_succ_r.
      * rewrite <- app_assoc. exact Hwhole.
      * rewrite length_app. cbn [length]. lia.
Qed.

(** The pattern at a position: it matches when the text there begins with
    the name of the variable, and takes the line. *)
Lemma rmatch_KEY_PATTERN (pos : nat) (s : jsstring) :
  rmatch false KEY_PATTERN pos s [] found
  = if startsWith s KEY_MARKER
    then Some (pos + length KEY_MARKER
               + length (lineOf (skipn (length KEY_MARKER) s)),
               skipn (length (lineOf (skipn (length KEY_MARKER) s)))
                 (skipn (length KEY_MARKER) s),
               [(1, lineOf (skipn (length KEY_MARKER) s))])
    else None.
Proof.
  unfold KEY_PATTERN. fold KEY_MARKER. rewrite rmatch_seq, rmatch_lit.
  destruct (startsWith s KEY_MARKER); [|reflexivity].
  rewrite rmatch_group, rmatch_star_class.
  by rewrite (greedy_dot_line _ (skipn (length KEY_MARKER) s) _ _ []).
Qed.

Lemma exec_from_KEY_PATTERN_none (s : jsstring) (pos : nat) :
  ~ occurs_in KEY_MARKER s -> exec_from false KEY_PATTERN pos s = None.
Proof.
  revert pos. induction s as [|c s IH]; intros pos Hnone;
    rewrite exec_from_unfold, rmatch_KEY_PATTERN.
  - destruct (startsWith [] KEY_MARKER) eqn:Hstart; [|reflexivity].
    apply startsWith_spec in Hstart as [rest Hrest]. destruct Hnone.
    exists [], rest. exact Hrest.
  - destruct (startsWith (c :: s) KEY_MARKER) eqn:Hstart.
    + apply startsWith_spec in Hstart as [rest Hrest]. destruct Hnone.
      exists [], rest. exact Hrest.
    + apply IH. intros (before & rest & ->). apply Hnone.
      by exists (c :: before), rest.
Qed.

Lemma exec_from_KEY_PATTERN_first (before rest : jsstring) :
  (forall a b, before ++ KEY_MARKER ++ rest = a ++ KEY_MARKER ++ b ->
     length before <= length a) ->
  forall pos, exists m,
    exec_from false KEY_PATTERN pos (before ++ KEY_MARKER ++ rest) = Some m
    /\ group 1 (groups m) = Some (lineOf rest).
Proof.
  induction before as [|c before IH]; intros Hfirst pos;
    rewrite exec_from_unfold, rmatch_KEY_PATTERN.
  - cbn [app]. rewrite startsWith_app, drop_app_length.
    eexists. split; [reflexivity|]. reflexivity.
  - destruct (startsWith ((c :: before) ++ KEY_MARKER ++ rest) KEY_MARKER) eqn:Hstart.
    + apply startsWith_spec in Hstart as [b Hb].
      specialize (Hfirst [] b Hb). cbn [length] in Hfirst. lia.
    + cbn [app]. apply IH. intros a b Hab.
      specialize (Hfirst (c :: a) b). cbn [app length] in Hfirst.
      rewrite Hab in Hfirst. specialize (Hfirst eq_refl). lia.
Qed.

(** X18. The key that [run] reads in a file: with the name of the variable
    nowhere in the file, the empty string; otherwise the rest of the line
    after the first occurrence of the name, without the white space at its
    ends, wherever on its line that occurrence is: in a comment, or at the
    end of a longer name. *)
Theorem readKey_first_occurrence (content : jsstring) :
  (~ occurs_in KEY_MARKER content -> readKey (FileContent content) = Returned [])
  /\ (forall before rest,
        content = before ++ KEY_MARKER ++ rest ->
        (forall a b, content = a ++ KEY_MARKER ++ b -> length before <= length a) ->
        readKey (FileContent content) = Returned (trim (lineOf rest))).
Proof.
  split.
  - intros Hnone. unfold readKey, String_match.
    by rewrite exec_from_KEY_PATTERN_none.
  - intros before rest -> Hfirst. unfold readKey, String_match.
    destruct (exec_from_KEY_PATTERN_first before rest Hfirst 0) as (m & -> & ->).
    reflexivity.
Qed.

(** ** The masked key *)

(** X19. What the log shows of the key.  Of a key of more than 10 characters
    it shows the first 5 and the last 5 and hides the others.  Of a key of
    10 characters or fewer it hides nothing: the two parts shown cover the
    key, and for 5 characters or fewer each part is the whole key. *)
Theorem maskedKey_shows (key : jsstring) :
  (10 < length key ->
   exists first hidden final,
     key = first ++ hidden ++ final
     /\ length first = 5 /\ length final = 5 /\ hidden <> []
     /\ maskedKey key = first ++ lit "..." ++ final)
  /\ (length key <= 10 ->
      exists first final,
        maskedKey key = first ++ lit "..." ++ final
        /\ key = first ++ skipn (length first + length final - length key) final)
  /\ (length key <= 5 -> maskedKey key = key ++ lit "..." ++ key).
Proof.
  unfold maskedKey. split; [|split].
  - intros Hlong.
    exists (firstn 5 key), (firstn (length key - 10) (skipn 5 key)),
      (skipn (length key - 5) key).
    split; [|split; [|split; [|split]]].
    + rewrite <- (firstn_skipn 5 key) at 1. f_equal.
      rewrite <- (firstn_skipn (length key - 10) (skipn 5 key)) at 1. f_equal.
      rewrite skipn_skipn. f_equal. lia.
    + rewrite length_firstn. lia.
    + rewrite length_skipn. lia.
    + intros Hnil. apply (f_equal length) in Hnil.
      rewrite length_firstn, length_skipn in Hnil. cbn [length] in Hnil. lia.
    + reflexivity.
  - intros Hshort. exists (firstn 5 key), (skipn (length key - 5) key).
    split; [reflexivity|].
    rewrite skipn_skipn, length_firstn, length_skipn.
    rewrite <- (firstn_skipn 5 key) at 1. f_equal.
    destruct (le_lt_dec (length key) 5) as [Hle|Hgt].
    + by rewrite !skipn_all2 by lia.
    + f_equal. lia.
  - intros Hshort. rewrite firstn_all2 by lia.
    replace (length key - 5) with 0 by lia. reflexivity.
Qed.

(** ** What [run] does *)

Lemma trim_all_space (s : jsstring) : all_space s -> trim s = [].
Proof.
  intros Hs. rewrite <- (app_nil_r s).
  apply (trim_around s [] []); [exact Hs | constructor | apply edges_avoid_nil].
Qed.

(** X20. Without a key [run] asks the service nothing: it prints the error
    [No VITE_GEMINI_API_KEY found in .env] with [console.error] and ends.
    That is so when there is no file, when the file does not hold the name
    of the variable, and when the rest of the line after the first
    occurrence of the name is white space. *)
Theorem run_without_key (machine : Machine) (w : ScriptWorld) :
  envFile machine = NoFile
  \/ (exists content,
        envFile machine = FileContent content
        /\ (~ occurs_in KEY_MARKER content
            \/ exists before rest,
                 content = before ++ KEY_MARKER ++ rest
                 /\ (forall a b, content = a ++ KEY_MARKER ++ b ->
                       length before <= length a)
                 /\ all_space (lineOf rest))) ->
  run machine w
  = (Returned tt, mkScriptWorld (screen w ++ [noKeyEntry]) (listedWith w)).
Proof.
  intros Hfile.
  assert (Hkey : readKey (envFile machine) = Returned []).
  { destruct Hfile as [->|(content & -> & [Hnone|(before & rest & -> & Hfirst & Hblank)])].
    - reflexivity.
    - unfold readKey, String_match. by rewrite exec_from_KEY_PATTERN_none.
    - unfold readKey, String_match.
      destruct (exec_from_KEY_PATTERN_first before rest Hfirst 0) as (m & -> & ->).
      cbn [from_option id]. by rewrite trim_all_space. }
  unfold run, tryBlock. rewrite Hkey. reflexivity.
Qed.

Lemma tryBlock_listed (machine : Machine) (w : ScriptWorld) :
  listedWith (snd (tryBlock machine w)) = listedWith w
  \/ exists key,
       readKey (envFile machine) = Returned key
       /\ key <> []
       /\ listedWith (snd (tryBlock machine w)) = listedWith w ++ [key].
Proof.
  unfold tryBlock.
  destruct (readKey (envFile machine)) as [key|e]; [|by left].
  destruct key as [|c key]; [by left|]. cbn [truthy negb].
  right. exists (c :: key). split; [done|]. split; [done|].
  destruct (listModels machine (c :: key)) as [e|models failure]; [reflexivity|].
  cbn [snd].
  assert (Hfold : forall ms w0, listedWith (fold_left printModel ms w0) = listedWith w0).
  { induction ms as [|m ms IH]; intros w0; [reflexivity|].
    cbn [fold_left]. by rewrite IH. }
  by rewrite Hfold.
Qed.

(** X21. [run] catches what is thrown: it ends normally unless the value
    caught has a [response] whose text cannot be read, which is then what
    [run] throws.  And it asks the service at most once, with the key read
    in the file, which is not empty. *)
Theorem run_catches (machine : Machine) (w : ScriptWorld) :
  (fst (run machine w) = Returned tt
   \/ exists e err,
        errorResponse e = Some (Thrown err)
        /\ fst (run machine w) = Thrown err
        /\ last (screen (snd (run machine w)))
           = Some (ScriptError [PString (lit "Error listing models:"); PCaught e]))
  /\ (listedWith (snd (run machine w)) = listedWith w
      \/ exists key,
           readKey (envFile machine) = Returned key
           /\ key <> []
           /\ listedWith (snd (run machine w)) = listedWith w ++ [key]).
Proof.
  pose proof (tryBlock_listed machine w) as Hlisted. unfold run.
  destruct (tryBlock machine w) as [[e|] w'] eqn:Htry; cbn [snd] in Hlisted.
  - destruct (errorResponse e) as [[body|err]|] eqn:Hresponse.
    + split; [by left | exact Hlisted].
    + split; [|exact Hlisted]. right. exists e, err.
      split; [exact Hresponse|]. split; [reflexivity|].
      cbn [snd script_write screen]. apply last_snoc.
    + split; [by left | exact Hlisted].
  - split; [by left | exact Hlisted].
Qed.

(** The first occurrence of the name is in the comment: the key is the
    one of the comment. *)
Example readKey_takes_the_comment :
  readKey (FileContent envWithComment) = Returned (lit "abc123").
Proof. vm_compute. reflexivity. Qed.

(** With that file the key shown is masked and the service is asked once,
    with the key of the comment. *)
Example run_with_comment :
  run (mkMachine (FileContent envWithComment) oneModel) emptyScriptWorld
  = (Returned tt,
     mkScriptWorld
       [ScriptLog [PString (lit "Using Key:"); PString (lit "abc12...bc123")];
        ScriptLog [PString (lit "Fetching models...")];
        ScriptLog [PString ([LF] ++ lit "--- AVAILABLE MODELS ---")];
        ScriptLog [PString (lit "- models/gemini-2.0-flash (Display: undefined)")];
        ScriptLog [PString (lit "  Supported: generateContent, countTokens")]]
       [lit "abc123"]).
Proof. vm_compute. reflexivity. Qed.

(** A variable with a blank value: no key, and the service is not
    asked. *)
Lemma run_without_key_witness :
  run (mkMachine (FileContent envWithBlankKey) oneModel) emptyScriptWorld
  = (Returned tt, mkScriptWorld [noKeyEntry] []).
Proof.
  apply (run_without_key (mkMachine (FileContent envWithBlankKey) oneModel)
           emptyScriptWorld).
  right. exists envWithBlankKey. split; [reflexivity|]. right.
  exists [], (lit "   " ++ [LF] ++ lit "OTHER=1").
  split; [vm_compute; reflexivity|]. split.
  - intros a b _. cbn [length]. lia.
  - vm_compute. repeat constructor.
Defined.

(** ** The status read in the text, position by position *)

(** White space is no letter: the [i] flag leaves it as it is. *)
Lemma is_space_canonicalize (c : N) : is_space c = true -> canonicalize c = c.
Proof.
  unfold is_space, canonicalize. intros Hc.
  destruct ((97 <=? c) && (c <=? 122))%N eqn:Hletter; [|reflexivity].
  apply andb_true_iff in Hletter as [Hlow Hhigh].
  apply N.leb_le in Hlow, Hhigh.
  repeat (apply orb_true_iff in Hc as [Hc|Hc]);
    try (apply andb_true_iff in Hc as [Hc1 Hc2]; apply N.leb_le in Hc1, Hc2; lia);
    apply N.eqb_eq in Hc; lia.
Qed.

(** A literal under the [i] flag, as an equation. *)
Lemma rmatch_lit_ci (l : jsstring) :
  forall s pos caps k,
    rmatch true (RLit l) pos s caps k
    = if startsWith (toUpperCase s) (toUpperCase l)
      then k (pos + length l) (skipn (length l) s) caps
      else None.
Proof.
  induction l as [|c l IH]; intros s pos caps k.
  - cbn. rewrite Nat.add_0_r. by destruct s.
  - destruct l as [|c' l].
    + destruct s as [|d s]; cbn [RLit rmatch in_class]; [reflexivity|].
      cbn [toUpperCase List.map startsWith length skipn].
      rewrite Nat.add_1_r.
      destruct (canonicalize d =? canonicalize c)%N; [|reflexivity].
      by destruct (List.map canonicalize s).
    + change (RLit (c :: c' :: l)) with (RSeq (RSet (CcChar c)) (RLit (c' :: l))).
      rewrite rmatch_seq. cbn [rmatch]. destruct s as [|d s]; [reflexivity|].
      cbn [in_class]. unfold toUpperCase in *.
      change (List.map canonicalize (d :: s))
        with (canonicalize d :: List.map canonicalize s).
      change (List.map canonicalize (c :: c' :: l))
        with (canonicalize c :: List.map canonicalize (c' :: l)).
      cbn [startsWith].
      destruct (canonicalize d =? canonicalize c)%N; cbn [andb]; [|reflexivity].
      rewrite IH. change (length (c :: c' :: l)) with (S (length (c' :: l))).
      cbn [skipn]. by rewrite Nat.add_succ_r.
Qed.

(** What a text begins with in capitals, it begins with in some case. *)
Lemma startsWith_toUpperCase (t word : jsstring) :
  startsWith (toUpperCase t) word = true ->
  t = firstn (length word) t ++ skipn (length word) t
  /\ toUpperCase (firstn (length word) t) = word
  /\ length (firstn (length word) t) = length word.
Proof.
  intros H. apply startsWith_spec in H as [rest Hrest].
  split; [by rewrite firstn_skipn|].
  assert (Hword : toUpperCase (firstn (length word) t) = word).
  { unfold toUpperCase in *. rewrite <- firstn_map, Hrest. apply take_app_length. }
  split; [exact Hword|].
  rewrite <- Hword at 2. unfold toUpperCase. by rewrite length_map.
Qed.

Lemma word_at_values (t word : jsstring) :
  word_at t = Some word ->
  word ∈ STATUS_VALUES /\ startsWith (toUpperCase t) word = true.
Proof.
  unfold word_at, STATUS_VALUES.
  destruct (startsWith (toUpperCase t) (lit "OPEN")) eqn:H1.
  { intros H. inversion H; subst. split; [set_solver | exact H1]. }
  destruct (startsWith (toUpperCase t) (lit "CLOSED")) eqn:H2.
  { intros H. inversion H; subst. split; [set_solver | exact H2]. }
  destruct (startsWith (toUpperCase t) (lit "UNKNOWN")) eqn:H3; [|discriminate].
  intros H. inversion H; subst. split; [set_solver | exact H3].
Qed.

(** No word begins with white space. *)
Lemma word_at_space (c : N) (t : jsstring) : is_space c = true -> word_at (c :: t) = None.
Proof.
  intros Hc. unfold word_at, toUpperCase. cbn [List.map].
  rewrite (is_space_canonicalize c Hc).
  assert (Hno : forall word letter rest, word = letter :: rest ->
            is_space letter = false ->
            startsWith (c :: List.map canonicalize t) word = false).
  { intros word letter rest -> Hletter. cbn [startsWith].
    destruct (N.eqb_spec c letter) as [->|]; [|reflexivity].
    by rewrite Hc in Hletter. }
  rewrite (Hno (lit "OPEN") 79%N (lit "PEN")) by reflexivity.
  rewrite (Hno (lit "CLOSED") 67%N (lit "LOSED")) by reflexivity.
  by rewrite (Hno (lit "UNKNOWN") 85%N (lit "NKNOWN")) by reflexivity.
Qed.

(** The group of the three words, at a position. *)
Lemma rmatch_status_word (pos : nat) (t : jsstring) (caps : Captures) :
  rmatch true
    (RGroup 1 (RAlt (RLit (lit "OPEN")) (RAlt (RLit (lit "CLOSED")) (RLit (lit "UNKNOWN")))))
    pos t caps found
  = match word_at t with
    | Some word =>
        Some (pos + length word, skipn (length word) t,
              (1, firstn (length word) t) :: caps)
    | None => None
    end.
Proof.
  rewrite rmatch_group, !rmatch_alt, !rmatch_lit_ci. unfold word_at, found.
  change (toUpperCase (lit "OPEN")) with (lit "OPEN").
  change (toUpperCase (lit "CLOSED")) with (lit "CLOSED").
  change (toUpperCase (lit "UNKNOWN")) with (lit "UNKNOWN").
  destruct (startsWith (toUpperCase t) (lit "OPEN")).
  { by replace (pos + length (lit "OPEN") - pos) with (length (lit "OPEN")) by lia. }
  destruct (startsWith (toUpperCase t) (lit "CLOSED")).
  { by replace (pos + length (lit "CLOSED") - pos) with (length (lit "CLOSED")) by lia. }
  destruct (startsWith (toUpperCase t) (lit "UNKNOWN")); [|reflexivity].
  by replace (pos + length (lit "UNKNOWN") - pos) with (length (lit "UNKNOWN")) by lia.
Qed.

(** The white space before the word: the star gives way to the word only
    at the end of the white space. *)
Lemma greedy_space_word (s : jsstring) (caps : Captures) :
  forall pos, exists pos',
    greedy true CcSpace pos s caps
      (fun p t cs =>
         rmatch true
           (RGroup 1 (RAlt (RLit (lit "OPEN"))
                        (RAlt (RLit (lit "CLOSED")) (RLit (lit "UNKNOWN")))))
           p t cs found)
    = match word_at (trimStart s) with
      | Some word =>
          Some (pos' + length word, skipn (length word) (trimStart s),
                (1, firstn (length word) (trimStart s)) :: caps)
      | None => None
      end.
Proof.
  induction s as [|c s IH]; intros pos.
  - exists pos. cbn [greedy trimStart]. apply rmatch_status_word.
  - cbn [greedy in_class trimStart]. destruct (is_space c) eqn:Hc.
    + destruct (IH (S pos)) as [pos' ->].
      destruct (word_at (trimStart s)) as [word|]; [by exists pos'|].
      exists pos. by rewrite rmatch_status_word, word_at_space.
    + exists pos. apply rmatch_status_word.
Qed.

(** The pattern of the status at a position: it matches exactly when the
    text there begins with a status, and captures the word as written. *)
Lemma rmatch_STATUS_PATTERN (pos : nat) (s : jsstring) :
  match status_word s with
  | Some word =>
      exists e written,
        rmatch true STATUS_PATTERN pos s [] found = Some e
        /\ group 1 (snd e) = Some written
        /\ toUpperCase written = word
  | None => rmatch true STATUS_PATTERN pos s [] found = None
  end.
Proof.
  unfold STATUS_PATTERN, status_word, space. rewrite rmatch_seq, rmatch_lit_ci.
  change (toUpperCase (lit "STATUS:")) with (lit "STATUS:").
  destruct (startsWith (toUpperCase s) (lit "STATUS:")); [|reflexivity].
  rewrite rmatch_seq, rmatch_star_class.
  change (length (lit "STATUS:")) with 7.
  destruct (greedy_space_word (skipn 7 s) [] (pos + 7)) as [pos' ->].
  destruct (word_at (trimStart (skipn 7 s))) as [word|] eqn:Hword; [|reflexivity].
  eexists _, _. split; [reflexivity|]. split; [reflexivity|].
  apply word_at_values in Hword as [_ Hstarts].
  by apply startsWith_toUpperCase in Hstarts as (_ & Hupper & _).
Qed.

Lemma STATUS_VALUES_cases (word : jsstring) :
  word ∈ STATUS_VALUES ->
  word = lit "OPEN" \/ word = lit "CLOSED" \/ word = lit "UNKNOWN".
Proof.
  unfold STATUS_VALUES. intros Hin.
  apply elem_of_cons in Hin as [->|Hin]; [by left|].
  apply elem_of_cons in Hin as [->|Hin]; [by right; left|].
  apply elem_of_cons in Hin as [->|Hin]; [by right; right|].
  by apply elem_of_nil in Hin.
Qed.

(** [status_at], computed. *)
Lemma status_at_word (s word : jsstring) :
  status_at s word <-> status_word s = Some word.
Proof.
  unfold status_word. split.
  - intros (label & ws & written & rest & -> & Hlabel & Hws & Hwritten & Hin).
    assert (Hlen : length label = 7).
    { apply (f_equal length) in Hlabel. unfold toUpperCase in Hlabel.
      by rewrite length_map in Hlabel. }
    unfold toUpperCase in *. rewrite map_app, Hlabel, startsWith_app.
    rewrite <- Hlen, drop_app_length, trimStart_all_space by done.
    apply STATUS_VALUES_cases in Hin.
    assert (Hhead : exists c tail, written = c :: tail /\ is_space c = false).
    { destruct written as [|c tail].
      - subst word. by destruct Hin as [Hin|[Hin|Hin]].
      - exists c, tail. split; [reflexivity|].
        destruct (is_space c) eqn:Hc; [|reflexivity].
        pose proof (is_space_canonicalize c Hc) as Hsame.
        cbn [List.map] in Hwritten. rewrite Hsame in Hwritten. subst word.
        destruct Hin as [Hin|[Hin|Hin]]; inversion Hin; subst c; discriminate Hc. }
    destruct Hhead as (c & tail & -> & Hc).
    cbn [app]. rewrite trimStart_head by done.
    unfold word_at, toUpperCase.
    change (c :: tail ++ rest) with ((c :: tail) ++ rest).
    rewrite map_app, Hwritten.
    set (r := List.map canonicalize rest).
    destruct Hin as [-> | [-> | ->]].
    + by rewrite startsWith_app.
    + replace (startsWith (lit "CLOSED" ++ r) (lit "OPEN")) with false by reflexivity.
      by rewrite startsWith_app.
    + replace (startsWith (lit "UNKNOWN" ++ r) (lit "OPEN")) with false by reflexivity.
      replace (startsWith (lit "UNKNOWN" ++ r) (lit "CLOSED")) with false by reflexivity.
      by rewrite startsWith_app.
  - destruct (startsWith (toUpperCase s) (lit "STATUS:")) eqn:Hlabel; [|discriminate].
    intros Hword. apply word_at_values in Hword as [Hin Hstarts].
    apply startsWith_toUpperCase in Hlabel as (Hs & Hupper & _).
    apply startsWith_toUpperCase in Hstarts as (Ht & Hwritten & _).
    destruct (trimStart_split (skipn 7 s)) as (ws & Hws & Hsplit).
    exists (firstn 7 s), ws, (firstn (length word) (trimStart (skipn 7 s))),
      (skipn (length word) (trimStart (skipn 7 s))).
    split; [|by repeat split].
    by rewrite <- Ht, <- Hsplit, firstn_skipn.
Qed.

(** The scan: no status at any position, no match; and the first position
    with a status gives the match. *)
Lemma exec_from_STATUS_none (text : jsstring) :
  (forall before s, text = before ++ s -> status_word s = None) ->
  forall pos, exec_from true STATUS_PATTERN pos text = None.
Proof.
  induction text as [|c text IH]; intros Hnone pos; rewrite exec_from_unfold.
  - pose proof (rmatch_STATUS_PATTERN pos []) as Hhere.
    rewrite (Hnone [] [] eq_refl) in Hhere. by rewrite Hhere.
  - pose proof (rmatch_STATUS_PATTERN pos (c :: text)) as Hhere.
    rewrite (Hnone [] (c :: text) eq_refl) in Hhere. rewrite Hhere.
    apply IH. intros before s ->. by apply (Hnone (c :: before)).
Qed.

Lemma exec_from_STATUS_first (before s word : jsstring) :
  status_word s = Some word ->
  (forall before' s', before ++ s = before' ++ s' ->
     length before' < length before -> status_word s' = None) ->
  forall pos, exists m written,
    exec_from true STATUS_PATTERN pos (before ++ s) = Some m
    /\ group 1 (groups m) = Some written
    /\ toUpperCase written = word.
Proof.
  intros Hword. induction before as [|c before IH]; intros Hfirst pos;
    rewrite exec_from_unfold.
  - cbn [app]. pose proof (rmatch_STATUS_PATTERN pos s) as Hhere.
    rewrite Hword in Hhere. destruct Hhere as ([[pos' s'] caps'] & written & -> & Hg & Hw).
    by eexists _, written.
  - pose proof (rmatch_STATUS_PATTERN pos ((c :: before) ++ s)) as Hhere.
    rewrite (Hfirst [] ((c :: before) ++ s) eq_refl) in Hhere
      by (cbn [length]; lia).
    rewrite Hhere. cbn [app]. apply IH. intros before' s' Heq Hlen.
    apply (Hfirst (c :: before') s'); [cbn [app]; by rewrite Heq|].
    cbn [length]. lia.
Qed.

(** X3. The [status] built from the text of a response.  It is always one
    of [OPEN], [CLOSED] and [UNKNOWN], in capitals.  When no place of the
    text has the label [STATUS:], white space or none, and one of the three
    words (label and word in any case), it is [UNKNOWN].  Otherwise it is
    the word of the first such place, in capitals whatever the case it is
    written in. *)
Theorem statusOfText_status (text : jsstring) :
  (exists status reason,
     statusOfText text = marketStatus status reason /\ status ∈ STATUS_VALUES)
  /\ ((forall before s word, text = before ++ s -> ~ status_at s word) ->
      exists reason, statusOfText text = marketStatus (lit "UNKNOWN") reason)
  /\ (forall before s word,
        text = before ++ s ->
        status_at s word ->
        (forall before' s' word',
           text = before' ++ s' -> status_at s' word' ->
           length before <= length before') ->
        exists reason, statusOfText text = marketStatus word reason).
Proof.
  split; [|split].
  - unfold statusOfText.
    destruct (String_match true STATUS_PATTERN text) as [m|] eqn:Hm.
    + apply exec_from_end in Hm as (skip & n & _ & _ & _ & _ & Hm).
      apply STATUS_PATTERN_capture in Hm as (g & Hg & Hin). cbn [snd] in Hg.
      eexists _, _. split; [reflexivity|]. by rewrite Hg.
    + eexists _, _. split; [reflexivity|]. unfold STATUS_VALUES. set_solver.
  - intros Hnone. unfold statusOfText, String_match.
    rewrite exec_from_STATUS_none; [by eexists|].
    intros before s Htext. destruct (status_word s) as [word|] eqn:Hword; [|reflexivity].
    destruct (Hnone before s word Htext). by apply status_at_word.
  - intros before s word -> Hat Hfirst. apply status_at_word in Hat.
    unfold statusOfText, String_match.
    destruct (exec_from_STATUS_first before s word Hat) with (pos := 0)
      as (m & written & -> & -> & Hupper).
    + intros before' s' Heq Hlen.
      destruct (status_word s') as [word'|] eqn:Hword'; [|reflexivity].
      apply status_at_word in Hword'.
      specialize (Hfirst before' s' word' Heq Hword'). lia.
    + cbn [from_option id]. rewrite Hupper. by eexists.
Qed.

(** A lower-case label on the second line, after a line that names the
    label without a word: the status is the word in capitals. *)
Example statusOfText_first_place :
  exists reason,
    statusOfText (lines [lit "About STATUS: none given yet."; lit "status:" ++ [9%N] ++ lit "open."])
    = marketStatus (lit "OPEN") reason.
Proof. eexists. vm_compute. reflexivity. Qed.
